(** * qbittorrent-operator: a shallow embedding of the session pool, the
    configuration resolver, the condition tracker and the reconcilers,
    with the properties of the design specification checked against it.

    Go strings are byte strings and are modelled by [string]; Go [int],
    [int64] and [time.Duration] values are modelled by [Z]; maps by stdpp's
    [gmap]; pointers that may be nil by [option]. *)

From Stdlib Require Import ZArith Ascii String List Bool Lia.
From stdpp Require Import base option list strings gmap fin_maps.

Local Open Scope string_scope.
Local Open Scope Z_scope.

(** ** Go strings *)

Module GoStrings.

(** [len(s)] *)
Definition len (s : string) : Z := Z.of_nat (String.length s).

(** [strings.HasPrefix(s, p)] *)
Fixpoint HasPrefix (s p : string) {struct p} : bool :=
  match p, s with
  | EmptyString, _ => true
  | String c p', String d s' => if Ascii.eqb c d then HasPrefix s' p' else false
  | String _ _, EmptyString => false
  end.

(** [strings.Index(s, substr)]: the byte offset of the first occurrence
    of [substr] in [s], or [-1]. *)
Fixpoint Index (s substr : string) : Z :=
  if HasPrefix s substr then 0
  else match s with
       | EmptyString => -1
       | String _ s' =>
           let i := Index s' substr in
           if i =? -1 then -1 else i + 1
       end.

(** [s[n:]] for [0 <= n <= len(s)] *)
Fixpoint drop (n : nat) (s : string) : string :=
  match n, s with
  | O, _ => s
  | S n', String _ s' => drop n' s'
  | S _, EmptyString => EmptyString
  end.

(** [s[:n]] for [0 <= n <= len(s)] *)
Fixpoint take (n : nat) (s : string) : string :=
  match n, s with
  | O, _ => EmptyString
  | S n', String c s' => String c (take n' s')
  | S _, EmptyString => EmptyString
  end.

(** [s[lo:]] *)
Definition slice_from (s : string) (lo : Z) : string := drop (Z.to_nat lo) s.

(** [s[lo:hi]] *)
Definition slice (s : string) (lo hi : Z) : string :=
  take (Z.to_nat (hi - lo)) (drop (Z.to_nat lo) s).

(** The double quote character, and what [%q] prints for a string that
    needs no escaping (Kubernetes object names are DNS labels); used by
    the concrete runtimes of the examples. *)
Definition dquote : string := String (ascii_of_nat 34) EmptyString.
Definition quote (s : string) : string := dquote ++ s ++ dquote.

End GoStrings.

(** ** Go errors *)

Module GoErrors.

(** An [error] value: a plain message ([errors.New], [fmt.Errorf] without
    [%w]), a Kubernetes API status error with its reason, or a wrapping
    error built by [fmt.Errorf] with [%w], which keeps the formatted text
    and the error it wraps. *)
Inductive error : Type :=
| errString (msg : string)
| errStatus (reason msg : string)
| errWrap (msg : string) (cause : error).

(** [err.Error()] *)
Definition Error (e : error) : string :=
  match e with
  | errString m => m
  | errStatus _ m => m
  | errWrap m _ => m
  end.

(** [errors.Unwrap(err)] *)
Definition Unwrap (e : error) : option error :=
  match e with
  | errWrap _ c => Some c
  | _ => None
  end.

(** [fmt.Errorf(prefix + ": %w", cause)] *)
Definition Errorf_w (prefix : string) (cause : error) : error :=
  errWrap (prefix ++ ": " ++ Error cause) cause.

(** [apierrors.IsNotFound(err)], which looks through wrapping. *)
Fixpoint IsNotFound (e : error) : bool :=
  match e with
  | errString _ => false
  | errStatus reason _ => String.eqb reason "NotFound"
  | errWrap _ c => IsNotFound c
  end.

(** [client.IgnoreNotFound(err)] for a non-nil [err]. *)
Definition IgnoreNotFound (e : error) : option error :=
  if IsNotFound e then None else Some e.

End GoErrors.
Export GoErrors.

(** ** Identifier extraction (internal/qbittorrent/utils.go) *)

Definition GetTorrentHash (magnetURI : string) : string + error :=
  (* Find the btih: prefix *)
  let btihIndex := GoStrings.Index magnetURI "btih:" in
  if btihIndex =? -1 then inr (errString "'btih:' not found")
  else
    (* Start after "btih:" *)
    let hashStart := btihIndex + 5 in
    if hashStart >=? GoStrings.len magnetURI then inr (errString "no hash after 'btih:'")
    else
      (* Hash ends at the next '&' or end of string *)
      let hashEnd := GoStrings.Index (GoStrings.slice_from magnetURI hashStart) "&" in
      if hashEnd =? -1 then inl (GoStrings.slice_from magnetURI hashStart)
      else inl (GoStrings.slice magnetURI hashStart (hashStart + hashEnd)).

(** ** Time (package time, metav1.Time) *)

Module GoTime.

(** Instants and durations in nanoseconds; the zero [time.Time] is [0]. *)
Definition Time := Z.
Definition Duration := Z.

Definition Second : Duration := 1000000000.
Definition maxDuration : Duration := 9223372036854775807.
Definition minDuration : Duration := -9223372036854775808.

(** [t.IsZero()] *)
Definition IsZero (t : Time) : bool := t =? 0.

(** [t.Sub(u)]: the difference, saturated to the range of [Duration]. *)
Definition Sub (t u : Time) : Duration :=
  let d := t - u in
  if d <? minDuration then minDuration
  else if maxDuration <? d then maxDuration
  else d.

(** [IsZero] on a pointer to a [metav1.Time]: a nil pointer is zero. *)
Definition IsZeroPtr (t : option Time) : bool :=
  match t with
  | None => true
  | Some t => IsZero t
  end.

End GoTime.
Export GoTime.

(** ** API types (api/v1alpha1) and the Kubernetes types they embed *)

(** [metav1.Condition] *)
Record Condition : Type := mkCondition {
  c_Type : string;
  c_Status : string;
  c_ObservedGeneration : Z;
  c_LastTransitionTime : Time;
  c_Reason : string;
  c_Message : string
}.

Definition ConditionTrue : string := "True".

(** The fields of [metav1.ObjectMeta] the controllers read or write. *)
Record ObjectMeta : Type := mkObjectMeta {
  om_Name : string;
  om_Namespace : string;
  om_DeletionTimestamp : option Time;
  om_Finalizers : list string
}.

(** [types.NamespacedName] *)
Record NamespacedName : Type := mkNamespacedName {
  nn_Namespace : string;
  nn_Name : string
}.

Record LocalObjectReference : Type := mkLocalObjectReference { lor_Name : string }.
Record SecretReference : Type := mkSecretReference { sr_Name : string }.

Record TorrentSpec : Type := mkTorrentSpec {
  MagnetURI : string;
  ClientConfigRef : option LocalObjectReference;
  DeleteFilesOnRemoval : option bool
}.

Record TorrentStatus : Type := mkTorrentStatus {
  ContentPath : string;
  AddedOn : Z;
  State : string;
  TotalSize : Z;
  Name : string;
  TimeActive : Z;
  AmountLeft : Z;
  Hash : string;
  ClientConfigurationName : string;
  Conditions : list Condition
}.

Record Torrent : Type := mkTorrent {
  t_Meta : ObjectMeta;
  t_Spec : TorrentSpec;
  t_Status : TorrentStatus
}.

Record TorrentClientConfigurationSpec : Type := mkTCCSpec {
  URL : string;
  CredentialsSecret : SecretReference;
  CheckInterval : string
}.

Record TorrentClientConfigurationStatus : Type := mkTCCStatus {
  Connected : bool;
  LastChecked : option Time;
  QBittorrentVersion : string;
  tcc_Conditions : list Condition
}.

Record TorrentClientConfiguration : Type := mkTCC {
  tcc_Meta : ObjectMeta;
  tcc_Spec : TorrentClientConfigurationSpec;
  tcc_Status : TorrentClientConfigurationStatus
}.

Record TorrentServerStatus : Type := mkTSStatus {
  DeploymentName : string;
  ServiceName : string;
  ConfigPVCName : string;
  ts_ClientConfigurationName : string;
  ReadyReplicas : Z;
  ts_URL : string;
  ts_Conditions : list Condition
}.

(** A [TorrentServer]; its spec is not read by the code modelled here. *)
Record TorrentServer : Type := mkTorrentServer {
  ts_Meta : ObjectMeta;
  ts_Status : TorrentServerStatus
}.

(** [corev1.Secret]: [Data] maps a key to its bytes. *)
Record Secret : Type := mkSecret {
  s_Meta : ObjectMeta;
  s_Data : gmap string string
}.

(** [ctrl.Result] *)
Record Result : Type := mkResult {
  Requeue : bool;
  RequeueAfter : Duration
}.

(** [ctrl.Result{}] and [ctrl.Result{RequeueAfter: d}] *)
Definition emptyResult : Result := mkResult false 0.
Definition requeueAfter (d : Duration) : Result := mkResult false d.

(** Field updates on the records above (assignment through the pointer). *)
Definition set_Conditions (st : TorrentStatus) (cs : list Condition) : TorrentStatus :=
  mkTorrentStatus (ContentPath st) (AddedOn st) (State st) (TotalSize st) (Name st)
    (TimeActive st) (AmountLeft st) (Hash st) (ClientConfigurationName st) cs.

Definition set_ClientConfigurationName (st : TorrentStatus) (n : string) : TorrentStatus :=
  mkTorrentStatus (ContentPath st) (AddedOn st) (State st) (TotalSize st) (Name st)
    (TimeActive st) (AmountLeft st) (Hash st) n (Conditions st).

Definition set_Status (t : Torrent) (st : TorrentStatus) : Torrent :=
  mkTorrent (t_Meta t) (t_Spec t) st.

Definition set_Finalizers (t : Torrent) (fs : list string) : Torrent :=
  mkTorrent
    (mkObjectMeta (om_Name (t_Meta t)) (om_Namespace (t_Meta t))
       (om_DeletionTimestamp (t_Meta t)) fs)
    (t_Spec t) (t_Status t).

Definition set_tcc_Status (c : TorrentClientConfiguration)
    (st : TorrentClientConfigurationStatus) : TorrentClientConfiguration :=
  mkTCC (tcc_Meta c) (tcc_Spec c) st.

Definition set_tcc_Conditions (st : TorrentClientConfigurationStatus)
    (cs : list Condition) : TorrentClientConfigurationStatus :=
  mkTCCStatus (Connected st) (LastChecked st) (QBittorrentVersion st) cs.

Definition set_Connected (st : TorrentClientConfigurationStatus)
    (b : bool) : TorrentClientConfigurationStatus :=
  mkTCCStatus b (LastChecked st) (QBittorrentVersion st) (tcc_Conditions st).

Definition set_LastChecked (st : TorrentClientConfigurationStatus)
    (t : option Time) : TorrentClientConfigurationStatus :=
  mkTCCStatus (Connected st) t (QBittorrentVersion st) (tcc_Conditions st).

Definition set_ts_Conditions (s : TorrentServer) (cs : list Condition) : TorrentServer :=
  mkTorrentServer (ts_Meta s)
    (mkTSStatus (DeploymentName (ts_Status s)) (ServiceName (ts_Status s))
       (ConfigPVCName (ts_Status s)) (ts_ClientConfigurationName (ts_Status s))
       (ReadyReplicas (ts_Status s)) (ts_URL (ts_Status s)) cs).

(** ** The remote engine's client (internal/qbittorrent) *)

(** Modelled from the spec: the [Client] struct is not among the sources.
    The spec calls what the pool hands out a session handle, constructed
    for an endpoint on a key miss. A handle is modelled as the pointer
    [NewClient] returned and the base URL it was built for; two handles
    are the same session when they are the same pointer. *)
Record Client : Type := mkClient {
  cl_ptr : nat;
  cl_baseURL : string
}.

(** Modelled from the spec: the [TorrentInfo] struct is not among the
    sources. Its fields are the observed fields the spec lists (name,
    lifecycle state, size, content path, added-on time, active time, bytes
    remaining, identifier), which [updateTorrentStatus] reads. *)
Record TorrentInfo : Type := mkTorrentInfo {
  ti_Hash : string;
  ti_Name : string;
  ti_State : string;
  ti_TotalSize : Z;
  ti_ContentPath : string;
  ti_AddedOn : Z;
  ti_TimeActive : Z;
  ti_AmountLeft : Z
}.

(** ** The world outside the reconcilers *)

(** Every call that leaves the process: requests to the API server
    (the embedded [client.Client]) and to the remote engine (the methods of
    [QBTClient], whose implementation is behind the interface). *)
Inductive Event : Type :=
| EvGetTorrent (key : NamespacedName)
| EvGetTCC (key : NamespacedName)
| EvListTCC (namespace : string)
| EvGetSecret (key : NamespacedName)
| EvUpdateTorrent (t : Torrent)
| EvStatusUpdateTorrent (t : Torrent)
| EvStatusUpdateTCC (c : TorrentClientConfiguration)
| EvLogin (c : Client) (username password : string)
| EvGetTorrentInfo (c : Client) (hash : string)
| EvAddTorrent (c : Client) (magnetURI : string)
| EvDeleteTorrent (c : Client) (hash : string) (deleteFiles : bool)
| EvPing (c : Client).

(** What the collaborators answer. Each answer may depend on everything
    that was asked before (the first argument), so that the same request
    can succeed once and fail later. [clock n] is the [n]-th reading of
    [time.Now()]; [sha256_hex], [fmt_q] and [ParseDuration] are the
    library functions [fmt.Sprintf("%x", sha256.Sum256(b))], the [%q] verb
    and [time.ParseDuration]. *)
Record Env : Type := mkEnv {
  clock : nat -> Time;
  sha256_hex : string -> string;
  fmt_q : string -> string;
  ParseDuration : string -> Duration + error;
  k_GetTorrent : list Event -> NamespacedName -> Torrent + error;
  k_GetTCC : list Event -> NamespacedName -> TorrentClientConfiguration + error;
  k_ListTCC : list Event -> string -> list TorrentClientConfiguration + error;
  k_GetSecret : list Event -> NamespacedName -> Secret + error;
  k_UpdateTorrent : list Event -> Torrent -> option error;
  k_StatusUpdateTorrent : list Event -> Torrent -> option error;
  k_StatusUpdateTCC : list Event -> TorrentClientConfiguration -> option error;
  q_Login : list Event -> Client -> string -> string -> option error;
  q_GetTorrentInfo : list Event -> Client -> string -> option TorrentInfo + error;
  q_AddTorrent : list Event -> Client -> string -> option error;
  q_DeleteTorrent : list Event -> Client -> string -> bool -> option error;
  q_Ping : list Event -> Client -> option error
}.

(** [poolEntry] and [ClientPool] (the lock is not modelled: every pool
    operation below runs as one step). *)
Record poolEntry : Type := mkPoolEntry {
  e_client : Client;
  e_credHash : string;
  e_lastUsed : Time
}.

Record ClientPool : Type := mkClientPool {
  clients : gmap string poolEntry;
  ttl : Duration
}.

(** [NewClientPool(ttl)] *)
Definition NewClientPool (ttl : Duration) : ClientPool := mkClientPool ∅ ttl.

(** The state of the process: how many clock readings were taken, the next
    pointer [NewClient] will return, the shared pool, the keys of the armed
    [time.AfterFunc] timers, and the calls made so far, oldest first. *)
Record World : Type := mkWorld {
  w_tick : nat;
  w_next : nat;
  w_pool : ClientPool;
  w_timers : list string;
  w_trace : list Event
}.

Definition set_clients (w : World) (m : gmap string poolEntry) : World :=
  mkWorld (w_tick w) (w_next w) (mkClientPool m (ttl (w_pool w))) (w_timers w) (w_trace w).

Definition set_timers (w : World) (ts : list string) : World :=
  mkWorld (w_tick w) (w_next w) (w_pool w) ts (w_trace w).

(** ** A state monad over the world *)

Definition M (A : Type) : Type := World -> A * World.

Definition ret {A : Type} (a : A) : M A := fun w => (a, w).

Definition bind {A B : Type} (m : M A) (k : A -> M B) : M B :=
  fun w => let (a, w') := m w in k a w'.

Declare Scope go_scope.
Delimit Scope go_scope with go.
Notation "x <- c ;; k" := (bind c (fun x => k))
  (at level 100, c at next level, right associativity) : go_scope.
Local Open Scope go_scope.

Section Runtime.

Context (env : Env).

(** [time.Now()] *)
Definition time_Now : M Time :=
  fun w => (clock env (w_tick w),
            mkWorld (S (w_tick w)) (w_next w) (w_pool w) (w_timers w) (w_trace w)).

(** An outgoing call: the answer is the collaborator's, given the calls
    made so far, and the call is appended to the trace. *)
Definition call {A : Type} (ev : Event) (answer : list Event -> A) : M A :=
  fun w => (answer (w_trace w),
            mkWorld (w_tick w) (w_next w) (w_pool w) (w_timers w) (w_trace w ++ [ev])%list).

(** The calls of [client.Client] and of [Status()]. *)
Definition r_Get_Torrent (key : NamespacedName) : M (Torrent + error) :=
  call (EvGetTorrent key) (fun h => k_GetTorrent env h key).
Definition r_Get_TCC (key : NamespacedName) : M (TorrentClientConfiguration + error) :=
  call (EvGetTCC key) (fun h => k_GetTCC env h key).
Definition r_List_TCC (namespace : string) : M (list TorrentClientConfiguration + error) :=
  call (EvListTCC namespace) (fun h => k_ListTCC env h namespace).
Definition r_Get_Secret (key : NamespacedName) : M (Secret + error) :=
  call (EvGetSecret key) (fun h => k_GetSecret env h key).
Definition r_Update (t : Torrent) : M (option error) :=
  call (EvUpdateTorrent t) (fun h => k_UpdateTorrent env h t).
Definition r_Status_Update (t : Torrent) : M (option error) :=
  call (EvStatusUpdateTorrent t) (fun h => k_StatusUpdateTorrent env h t).
Definition r_Status_Update_TCC (c : TorrentClientConfiguration) : M (option error) :=
  call (EvStatusUpdateTCC c) (fun h => k_StatusUpdateTCC env h c).

(** The methods of [QBTClient]. *)
Definition Login (c : Client) (username password : string) : M (option error) :=
  call (EvLogin c username password) (fun h => q_Login env h c username password).
Definition GetTorrentInfo (c : Client) (hash : string) : M (option TorrentInfo + error) :=
  call (EvGetTorrentInfo c hash) (fun h => q_GetTorrentInfo env h c hash).
Definition AddTorrent (c : Client) (magnetURI : string) : M (option error) :=
  call (EvAddTorrent c magnetURI) (fun h => q_AddTorrent env h c magnetURI).
Definition DeleteTorrent (c : Client) (hash : string) (deleteFiles : bool) : M (option error) :=
  call (EvDeleteTorrent c hash deleteFiles) (fun h => q_DeleteTorrent env h c hash deleteFiles).
Definition Ping (c : Client) : M (option error) :=
  call (EvPing c) (fun h => q_Ping env h c).

(** Modelled from the spec: [NewClient] is not among the sources. On a key
    miss the pool "constructs a new session": [NewClient(url)] returns a
    pointer that was not handed out before. *)
Definition NewClient (url : string) : M Client :=
  fun w => (mkClient (w_next w) url,
            mkWorld (w_tick w) (S (w_next w)) (w_pool w) (w_timers w) (w_trace w)).

End Runtime.

(** ** Status conditions (k8s.io/apimachinery/pkg/api/meta) *)

Module meta.
Section Conditions.

Context (env : Env).

(** [FindStatusCondition]: the first condition of the given type. *)
Fixpoint FindStatusCondition (conditions : list Condition) (conditionType : string)
    : option Condition :=
  match conditions with
  | [] => None
  | c :: rest =>
      if String.eqb (c_Type c) conditionType then Some c
      else FindStatusCondition rest conditionType
  end.

(** Assignment through the pointer [FindStatusCondition] returned:
    the first condition of the type is replaced. *)
Fixpoint store (conditions : list Condition) (conditionType : string) (new : Condition)
    : list Condition :=
  match conditions with
  | [] => []
  | c :: rest =>
      if String.eqb (c_Type c) conditionType then new :: rest
      else c :: store rest conditionType new
  end.

(** [SetStatusCondition]; the [changed] result, which no caller reads,
    is left out. *)
Definition SetStatusCondition (conditions : list Condition) (newCondition : Condition)
    : M (list Condition) :=
  match FindStatusCondition conditions (c_Type newCondition) with
  | None =>
      lastTransitionTime <-
        (if IsZero (c_LastTransitionTime newCondition) then time_Now env
         else ret (c_LastTransitionTime newCondition)) ;;
      ret (conditions ++
             [mkCondition (c_Type newCondition) (c_Status newCondition)
                (c_ObservedGeneration newCondition) lastTransitionTime
                (c_Reason newCondition) (c_Message newCondition)])%list
  | Some existingCondition =>
      changed <-
        (if negb (String.eqb (c_Status existingCondition) (c_Status newCondition)) then
           t <- (if negb (IsZero (c_LastTransitionTime newCondition))
                 then ret (c_LastTransitionTime newCondition)
                 else time_Now env) ;;
           ret (c_Status newCondition, t)
         else ret (c_Status existingCondition, c_LastTransitionTime existingCondition)) ;;
      let '(status, lastTransitionTime) := changed in
      let reason :=
        if negb (String.eqb (c_Reason existingCondition) (c_Reason newCondition))
        then c_Reason newCondition else c_Reason existingCondition in
      let message :=
        if negb (String.eqb (c_Message existingCondition) (c_Message newCondition))
        then c_Message newCondition else c_Message existingCondition in
      let observedGeneration :=
        if negb (c_ObservedGeneration existingCondition =? c_ObservedGeneration newCondition)
        then c_ObservedGeneration newCondition
        else c_ObservedGeneration existingCondition in
      ret (store conditions (c_Type newCondition)
             (mkCondition (c_Type existingCondition) status observedGeneration
                lastTransitionTime reason message))
  end.

(** [RemoveStatusCondition]: every condition of the type is dropped. *)
Fixpoint RemoveStatusCondition (conditions : list Condition) (conditionType : string)
    : list Condition :=
  match conditions with
  | [] => []
  | c :: rest =>
      if negb (String.eqb (c_Type c) conditionType)
      then c :: RemoveStatusCondition rest conditionType
      else RemoveStatusCondition rest conditionType
  end.

End Conditions.
End meta.

(** ** Finalizers (sigs.k8s.io/controller-runtime/pkg/controller/controllerutil) *)

Module controllerutil.

Fixpoint contains (f : list string) (finalizer : string) : bool :=
  match f with
  | [] => false
  | e :: rest => if String.eqb e finalizer then true else contains rest finalizer
  end.

Fixpoint without (f : list string) (finalizer : string) : list string :=
  match f with
  | [] => []
  | e :: rest =>
      if String.eqb e finalizer then without rest finalizer
      else e :: without rest finalizer
  end.

Definition ContainsFinalizer (o : Torrent) (finalizer : string) : bool :=
  contains (om_Finalizers (t_Meta o)) finalizer.

Definition AddFinalizer (o : Torrent) (finalizer : string) : Torrent :=
  if contains (om_Finalizers (t_Meta o)) finalizer then o
  else set_Finalizers o (om_Finalizers (t_Meta o) ++ [finalizer])%list.

Definition RemoveFinalizer (o : Torrent) (finalizer : string) : Torrent :=
  set_Finalizers o (without (om_Finalizers (t_Meta o)) finalizer).

End controllerutil.

(** ** The session pool (internal/qbittorrent, the pool file) *)

Module qbittorrent.
Section Pool.

Context (env : Env).

Definition hashCredentials (url username password : string) : string :=
  sha256_hex env (url ++ "|" ++ username ++ "|" ++ password).

(** [p.Remove(credHash)] *)
Definition Remove (credHash : string) : M unit :=
  fun w => (tt, set_clients w (delete credHash (clients (w_pool w)))).

(** [scheduleRemove(pool, credHash)] arms a timer for the key; the
    function it hands to [time.AfterFunc] is [scheduleRemove_fired]. *)
Definition scheduleRemove (credHash : string) : M unit :=
  fun w => (tt, set_timers w (w_timers w ++ [credHash])%list).

Definition scheduleRemove_fired (credHash : string) : M unit :=
  fun w =>
    match clients (w_pool w) !! credHash with
    | None => (tt, w)
    | Some entry =>
        (now <- time_Now env ;;
         if Sub now (e_lastUsed entry) >? ttl (w_pool w)
         then Remove credHash
         else ret tt) w
    end.

(** The runtime fires the [i]-th armed timer. *)
Definition fire (i : nat) : M unit :=
  fun w =>
    match w_timers w !! i with
    | None => (tt, w)
    | Some credHash =>
        scheduleRemove_fired credHash (set_timers w (delete i (w_timers w)))
    end.

Definition GetOrCreate (url username password : string) : M (Client + error) :=
  let credHash := hashCredentials url username password in
  let create : M (Client + error) :=
    (* Create new client and login *)
    client <- NewClient url ;;
    err <- Login env client username password ;;
    match err with
    | Some err =>
        ret (inr (errWrap ("failed to login for credentials[" ++ username ++ ", "
                             ++ password ++ "] url[" ++ url ++ "]: " ++ Error err) err))
    | None =>
        now <- time_Now env ;;
        _ <- (fun w => (tt, set_clients w
                (<[credHash := mkPoolEntry client credHash now]> (clients (w_pool w))))) ;;
        _ <- scheduleRemove credHash ;;
        ret (inl client)
    end in
  fun w =>
    match clients (w_pool w) !! credHash with
    | Some entry =>
        if String.eqb (e_credHash entry) credHash then
          (now <- time_Now env ;;
           _ <- (fun w => (tt, set_clients w
                   (<[credHash := mkPoolEntry (e_client entry) (e_credHash entry) now]>
                      (clients (w_pool w))))) ;;
           _ <- scheduleRemove credHash ;;
           ret (inl (e_client entry))) w
        else create w
    | None => create w
    end.

(** [p.Cleanup()]: the loop visits every entry of the map once. *)
Definition Cleanup : M unit :=
  now <- time_Now env ;;
  fun w =>
    (tt, set_clients w
           (map_fold
              (fun key entry (m : gmap string poolEntry) =>
                 if Sub now (e_lastUsed entry) >? ttl (w_pool w) then delete key m else m)
              (clients (w_pool w)) (clients (w_pool w)))).

End Pool.
End qbittorrent.

(** ** The reconcilers (internal/controller) *)

Definition TypeAvailableTorrent : string := "Available".
Definition TypeDegradedTorrent : string := "Degraded".
Definition TypeAvailableTCC : string := "Available".
Definition TypeDegradedTCC : string := "Degraded".
Definition TypeAvailableTorrentServer : string := "Available".
Definition TypeDegradedTorrentServer : string := "Degraded".

Definition TorrentFinalizer : string := "torrent.qbittorrent.io/finalizer".

(** [string(secret.Data[key])]: a missing key reads as the empty string. *)
Definition secret_string (secret : Secret) (key : string) : string :=
  match s_Data secret !! key with
  | Some b => b
  | None => ""
  end.

Module TorrentReconciler.
Section Reconciler.

Context (env : Env).

Definition setDegradedCondition (torrent : Torrent) (reason message : string) : M Torrent :=
  now <- time_Now env ;;
  let condition := mkCondition TypeDegradedTorrent ConditionTrue 0 now reason message in
  conditions <- meta.SetStatusCondition env (Conditions (t_Status torrent)) condition ;;
  let conditions := meta.RemoveStatusCondition conditions TypeAvailableTorrent in
  ret (set_Status torrent (set_Conditions (t_Status torrent) conditions)).

Definition setAvailableCondition (torrent : Torrent) (reason message : string) : M Torrent :=
  now <- time_Now env ;;
  let condition := mkCondition TypeAvailableTorrent ConditionTrue 0 now reason message in
  conditions <- meta.SetStatusCondition env (Conditions (t_Status torrent)) condition ;;
  let conditions := meta.RemoveStatusCondition conditions TypeDegradedTorrent in
  ret (set_Status torrent (set_Conditions (t_Status torrent) conditions)).

(** [getQBTClient] returns the session or the error, and the work item
    as the function leaves it behind its pointer. The configuration
    fetched for an explicit reference is bound to a variable local to
    the [if] block, as in the source; the one used after the block is
    the one the switch over the listed items assigns. *)
Definition getQBTClient (torrent : Torrent) : M ((Client + error) * Torrent) :=
  let namespace := om_Namespace (t_Meta torrent) in
  (* 1. Get TCC *)
  refErr <-
    match ClientConfigRef (t_Spec torrent) with
    | Some ref =>
        (* 1.1. Get the referenced TCC *)
        got <- r_Get_TCC env (mkNamespacedName namespace (lor_Name ref)) ;;
        match got with
        | inr err =>
            ret (Some (errWrap ("referenced TorrentClientConfiguration "
                                  ++ fmt_q env (lor_Name ref) ++ " not found: " ++ Error err)
                               err))
        | inl _ => ret None
        end
    | None => ret None
    end ;;
  match refErr with
  | Some err => ret (inr err, torrent)
  | None =>
      (* 1.2. If no explicit reference, try to auto-discover the only TCC in the namespace *)
      tccList <- r_List_TCC env namespace ;;
      match tccList with
      | inr err =>
          ret (inr (errWrap ("failed to list TorrentClientConfigurations: " ++ Error err) err),
               torrent)
      | inl [] =>
          ret (inr (errString ("no TorrentClientConfiguration found in namespace "
                                 ++ namespace)),
               torrent)
      | inl [tcc] =>
          (* 2. TCC must be available to connect to qBittorrent *)
          let availableCondition :=
            meta.FindStatusCondition (tcc_Conditions (tcc_Status tcc)) TypeAvailableTCC in
          if match availableCondition with
             | None => true
             | Some c => negb (String.eqb (c_Status c) ConditionTrue)
             end
          then
            ret (inr (errString ("TorrentClientConfiguration "
                                   ++ fmt_q env (om_Name (tcc_Meta tcc))
                                   ++ " is not available")),
                 torrent)
          else
            (* 3. Set the discovered TCC in the status *)
            let torrent :=
              set_Status torrent
                (set_ClientConfigurationName (t_Status torrent) (om_Name (tcc_Meta tcc))) in
            (* 4. Get credentials and the related connection *)
            let secretName := sr_Name (CredentialsSecret (tcc_Spec tcc)) in
            got <- r_Get_Secret env
                     (mkNamespacedName (om_Namespace (tcc_Meta tcc)) secretName) ;;
            match got with
            | inr err =>
                ret (inr (errWrap ("failed to get credentials secret "
                                     ++ fmt_q env secretName ++ ": " ++ Error err) err),
                     torrent)
            | inl secret =>
                res <- qbittorrent.GetOrCreate env (URL (tcc_Spec tcc))
                         (secret_string secret "username")
                         (secret_string secret "password") ;;
                ret (res, torrent)
            end
      | inl (_ :: _ :: _) =>
          ret (inr (errString ("multiple TorrentClientConfigurations found in namespace "
                                 ++ namespace
                                 ++ "; set spec.clientConfigRef to select one")),
               torrent)
      end
  end.

Definition handleDeletion (torrent : Torrent) : M ((Result * option error) * Torrent) :=
  let removeFinalizer (torrent : Torrent) : M ((Result * option error) * Torrent) :=
    let torrent := controllerutil.RemoveFinalizer torrent TorrentFinalizer in
    err <- r_Update env torrent ;;
    match err with
    | Some err => ret ((emptyResult, Some err), torrent)
    | None => ret ((emptyResult, None), torrent)
    end in
  if negb (String.eqb (Hash (t_Status torrent)) "") then
    (* Resolve TCC to get a client for deletion *)
    got <- getQBTClient torrent ;;
    let '(res, torrent) := got in
    match res with
    | inr _ => removeFinalizer torrent
    | inl qbtClient =>
        let deleteFiles :=
          match DeleteFilesOnRemoval (t_Spec torrent) with
          | Some b => b
          | None => true
          end in
        err <- DeleteTorrent env qbtClient (Hash (t_Status torrent)) deleteFiles ;;
        match err with
        | Some err =>
            torrent <- setDegradedCondition torrent "FailedToDeleteTorrent" (Error err) ;;
            _ <- r_Status_Update env torrent ;;
            ret ((requeueAfter (10 * Second), None), torrent)
        | None => removeFinalizer torrent
        end
    end
  else removeFinalizer torrent.

Definition updateTorrentStatus (torrent : Torrent) (qbTorrent : TorrentInfo)
    : Torrent * bool :=
  let st := t_Status torrent in
  let hashNew := negb (String.eqb (Hash st) (ti_Hash qbTorrent)) in
  let nameNew := negb (String.eqb (Name st) (ti_Name qbTorrent)) in
  let stateNew := negb (String.eqb (State st) (ti_State qbTorrent)) in
  let sizeNew := negb (TotalSize st =? ti_TotalSize qbTorrent) in
  let pathNew := negb (String.eqb (ContentPath st) (ti_ContentPath qbTorrent)) in
  let addedNew := negb (AddedOn st =? ti_AddedOn qbTorrent) in
  let activeNew := negb (TimeActive st =? ti_TimeActive qbTorrent) in
  let leftNew := negb (AmountLeft st =? ti_AmountLeft qbTorrent) in
  (set_Status torrent
     (mkTorrentStatus
        (if pathNew then ti_ContentPath qbTorrent else ContentPath st)
        (if addedNew then ti_AddedOn qbTorrent else AddedOn st)
        (if stateNew then ti_State qbTorrent else State st)
        (if sizeNew then ti_TotalSize qbTorrent else TotalSize st)
        (if nameNew then ti_Name qbTorrent else Name st)
        (if activeNew then ti_TimeActive qbTorrent else TimeActive st)
        (if leftNew then ti_AmountLeft qbTorrent else AmountLeft st)
        (if hashNew then ti_Hash qbTorrent else Hash st)
        (ClientConfigurationName st)
        (Conditions st)),
   hashNew || nameNew || stateNew || sizeNew || pathNew || addedNew || activeNew || leftNew).

Definition Reconcile (req : NamespacedName) : M (Result * option error) :=
  (* 1. fetch the full resource *)
  got <- r_Get_Torrent env req ;;
  match got with
  | inr err => ret (emptyResult, IgnoreNotFound err)
  | inl torrent =>
      (* 2. Handle deletion *)
      if negb (IsZeroPtr (om_DeletionTimestamp (t_Meta torrent))) then
        out <- handleDeletion torrent ;;
        ret (fst out)
      (* 3. Finalizer *)
      else if negb (controllerutil.ContainsFinalizer torrent TorrentFinalizer) then
        let torrent := controllerutil.AddFinalizer torrent TorrentFinalizer in
        err <- r_Update env torrent ;;
        match err with
        | Some err => ret (emptyResult, Some err)
        | None => ret (requeueAfter (1 * Second), None)
        end
      else
        (* 4. Resolve TCC and get qBittorrent client *)
        got <- getQBTClient torrent ;;
        let '(res, torrent) := got in
        match res with
        | inr err =>
            torrent <- setDegradedCondition torrent "ClientResolutionFailed" (Error err) ;;
            _ <- r_Status_Update env torrent ;;
            ret (requeueAfter (15 * Second), None)
        | inl qbtClient =>
            (* 5. Check if the torrent is already added in qBittorrent *)
            match GetTorrentHash (MagnetURI (t_Spec torrent)) with
            | inr err => ret (emptyResult, Some err)
            | inl hash =>
                info <- GetTorrentInfo env qbtClient hash ;;
                match info with
                | inr err =>
                    torrent <- setDegradedCondition torrent "FailedToGetTorrentInfo"
                                 (Error err) ;;
                    _ <- r_Status_Update env torrent ;;
                    ret (requeueAfter (10 * Second), None)
                | inl None =>
                    err <- AddTorrent env qbtClient (MagnetURI (t_Spec torrent)) ;;
                    match err with
                    | Some err =>
                        torrent <- setDegradedCondition torrent "FailedToAddTorrent"
                                     (Error err) ;;
                        _ <- r_Status_Update env torrent ;;
                        ret (requeueAfter (10 * Second), None)
                    | None =>
                        torrent <- setAvailableCondition torrent "TorrentAdded"
                                     "Torrent added to qBittorrent" ;;
                        _ <- r_Status_Update env torrent ;;
                        ret (requeueAfter (5 * Second), None)
                    end
                | inl (Some torrentInfo) =>
                    (* 6. If torrent already exists, update status *)
                    let '(torrent, updated) := updateTorrentStatus torrent torrentInfo in
                    failed <-
                      (if updated then r_Status_Update env torrent else ret None) ;;
                    match failed with
                    | Some err => ret (emptyResult, Some err)
                    | None =>
                        torrent <- setAvailableCondition torrent "TorrentActive"
                                     "Torrent is active on qBittorrent" ;;
                        _ <- r_Status_Update env torrent ;;
                        (* If success, reconcile every 15 seconds *)
                        ret (requeueAfter (15 * Second), None)
                    end
                end
            end
        end
  end.

End Reconciler.
End TorrentReconciler.

Module TorrentClientConfigurationReconciler.
Section Reconciler.

Context (env : Env).

Definition setAvailableCondition (tcc : TorrentClientConfiguration)
    (reason message : string) : M TorrentClientConfiguration :=
  now <- time_Now env ;;
  let condition := mkCondition TypeAvailableTCC ConditionTrue 0 now reason message in
  conditions <- meta.SetStatusCondition env (tcc_Conditions (tcc_Status tcc)) condition ;;
  let conditions := meta.RemoveStatusCondition conditions TypeDegradedTCC in
  ret (set_tcc_Status tcc (set_tcc_Conditions (tcc_Status tcc) conditions)).

Definition setDegradedCondition (tcc : TorrentClientConfiguration)
    (reason message : string) : M TorrentClientConfiguration :=
  now <- time_Now env ;;
  let condition := mkCondition TypeDegradedTCC ConditionTrue 0 now reason message in
  conditions <- meta.SetStatusCondition env (tcc_Conditions (tcc_Status tcc)) condition ;;
  let conditions := meta.RemoveStatusCondition conditions TypeAvailableTCC in
  ret (set_tcc_Status tcc (set_tcc_Conditions (tcc_Status tcc) conditions)).

(** The tail shared by the four degraded branches of [Reconcile]:
    [setDegradedCondition], [Connected = false], [LastChecked = &now],
    the status write (its error is only logged) and the re-queue. *)
Definition degraded (tcc : TorrentClientConfiguration) (checkInterval : Duration)
    (reason message : string) : M (Result * option error) :=
  tcc <- setDegradedCondition tcc reason message ;;
  let tcc := set_tcc_Status tcc (set_Connected (tcc_Status tcc) false) in
  now <- time_Now env ;;
  let tcc := set_tcc_Status tcc (set_LastChecked (tcc_Status tcc) (Some now)) in
  _ <- r_Status_Update_TCC env tcc ;;
  ret (requeueAfter checkInterval, None).

Definition Reconcile (req : NamespacedName) : M (Result * option error) :=
  (* 1. fetch the full resource *)
  got <- r_Get_TCC env req ;;
  match got with
  | inr err => ret (emptyResult, IgnoreNotFound err)
  | inl tcc =>
      (* 2. Parse check interval *)
      let checkInterval :=
        if negb (String.eqb (CheckInterval (tcc_Spec tcc)) "") then
          match ParseDuration env (CheckInterval (tcc_Spec tcc)) with
          | inr _ => 60 * Second
          | inl parsed => parsed
          end
        else 60 * Second in
      let url := URL (tcc_Spec tcc) in
      let secretName := sr_Name (CredentialsSecret (tcc_Spec tcc)) in
      (* 4. Validate the creds Secret exists and has required keys *)
      got <- r_Get_Secret env (mkNamespacedName (om_Namespace (tcc_Meta tcc)) secretName) ;;
      match got with
      | inr err =>
          degraded tcc checkInterval "SecretNotFound"
            ("Credentials secret " ++ fmt_q env secretName ++ " not found: " ++ Error err)
      | inl secret =>
          match s_Data secret !! "username", s_Data secret !! "password" with
          | Some usernameBytes, Some passwordBytes =>
              (* 5. Test connectivity to qBittorrent *)
              got <- qbittorrent.GetOrCreate env url usernameBytes passwordBytes ;;
              match got with
              | inr err =>
                  degraded tcc checkInterval "ClientCreationFailed"
                    ("Failed to create qBittorrent client for " ++ url ++ ": " ++ Error err)
              | inl qbtClient =>
                  (* 6. Health check towards qBittorrent server *)
                  err <- Ping env qbtClient ;;
                  match err with
                  | Some err =>
                      degraded tcc checkInterval "HealthCheckFailed"
                        ("qBittorrent health check failed at " ++ url ++ ": " ++ Error err)
                  | None =>
                      (* 7. If previous checks passed, TCC is available *)
                      tcc <- setAvailableCondition tcc "Connected"
                               ("Successfully connected to qBittorrent at " ++ url) ;;
                      let tcc := set_tcc_Status tcc (set_Connected (tcc_Status tcc) true) in
                      now <- time_Now env ;;
                      let tcc :=
                        set_tcc_Status tcc (set_LastChecked (tcc_Status tcc) (Some now)) in
                      err <- r_Status_Update_TCC env tcc ;;
                      match err with
                      | Some err => ret (emptyResult, Some err)
                      | None => ret (requeueAfter checkInterval, None)
                      end
                  end
              end
          | _, _ =>
              degraded tcc checkInterval "SecretInvalid"
                ("Credentials secret " ++ fmt_q env secretName
                   ++ " missing 'username' or 'password' key")
          end
      end
  end.

End Reconciler.
End TorrentClientConfigurationReconciler.

Module TorrentServerReconciler.
Section Reconciler.

Context (env : Env).

Definition setAvailableCondition (ts : TorrentServer) (reason message : string)
    : M TorrentServer :=
  now <- time_Now env ;;
  let condition := mkCondition TypeAvailableTorrentServer ConditionTrue 0 now reason message in
  conditions <- meta.SetStatusCondition env (ts_Conditions (ts_Status ts)) condition ;;
  let conditions := meta.RemoveStatusCondition conditions TypeDegradedTorrentServer in
  ret (set_ts_Conditions ts conditions).

Definition setDegradedCondition (ts : TorrentServer) (reason message : string)
    : M TorrentServer :=
  now <- time_Now env ;;
  let condition := mkCondition TypeDegradedTorrentServer ConditionTrue 0 now reason message in
  conditions <- meta.SetStatusCondition env (ts_Conditions (ts_Status ts)) condition ;;
  let conditions := meta.RemoveStatusCondition conditions TypeAvailableTorrentServer in
  ret (set_ts_Conditions ts conditions).

End Reconciler.
End TorrentServerReconciler.

(** ** Watch mappers (internal/controller) *)

(** [client.Object]: what a watch hands to a mapper, which tells the
    kinds apart with a type assertion. *)
Inductive Object : Type :=
| ObjTorrent (o : Torrent)
| ObjTorrentClientConfiguration (o : TorrentClientConfiguration)
| ObjTorrentServer (o : TorrentServer)
| ObjSecret (o : Secret).

(** [reconcile.Request] *)
Record Request : Type := mkRequest { rq_NamespacedName : NamespacedName }.

(** [findTorrentsForTCC]. [k_ListTorrent namespace] is what the API
    server answers to the listing of the work items of the namespace.
    The loop appends to [requests], which starts nil. *)
Definition findTorrentsForTCC (k_ListTorrent : string -> list Torrent + error)
    (obj : Object) : list Request :=
  match obj with
  | ObjTorrentClientConfiguration tcc =>
      match k_ListTorrent (om_Namespace (tcc_Meta tcc)) with
      | inr _ => []
      | inl items =>
          fold_left
            (fun requests torrent =>
               (* Requeue reconciliation request for torrents using the updated TCC *)
               if match ClientConfigRef (t_Spec torrent) with
                  | Some ref => String.eqb (lor_Name ref) (om_Name (tcc_Meta tcc))
                  | None => false
                  end
                  || match ClientConfigRef (t_Spec torrent) with
                     | None => String.eqb (ClientConfigurationName (t_Status torrent))
                                 (om_Name (tcc_Meta tcc))
                     | Some _ => false
                     end
               then
                 (requests ++
                    [mkRequest (mkNamespacedName (om_Namespace (t_Meta torrent))
                                  (om_Name (t_Meta torrent)))])%list
               else requests)
            items []
      end
  | _ => []
  end.

(** [findTCCForSecret], of the configuration reconciler; the listing is
    a call to the API server like those of the reconcilers. *)
Definition findTCCForSecret (env : Env) (obj : Object) : M (list Request) :=
  match obj with
  | ObjSecret secret =>
      tccList <- r_List_TCC env (om_Namespace (s_Meta secret)) ;;
      match tccList with
      | inr _ => ret []
      | inl items =>
          ret (fold_left
                 (fun requests tcc =>
                    if String.eqb (sr_Name (CredentialsSecret (tcc_Spec tcc)))
                         (om_Name (s_Meta secret))
                    then
                      (requests ++
                         [mkRequest (mkNamespacedName (om_Namespace (tcc_Meta tcc))
                                       (om_Name (tcc_Meta tcc)))])%list
                    else requests)
                 items [])
      end
  | _ => ret []
  end.

(** ** Base64 (encoding/base64) *)

Module base64.

(** The alphabets of [StdEncoding] and [URLEncoding]; both pad with ['=']. *)
Definition encodeStd : string :=
  "ABCDEFGHIJKLMNOPQRSTUVWXYZabcdefghijklmnopqrstuvwxyz0123456789+/".
Definition encodeURL : string :=
  "ABCDEFGHIJKLMNOPQRSTUVWXYZabcdefghijklmnopqrstuvwxyz0123456789-_".
Definition StdPadding : ascii := "="%char.

(** [enc.encode[i]] *)
Definition digit (alphabet : string) (i : N) : ascii :=
  match String.get (N.to_nat i) alphabet with
  | Some c => c
  | None => Ascii.zero
  end.

(** [enc.EncodeToString(src)]: three bytes make a 24-bit [val], which is
    written as four digits of six bits; a last group of one or two bytes
    is written as two or three digits and padded to four characters. *)
Fixpoint EncodeToString (alphabet : string) (src : list Byte.byte) : string :=
  match src with
  | [] => ""
  | [a] =>
      let val := N.shiftl (Byte.to_N a) 16 in
      String (digit alphabet (N.land (N.shiftr val 18) 63))
        (String (digit alphabet (N.land (N.shiftr val 12) 63))
           (String StdPadding (String StdPadding "")))
  | [a; b] =>
      let val := N.lor (N.shiftl (Byte.to_N a) 16) (N.shiftl (Byte.to_N b) 8) in
      String (digit alphabet (N.land (N.shiftr val 18) 63))
        (String (digit alphabet (N.land (N.shiftr val 12) 63))
           (String (digit alphabet (N.land (N.shiftr val 6) 63))
              (String StdPadding "")))
  | a :: b :: c :: rest =>
      let val := N.lor (N.lor (N.shiftl (Byte.to_N a) 16) (N.shiftl (Byte.to_N b) 8))
                   (Byte.to_N c) in
      String (digit alphabet (N.land (N.shiftr val 18) 63))
        (String (digit alphabet (N.land (N.shiftr val 12) 63))
           (String (digit alphabet (N.land (N.shiftr val 6) 63))
              (String (digit alphabet (N.land val 63))
                 (EncodeToString alphabet rest))))
  end.

End base64.

(** ** Random bytes (crypto/rand) *)

(** The random source of one call: whether [rand.Read] fails, and the
    byte it writes at each offset of the buffer when it does not. *)
Record RandSource : Type := mkRandSource {
  rs_err : option error;
  rs_byte : nat -> Byte.byte
}.

(** [b := make([]byte, n); rand.Read(b)]: the buffer, or the error. *)
Definition rand_Read (r : RandSource) (n : nat) : list Byte.byte + error :=
  match rs_err r with
  | Some err => inr err
  | None => inl (map (rs_byte r) (seq 0 n))
  end.

(** ** Generated credentials (internal/controller, the managed-server file) *)

(** [generateRandomPassword(length)] for [length >= 0]. *)
Definition generateRandomPassword (r : RandSource) (length : nat) : string + error :=
  match rand_Read r length with
  | inr err => inr err
  | inl bytes =>
      inl (GoStrings.take length (base64.EncodeToString base64.encodeURL bytes))
  end.

(** ** Password hashing (internal/qbittorrent) *)

Definition pbkdf2Iterations : Z := 100000.
Definition pbkdf2KeyLength : Z := 64.
Definition pbkdf2SaltLength : nat := 16.

(** [pbkdf2.Key(sha512.New, password, salt, iter, keyLength)], a library
    function: the derived key, or an error. *)
Definition KeyDerivation : Type :=
  string -> list Byte.byte -> Z -> Z -> list Byte.byte + error.

(** [HashPassword(password)] *)
Definition HashPassword (r : RandSource) (pbkdf2_Key : KeyDerivation) (password : string)
    : string + error :=
  match rand_Read r pbkdf2SaltLength with
  | inr err => inr (Errorf_w "failed to generate salt" err)
  | inl salt =>
      match pbkdf2_Key password salt pbkdf2Iterations pbkdf2KeyLength with
      | inr err => inr (Errorf_w "failed to derive key" err)
      | inl hash =>
          inl ("@ByteArray(" ++ base64.EncodeToString base64.encodeStd salt ++ ":"
                 ++ base64.EncodeToString base64.encodeStd hash ++ ")")
      end
  end.

(** ** The init step of a managed server (package configinit) *)

Module configinit.

(** The calls to the file system, in order. *)
Inductive FsEvent : Type :=
| FsStat (name : string)
| FsReadFile (name : string)
| FsMkdirAll (path : string) (perm : Z)
| FsWriteFile (name : string) (data : string) (perm : Z).

(** The operating system and the libraries under [Run]: [filepath.Join],
    [strings.TrimSpace], the four [os] functions, whose answers may depend
    on the calls made before, and what [HashPassword] draws on. *)
Record Os : Type := mkOs {
  Join : list string -> string;
  TrimSpace : string -> string;
  os_Stat : list FsEvent -> string -> option error;
  os_ReadFile : list FsEvent -> string -> string + error;
  os_MkdirAll : list FsEvent -> string -> Z -> option error;
  os_WriteFile : list FsEvent -> string -> string -> Z -> option error;
  os_rand : RandSource;
  os_pbkdf2_Key : KeyDerivation
}.

Definition defaultCredentialsPath : string := "/credentials".
Definition defaultConfigPath : string := "/config".

(** The file modes [0755] and [0644]. *)
Definition mode_0755 : Z := 493.
Definition mode_0644 : Z := 420.

Definition newline : string := String (ascii_of_nat 10) EmptyString.

(** [fmt.Sprintf] with the format of the configuration file. *)
Definition content (username hashedPassword : string) : string :=
  "[Preferences]" ++ newline
    ++ "WebUI\Username=" ++ username ++ newline
    ++ "WebUI\Password_PBKDF2=" ++ GoStrings.dquote ++ hashedPassword ++ GoStrings.dquote
    ++ newline.

(** [Run()], started after the calls [h]: the error returned and the
    calls made so far. What it prints is left out. *)
Definition Run (os : Os) (h : list FsEvent) : option error * list FsEvent :=
  let configFile := Join os [defaultConfigPath; "qBittorrent"; "qBittorrent.conf"] in
  (* Skip config-init if the config file already exists *)
  match os_Stat os h configFile with
  | None => (None, h ++ [FsStat configFile])%list
  | Some _ =>
      let h := (h ++ [FsStat configFile])%list in
      let usernameFile := Join os [defaultCredentialsPath; "username"] in
      match os_ReadFile os h usernameFile with
      | inr err => (Some (Errorf_w "failed to read username" err),
                    h ++ [FsReadFile usernameFile])%list
      | inl usernameBytes =>
          let h := (h ++ [FsReadFile usernameFile])%list in
          let passwordFile := Join os [defaultCredentialsPath; "password"] in
          match os_ReadFile os h passwordFile with
          | inr err => (Some (Errorf_w "failed to read password" err),
                        h ++ [FsReadFile passwordFile])%list
          | inl passwordBytes =>
              let h := (h ++ [FsReadFile passwordFile])%list in
              let username := TrimSpace os usernameBytes in
              let password := TrimSpace os passwordBytes in
              (* qBittorrent expects the password to be hashed using PBKDF2 *)
              match HashPassword (os_rand os) (os_pbkdf2_Key os) password with
              | inr err => (Some (Errorf_w "failed to hash password" err), h)
              | inl hashedPassword =>
                  let configDir := Join os [defaultConfigPath; "qBittorrent"] in
                  match os_MkdirAll os h configDir mode_0755 with
                  | Some err =>
                      (Some (Errorf_w "failed to create config directory" err),
                       h ++ [FsMkdirAll configDir mode_0755])%list
                  | None =>
                      let h := (h ++ [FsMkdirAll configDir mode_0755])%list in
                      let data := content username hashedPassword in
                      match os_WriteFile os h configFile data mode_0644 with
                      | Some err =>
                          (Some (Errorf_w "failed to write config file" err),
                           h ++ [FsWriteFile configFile data mode_0644])%list
                      | None => (None, h ++ [FsWriteFile configFile data mode_0644])%list
                      end
                  end
              end
          end
      end
  end.

End configinit.

(** ** Create-or-update of the generated credentials
    (internal/controller, the managed-server file; controllerutil) *)

(** The field of [TorrentServerSpec] that [ensureCredentialsSecret]
    reads; the record [TorrentServer] above leaves the spec out. *)
Record TorrentServerSpec : Type := mkTSSpec {
  ts_CredentialsSecret : option SecretReference
}.

(** [controllerutil.OperationResult] *)
Inductive OperationResult : Type :=
| OperationResultNone
| OperationResultCreated
| OperationResultUpdated.

(** A secret sent to the API server, by [Create] or by [Update]. *)
Inductive SecretWrite : Type :=
| SecretCreate (s : Secret)
| SecretUpdate (s : Secret).

(** What the API server answers to the two writes, given the calls made
    before; [controllerutil.SetControllerReference], a library function
    that returns the object with its owner set, or an error; and the
    random source of the password. *)
Record SecretWriter : Type := mkSecretWriter {
  k_CreateSecret : list Event -> Secret -> option error;
  k_UpdateSecret : list Event -> Secret -> option error;
  SetControllerReference : TorrentServer -> Secret -> Secret + error;
  sw_rand : RandSource
}.

#[global] Instance ObjectMeta_eq_dec : EqDecision ObjectMeta.
Proof. solve_decision. Defined.

#[global] Instance Secret_eq_dec : EqDecision Secret.
Proof. solve_decision. Defined.

#[global] Instance NamespacedName_eq_dec : EqDecision NamespacedName.
Proof. solve_decision. Defined.

(** [client.ObjectKeyFromObject] *)
Definition ObjectKeyFromObject (obj : Secret) : NamespacedName :=
  mkNamespacedName (om_Namespace (s_Meta obj)) (om_Name (s_Meta obj)).

Section EnsureCredentials.

Context (env : Env) (sw : SecretWriter).

(** [controllerutil.CreateOrUpdate(ctx, c, obj, f)] on a secret. [f]
    mutates the object behind the pointer: the one passed in when [Get]
    finds nothing, the one [Get] fetched otherwise. Returned are the
    result, the error, and the write that was sent, if one was. *)
Definition CreateOrUpdate (obj : Secret) (f : Secret -> Secret + error)
    : M ((OperationResult * option error) * option SecretWrite) :=
  let key := ObjectKeyFromObject obj in
  let mutate (obj : Secret) : Secret + error :=
    match f obj with
    | inr err => inr err
    | inl obj =>
        if decide (key = ObjectKeyFromObject obj) then inl obj
        else inr (errString "MutateFn cannot mutate object name and/or object namespace")
    end in
  got <- r_Get_Secret env key ;;
  match got with
  | inr err =>
      if negb (IsNotFound err) then ret ((OperationResultNone, Some err), None)
      else
        match mutate obj with
        | inr err => ret ((OperationResultNone, Some err), None)
        | inl obj =>
            fun w =>
              match k_CreateSecret sw (w_trace w) obj with
              | Some err => (((OperationResultNone, Some err), Some (SecretCreate obj)), w)
              | None => (((OperationResultCreated, None), Some (SecretCreate obj)), w)
              end
        end
  | inl existing =>
      match mutate existing with
      | inr err => ret ((OperationResultNone, Some err), None)
      | inl obj =>
          if decide (existing = obj) then ret ((OperationResultNone, None), None)
          else
            fun w =>
              match k_UpdateSecret sw (w_trace w) obj with
              | Some err => (((OperationResultNone, Some err), Some (SecretUpdate obj)), w)
              | None => (((OperationResultUpdated, None), Some (SecretUpdate obj)), w)
              end
      end
  end.

(** [ensureCredentialsSecret(ctx, ts)]: the name of the secret or the
    error, and the write that was sent, if one was. The labels of the
    new secret are not among the fields of [ObjectMeta] modelled. *)
Definition ensureCredentialsSecret (ts : TorrentServer) (spec : TorrentServerSpec)
    : M ((string + error) * option SecretWrite) :=
  let namespace := om_Namespace (ts_Meta ts) in
  (* Check if user specified ts.spec.credentialsSecret.name reference *)
  match ts_CredentialsSecret spec with
  | Some ref =>
      got <- r_Get_Secret env (mkNamespacedName namespace (sr_Name ref)) ;;
      match got with
      | inr err =>
          ret (inr (errWrap ("credentials secret " ++ fmt_q env (sr_Name ref)
                               ++ " not found: " ++ Error err) err), None)
      | inl secret =>
          match s_Data secret !! "username" with
          | None =>
              ret (inr (errString ("credentials secret " ++ fmt_q env (sr_Name ref)
                                     ++ " missing 'username' key")), None)
          | Some _ =>
              match s_Data secret !! "password" with
              | None =>
                  ret (inr (errString ("credentials secret " ++ fmt_q env (sr_Name ref)
                                         ++ " missing 'password' key")), None)
              | Some _ => ret (inl (sr_Name ref), None)
              end
          end
      end
  | None =>
      (* If user did not specify ts.spec.credentialsSecret.name reference,
         create a new secret with generated credentials *)
      let secretName := om_Name (ts_Meta ts) ++ "-credentials" in
      (* Check if secret already exists *)
      got <- r_Get_Secret env (mkNamespacedName namespace secretName) ;;
      match got with
      | inl _ =>
          (* Secret already exists, return its name *)
          ret (inl secretName, None)
      | inr _ =>
          (* Create new secret with generated credentials *)
          let secret := mkSecret (mkObjectMeta secretName namespace None []) ∅ in
          res <- CreateOrUpdate secret
                   (fun secret =>
                      match SetControllerReference sw ts secret with
                      | inr err => inr err
                      | inl secret =>
                          match generateRandomPassword (sw_rand sw) 16 with
                          | inr err => inr (Errorf_w "failed to generate password" err)
                          | inl password =>
                              inl (mkSecret (s_Meta secret)
                                     (<["username" := "admin"]>
                                        (<["password" := password]> ∅)))
                          end
                      end) ;;
          match res with
          | ((_, Some err), sent) =>
              ret (inr (Errorf_w "failed to create credentials secret" err), sent)
          | ((_, None), sent) => ret (inl secretName, sent)
          end
      end
  end.

End EnsureCredentials.

(** * Vocabulary of the statements *)

(** ** Descriptors *)

(** [h] holds no ['&']. *)
Definition no_amp (h : string) : Prop := forall a b, h <> a ++ "&" ++ b.

(** The marker starts at offset [String.length pre] and nowhere before. *)
Definition first_marker (uri pre post : string) : Prop :=
  uri = pre ++ "btih:" ++ post /\
  forall pre' post', uri = pre' ++ "btih:" ++ post' ->
                     (String.length pre <= String.length pre')%nat.

(** ** Conditions *)

(** The two kinds of condition-setting call, with their reason and message. *)
Inductive ConditionCall : Type :=
| SetAvailable (reason message : string)
| SetDegraded (reason message : string).

Definition call_kind (c : ConditionCall) : string :=
  match c with
  | SetAvailable _ _ => "Available"
  | SetDegraded _ _ => "Degraded"
  end.

Definition torrent_call (env : Env) (c : ConditionCall) (o : Torrent) : M Torrent :=
  match c with
  | SetAvailable r m => TorrentReconciler.setAvailableCondition env o r m
  | SetDegraded r m => TorrentReconciler.setDegradedCondition env o r m
  end.

Definition tcc_call (env : Env) (c : ConditionCall) (o : TorrentClientConfiguration)
    : M TorrentClientConfiguration :=
  match c with
  | SetAvailable r m => TorrentClientConfigurationReconciler.setAvailableCondition env o r m
  | SetDegraded r m => TorrentClientConfigurationReconciler.setDegradedCondition env o r m
  end.

Definition server_call (env : Env) (c : ConditionCall) (o : TorrentServer) : M TorrentServer :=
  match c with
  | SetAvailable r m => TorrentServerReconciler.setAvailableCondition env o r m
  | SetDegraded r m => TorrentServerReconciler.setDegradedCondition env o r m
  end.

Definition call_other (c : ConditionCall) : string :=
  match c with
  | SetAvailable _ _ => "Degraded"
  | SetDegraded _ _ => "Available"
  end.

Definition call_reason (c : ConditionCall) : string :=
  match c with SetAvailable r _ | SetDegraded r _ => r end.

Definition call_message (c : ConditionCall) : string :=
  match c with SetAvailable _ m | SetDegraded _ m => m end.

(** A sequence of calls on one object, in order. *)
Fixpoint run_calls {O : Type} (step : ConditionCall -> O -> M O)
    (calls : list ConditionCall) (o : O) : M O :=
  match calls with
  | [] => ret o
  | c :: rest => o' <- step c o ;; run_calls step rest o'
  end.

(** A condition of the kind is present, true, with the reason and message. *)
Definition has_condition (cs : list Condition) (kind reason message : string) : Prop :=
  exists c, meta.FindStatusCondition cs kind = Some c /\
            c_Status c = ConditionTrue /\ c_Reason c = reason /\ c_Message c = message.

(** No condition of the kind is present. *)
Definition lacks_condition (cs : list Condition) (kind : string) : Prop :=
  meta.FindStatusCondition cs kind = None.

(** The list holds exactly one condition, of the kind. *)
Definition only_condition (cs : list Condition) (kind : string) : Prop :=
  exists c, cs = [c] /\ c_Type c = kind.

(** Exactly one condition, of the kind; Available and Degraded do not
    stand side by side. *)
Definition exactly_one (cs : list Condition) (kind : string) : Prop :=
  List.length cs = 1%nat /\
  (forall c, In c cs -> c_Type c = kind) /\
  ~ (meta.FindStatusCondition cs "Available" <> None /\
     meta.FindStatusCondition cs "Degraded" <> None).

(** After the call: a true condition of the kind of the call is present,
    with its reason and message, and none of the other kind. *)
Definition kind_set (cs : list Condition) (c : ConditionCall) : Prop :=
  has_condition cs (call_kind c) (call_reason c) (call_message c) /\
  lacks_condition cs (call_other c).

(** The lists the setters produce from an empty one: empty, or one
    condition of kind Available or Degraded. *)
Definition tracked (cs : list Condition) : Prop :=
  cs = [] \/ only_condition cs "Available" \/ only_condition cs "Degraded".

(** What the six setters do to the condition list of their object. *)
Definition setExclusive (env : Env) (kind other reason message : string)
    (cs : list Condition) : M (list Condition) :=
  now <- time_Now env ;;
  cs' <- meta.SetStatusCondition env cs (mkCondition kind ConditionTrue 0 now reason message) ;;
  ret (meta.RemoveStatusCondition cs' other).

(** ** The pool *)

(** What can happen to the pool between two calls of a reconciler: a
    [GetOrCreate] by any reconciler, an armed timer going off, a sweep.
    ([Remove] has no caller besides the timers.) *)
Inductive PoolOp : Type :=
| OpGetOrCreate (url username password : string)
| OpFire (i : nat)
| OpCleanup.

Definition run_op (env : Env) (op : PoolOp) : M unit :=
  match op with
  | OpGetOrCreate url username password =>
      _ <- qbittorrent.GetOrCreate env url username password ;; ret tt
  | OpFire i => qbittorrent.fire env i
  | OpCleanup => qbittorrent.Cleanup env
  end.

Fixpoint run_ops (env : Env) (ops : list PoolOp) : M unit :=
  match ops with
  | [] => ret tt
  | op :: rest => _ <- run_op env op ;; run_ops env rest
  end.

(** The key misses: no entry under it, or an entry that records another
    hash. *)
Definition misses (h : string) (w : World) : Prop :=
  match clients (w_pool w) !! h with
  | None => True
  | Some e => e_credHash e <> h
  end.

(** The instant [t] lies in the TTL window opened at [t0]. *)
Definition in_window (t0 : Time) (ttl : Duration) (t : Time) : Prop :=
  t0 <= t /\ Sub t t0 <= ttl.

(** The pool still holds, under key [h], the session [c] last used at
    [t0] or later. *)
Definition held (h : string) (c : Client) (t0 : Time) (w : World) : Prop :=
  exists e, clients (w_pool w) !! h = Some e /\
            e_client e = c /\ e_credHash e = h /\ t0 <= e_lastUsed e.

(** ** Reconciles *)

(** A write to the API server. *)
Definition is_write (ev : Event) : bool :=
  match ev with
  | EvUpdateTorrent _ | EvStatusUpdateTorrent _ | EvStatusUpdateTCC _ => true
  | _ => false
  end.

(** [w'] continues [w]: the calls [evs] were added to the trace. *)
Definition extends (w w' : World) (evs : list Event) : Prop :=
  w_trace w' = (w_trace w ++ evs)%list.

(** The world after one more outgoing call. *)
Definition add_event (w : World) (ev : Event) : World :=
  mkWorld (w_tick w) (w_next w) (w_pool w) (w_timers w) (w_trace w ++ [ev])%list.

(** The work item is in its steady state: not being deleted, finalizer set. *)
Definition steady (t : Torrent) : Prop :=
  IsZeroPtr (om_DeletionTimestamp (t_Meta t)) = true /\
  controllerutil.ContainsFinalizer t TorrentFinalizer = true.

(** The configuration carries an Available condition with status true. *)
Definition available (tcc : TorrentClientConfiguration) : Prop :=
  exists c, meta.FindStatusCondition (tcc_Conditions (tcc_Status tcc)) TypeAvailableTCC = Some c
            /\ c_Status c = ConditionTrue.

(** Resolution for the work item, started in world [w], selects [tcc]:
    it is the one configuration the namespace lists and, when the work
    item names a configuration, the one that name fetches. *)
Definition selected (env : Env) (t : Torrent) (w : World)
    (tcc : TorrentClientConfiguration) : Prop :=
  let namespace := om_Namespace (t_Meta t) in
  match ClientConfigRef (t_Spec t) with
  | Some ref =>
      let key := mkNamespacedName namespace (lor_Name ref) in
      k_GetTCC env (w_trace w) key = inl tcc /\
      k_ListTCC env (w_trace w ++ [EvGetTCC key])%list namespace = inl [tcc]
  | None => k_ListTCC env (w_trace w) namespace = inl [tcc]
  end.

(** The end of a deletion that lets the object go: the finalizer is taken
    off [t], the object is written back, and the reconcile returns an
    empty result with whatever that write answered. *)
Definition finalizer_removed (env : Env) (t : Torrent) (w : World)
    (out : (Result * option error) * Torrent * World) : Prop :=
  let t' := controllerutil.RemoveFinalizer t TorrentFinalizer in
  out = ((emptyResult, k_UpdateTorrent env (w_trace w) t'), t',
         add_event w (EvUpdateTorrent t')) /\
  controllerutil.ContainsFinalizer t' TorrentFinalizer = false.

(** The three statements that end [handleDeletion] when the object may
    go: [RemoveFinalizer], [Update], and the return. *)
Definition finalizer_removed_run (env : Env) (torrent : Torrent)
    : M ((Result * option error) * Torrent) :=
  let torrent := controllerutil.RemoveFinalizer torrent TorrentFinalizer in
  err <- r_Update env torrent ;;
  match err with
  | Some err => ret ((emptyResult, Some err), torrent)
  | None => ret ((emptyResult, None), torrent)
  end.

(** The statements of [Reconcile] from step 4 on, which a work item in
    its steady state reaches. *)
Definition steady_run (env : Env) (torrent : Torrent) : M (Result * option error) :=
  got <- TorrentReconciler.getQBTClient env torrent ;;
  let '(res, torrent) := got in
  match res with
  | inr err =>
      torrent <- TorrentReconciler.setDegradedCondition env torrent
                   "ClientResolutionFailed" (Error err) ;;
      _ <- r_Status_Update env torrent ;;
      ret (requeueAfter (15 * Second), None)
  | inl qbtClient =>
      match GetTorrentHash (MagnetURI (t_Spec torrent)) with
      | inr err => ret (emptyResult, Some err)
      | inl hash =>
          info <- GetTorrentInfo env qbtClient hash ;;
          match info with
          | inr err =>
              torrent <- TorrentReconciler.setDegradedCondition env torrent
                           "FailedToGetTorrentInfo" (Error err) ;;
              _ <- r_Status_Update env torrent ;;
              ret (requeueAfter (10 * Second), None)
          | inl None =>
              err <- AddTorrent env qbtClient (MagnetURI (t_Spec torrent)) ;;
              match err with
              | Some err =>
                  torrent <- TorrentReconciler.setDegradedCondition env torrent
                               "FailedToAddTorrent" (Error err) ;;
                  _ <- r_Status_Update env torrent ;;
                  ret (requeueAfter (10 * Second), None)
              | None =>
                  torrent <- TorrentReconciler.setAvailableCondition env torrent
                               "TorrentAdded" "Torrent added to qBittorrent" ;;
                  _ <- r_Status_Update env torrent ;;
                  ret (requeueAfter (5 * Second), None)
              end
          | inl (Some torrentInfo) =>
              let '(torrent, updated) :=
                TorrentReconciler.updateTorrentStatus torrent torrentInfo in
              failed <- (if updated then r_Status_Update env torrent else ret None) ;;
              match failed with
              | Some err => ret (emptyResult, Some err)
              | None =>
                  torrent <- TorrentReconciler.setAvailableCondition env torrent
                               "TorrentActive" "Torrent is active on qBittorrent" ;;
                  _ <- r_Status_Update env torrent ;;
                  ret (requeueAfter (15 * Second), None)
              end
          end
      end
  end.

(** The end of a deletion that keeps the object: starting from [t1] in
    world [w2], a Degraded condition with reason FailedToDeleteTorrent is
    set and written to the status, a re-queue after ten seconds is
    returned with a nil error, and the finalizers are those of [t1]. *)
Definition delete_blocked (env : Env) (t1 : Torrent) (w2 : World) (err : error)
    (out : (Result * option error) * Torrent * World) : Prop :=
  exists t2 w3,
    TorrentReconciler.setDegradedCondition env t1 "FailedToDeleteTorrent" (Error err) w2
      = (t2, w3) /\
    out = ((requeueAfter (10 * Second), None), t2,
           add_event w3 (EvStatusUpdateTorrent t2)) /\
    w_trace w3 = w_trace w2 /\
    has_condition (Conditions (t_Status t2)) "Degraded" "FailedToDeleteTorrent" (Error err) /\
    lacks_condition (Conditions (t_Status t2)) "Available" /\
    om_Finalizers (t_Meta t2) = om_Finalizers (t_Meta t1).

(** The configuration object is reported degraded for the reason: not
    connected, a Degraded condition with the reason, no Available one. *)
Definition tcc_degraded (c : TorrentClientConfiguration) (reason : string) : Prop :=
  Connected (tcc_Status c) = false /\
  (exists message,
      has_condition (tcc_Conditions (tcc_Status c)) "Degraded" reason message) /\
  lacks_condition (tcc_Conditions (tcc_Status c)) "Available".

(** The configuration object is reported connected: an Available condition
    with reason Connected, no Degraded one. *)
Definition tcc_connected (c : TorrentClientConfiguration) : Prop :=
  Connected (tcc_Status c) = true /\
  (exists message,
      has_condition (tcc_Conditions (tcc_Status c)) "Available" "Connected" message) /\
  lacks_condition (tcc_Conditions (tcc_Status c)) "Degraded".

(** From [w] to [w'] the last call made is the status write of [c], no
    call before it is a write, and [c] carries as [LastChecked] the last
    clock reading taken, a reading of this reconcile. *)
Definition status_written (env : Env) (w w' : World) (c : TorrentClientConfiguration)
    : Prop :=
  exists evs n,
    extends w w' (evs ++ [EvStatusUpdateTCC c]) /\
    Forall (fun ev => is_write ev = false) evs /\
    w_tick w' = S n /\ (w_tick w <= n)%nat /\
    LastChecked (tcc_Status c) = Some (clock env n).

(** The two work items differ at most in the recorded configuration name. *)
Definition same_but_name (t t' : Torrent) : Prop :=
  t' = t \/ exists n, t' = set_Status t (set_ClientConfigurationName (t_Status t) n).

(** ** A concrete cluster, for the examples *)

Module Demo.

Definition url : string := "http://qbt:8080".

Definition availableNow : Condition :=
  mkCondition "Available" "True" 0 50 "Connected" "Successfully connected".

(** An available configuration object in namespace default. *)
Definition config (name : string) : TorrentClientConfiguration :=
  mkTCC (mkObjectMeta name "default" None [])
    (mkTCCSpec url (mkSecretReference "qbt-creds") "60s")
    (mkTCCStatus true (Some 50) "" [availableNow]).

Definition creds : Secret :=
  mkSecret (mkObjectMeta "qbt-creds" "default" None [])
    (<["username" := "admin"]> (<["password" := "adminadmin"]> ∅)).

(** A work item that carries its finalizer, with an optional explicit
    reference, a recorded hash and an optional deletion timestamp. *)
Definition item (ref : option string) (hash : string) (deleted : option Time) : Torrent :=
  mkTorrent
    (mkObjectMeta "big-buck-bunny" "default" deleted [TorrentFinalizer])
    (mkTorrentSpec "magnet:?xt=urn:btih:ABCD&dn=x"
       (option_map mkLocalObjectReference ref) None)
    (mkTorrentStatus "" 0 "" 0 "" 0 0 hash "" []).

Definition key (name : string) : NamespacedName := mkNamespacedName "default" name.

Definition notFound (name : string) : error := errStatus "NotFound" (name ++ " not found").

Fixpoint lookup_config (configs : list TorrentClientConfiguration) (name : string)
    : TorrentClientConfiguration + error :=
  match configs with
  | [] => inr (notFound name)
  | c :: rest =>
      if String.eqb (om_Name (tcc_Meta c)) name then inl c else lookup_config rest name
  end.

(** A cluster whose API server holds the work item, the configurations
    and the secret [creds], where every write succeeds, and whose remote
    engine answers a login and a delete as given and knows no torrent.
    The clock reads 100, 101, ...; the hash of the runtime is replaced
    by the identity. *)
Definition cluster (t : Torrent) (configs : list TorrentClientConfiguration)
    (login delete : option error) : Env :=
  mkEnv
    (fun n => 100 + Z.of_nat n)
    (fun s => s)
    GoStrings.quote
    (fun s => if String.eqb s "60s" then inl (60 * Second)
              else inr (errString "time: invalid duration"))
    (fun _ k => if String.eqb (nn_Name k) (om_Name (t_Meta t)) then inl t
                else inr (notFound (nn_Name k)))
    (fun _ k => lookup_config configs (nn_Name k))
    (fun _ _ => inl configs)
    (fun _ k => if String.eqb (nn_Name k) "qbt-creds" then inl creds
                else inr (notFound (nn_Name k)))
    (fun _ _ => None)
    (fun _ _ => None)
    (fun _ _ => None)
    (fun _ _ _ _ => login)
    (fun _ _ _ => inl None)
    (fun _ _ _ => None)
    (fun _ _ _ _ => delete)
    (fun _ _ => None).

(** A cluster with that work item and no configuration. *)
Definition quiet : Env := cluster (item None "" None) [] None None.

(** Objects that were never reconciled, and some setter calls. *)
Definition new_config : TorrentClientConfiguration :=
  mkTCC (mkObjectMeta "tcc-a" "default" None [])
    (mkTCCSpec url (mkSecretReference "qbt-creds") "60s")
    (mkTCCStatus false None "" []).
Definition new_server : TorrentServer :=
  mkTorrentServer (mkObjectMeta "server" "default" None [])
    (mkTSStatus "" "" "" "" 0 "" []).
Definition calls : list ConditionCall :=
  [SetDegraded "ClientResolutionFailed" "no configuration";
   SetAvailable "TorrentAdded" "added"].
Definition last : ConditionCall := SetDegraded "FailedToGetTorrentInfo" "timeout".

(** The same cluster with a remote engine that refuses every login. *)
Definition locked : Env :=
  cluster (item None "" None) [] (Some (errString "401 Unauthorized")) None.

(** Pool activity: a sweep, the first armed timer going off, a call for
    another user. *)
Definition activity : list PoolOp :=
  [OpCleanup; OpFire 0; OpGetOrCreate url "guest" "guest"].

(** A cluster with two available configurations and a work item that
    names the first of them. *)
Definition two_configs : Env :=
  cluster (item (Some "tcc-a") "" None) [config "tcc-a"; config "tcc-b"] None None.

(** A cluster with one configuration and a work item under deletion
    with a recorded hash, whose remote engine fails to delete. *)
Definition doomed : Torrent := item None "ABCD" (Some 7).
Definition failing_delete : Env :=
  cluster doomed [config "tcc-a"] None (Some (errString "500 Internal Server Error")).

(** A cluster with one configuration and a work item whose descriptor
    has no marker. *)
Definition unmarked : Torrent :=
  mkTorrent
    (mkObjectMeta "big-buck-bunny" "default" None [TorrentFinalizer])
    (mkTorrentSpec "magnet:?xt=urn:sha1:ABCD" None None)
    (mkTorrentStatus "" 0 "" 0 "" 0 0 "" "" []).
Definition one_config_unmarked : Env := cluster unmarked [config "tcc-a"] None None.

(** A cluster with one configuration, whose remote engine refuses the
    login. *)
Definition one_config_locked : Env :=
  cluster (item None "" None) [config "tcc-a"] (Some (errString "401 Unauthorized")) None.

(** A cluster with one configuration and a remote engine in order. *)
Definition one_config : Env := cluster (item None "" None) [config "tcc-a"] None None.

(** The request for the work item, and the process once it is loaded. *)
Definition request : NamespacedName := key "big-buck-bunny".
Definition loaded : World := mkWorld 0 0 (NewClientPool (300 * Second)) []
                               [EvGetTorrent request].

(** A fresh process: an empty pool with a TTL of five minutes. *)
Definition start : World := mkWorld 0 0 (NewClientPool (300 * Second)) [] [].

(** A process whose pool holds one session, last used at instant 100,
    with a TTL of 5 nanoseconds, and whose next clock reading is 105. *)
Definition idle_entry : poolEntry := mkPoolEntry (mkClient 0 url) "k" 100.
Definition idle_world : World :=
  mkWorld 5 1 (mkClientPool (<["k" := idle_entry]> ∅) 5) [] [].

End Demo.

(** * Vocabulary of the further properties *)

(** ** Work items *)

(** The observed fields of the work item are those the remote engine
    reports. *)
Definition observed (t : Torrent) (info : TorrentInfo) : Prop :=
  Hash (t_Status t) = ti_Hash info /\
  Name (t_Status t) = ti_Name info /\
  State (t_Status t) = ti_State info /\
  TotalSize (t_Status t) = ti_TotalSize info /\
  ContentPath (t_Status t) = ti_ContentPath info /\
  AddedOn (t_Status t) = ti_AddedOn info /\
  TimeActive (t_Status t) = ti_TimeActive info /\
  AmountLeft (t_Status t) = ti_AmountLeft info.

(** The end of a reconcile that reports a condition: from world [w0] a
    condition of the kind, with the reason and message, is set on [t] and
    none of the other kind is left; the object is written to the status,
    which is the one call made; a re-queue after [d] is returned with a
    nil error, whatever the write answered. *)
Definition condition_written (w0 : World) (t : Torrent)
    (kind other reason message : string) (d : Duration)
    (out : (Result * option error) * World) : Prop :=
  exists cs n,
    out = ((requeueAfter d, None),
           add_event (mkWorld n (w_next w0) (w_pool w0) (w_timers w0) (w_trace w0))
             (EvStatusUpdateTorrent (set_Status t (set_Conditions (t_Status t) cs)))) /\
    has_condition cs kind reason message /\ lacks_condition cs other /\
    (w_tick w0 < n)%nat.

(** A call of resolution: a read of the API server or a login. *)
Definition is_resolution (ev : Event) : bool :=
  match ev with
  | EvGetTCC _ | EvListTCC _ | EvGetSecret _ | EvLogin _ _ _ => true
  | _ => false
  end.

(** A call that removes a torrent from the remote engine, and one that
    looks a torrent up on it or hands it one. *)
Definition is_remote_delete (ev : Event) : bool :=
  match ev with
  | EvDeleteTorrent _ _ _ => true
  | _ => false
  end.

Definition is_remote_sync (ev : Event) : bool :=
  match ev with
  | EvGetTorrentInfo _ _ | EvAddTorrent _ _ => true
  | _ => false
  end.

(** A write of the object itself (metadata and spec), as opposed to a
    write of its status. *)
Definition is_update (ev : Event) : bool :=
  match ev with
  | EvUpdateTorrent _ => true
  | _ => false
  end.

(** The world in which resolution fetches the secret of the listed
    configuration: after the fetch of the explicit reference, if there is
    one, and the listing of the namespace. *)
Definition before_secret (t : Torrent) (w : World) : World :=
  let namespace := om_Namespace (t_Meta t) in
  add_event
    match ClientConfigRef (t_Spec t) with
    | Some ref => add_event w (EvGetTCC (mkNamespacedName namespace (lor_Name ref)))
    | None => w
    end
    (EvListTCC namespace).

(** ** Watches *)

(** The request that names an object. *)
Definition request_for (m : ObjectMeta) : Request :=
  mkRequest (mkNamespacedName (om_Namespace m) (om_Name m)).

(** The work item is bound to the configuration of the name: by its
    explicit reference when it has one, by its recorded configuration name
    otherwise. *)
Definition bound_to (name : string) (t : Torrent) : bool :=
  match ClientConfigRef (t_Spec t) with
  | Some ref => String.eqb (lor_Name ref) name
  | None => String.eqb (ClientConfigurationName (t_Status t)) name
  end.

(** The configuration object reads its credentials from the secret of
    the name. *)
Definition reads_secret (name : string) (tcc : TorrentClientConfiguration) : bool :=
  String.eqb (sr_Name (CredentialsSecret (tcc_Spec tcc))) name.

(** ** The pool *)

(** The pool is sound: every entry is stored under the hash it records
    and holds a handle [NewClient] has handed out, and no two keys hold
    the same handle. *)
Definition pool_sound (w : World) : Prop :=
  (forall k e, clients (w_pool w) !! k = Some e ->
               e_credHash e = k /\ (cl_ptr (e_client e) < w_next w)%nat) /\
  (forall k1 k2 e1 e2,
      clients (w_pool w) !! k1 = Some e1 -> clients (w_pool w) !! k2 = Some e2 ->
      cl_ptr (e_client e1) = cl_ptr (e_client e2) -> k1 = k2).

(** ** Configuration objects *)

(** The interval at which a configuration object is checked: its
    [CheckInterval] when that is set and parses, one minute otherwise. *)
Definition check_interval (env : Env) (tcc : TorrentClientConfiguration) : Duration :=
  if String.eqb (CheckInterval (tcc_Spec tcc)) "" then 60 * Second
  else match ParseDuration env (CheckInterval (tcc_Spec tcc)) with
       | inl parsed => parsed
       | inr _ => 60 * Second
       end.

(** The key under which the secret of a configuration object is fetched. *)
Definition secret_key (tcc : TorrentClientConfiguration) : NamespacedName :=
  mkNamespacedName (om_Namespace (tcc_Meta tcc))
    (sr_Name (CredentialsSecret (tcc_Spec tcc))).

(** The secret of the configuration object cannot be used: it cannot be
    fetched after the calls [h], or it lacks one of its two keys. *)
Definition secret_unusable (env : Env) (h : list Event) (tcc : TorrentClientConfiguration)
    : Prop :=
  match k_GetSecret env h (secret_key tcc) with
  | inr _ => True
  | inl secret => s_Data secret !! "username" = None \/ s_Data secret !! "password" = None
  end.

(** The secret of the configuration object is fetched after the calls
    [h] and holds the two values. *)
Definition secret_holds (env : Env) (h : list Event) (tcc : TorrentClientConfiguration)
    (username password : string) : Prop :=
  exists secret,
    k_GetSecret env h (secret_key tcc) = inl secret /\
    s_Data secret !! "username" = Some username /\
    s_Data secret !! "password" = Some password.

(** The outcome [out] of a reconcile started in [w]: the calls made are
    [first], [second] and the status write of an object reported degraded
    for the reason; pool, timers and pointer counter are as in [w]. *)
Definition tcc_degraded_as (reason : string) (out : (Result * option error) * World)
    (w : World) (first second : Event) : Prop :=
  exists written,
    w_trace (snd out) = (w_trace w ++ [first; second; EvStatusUpdateTCC written])%list /\
    tcc_degraded written reason /\
    w_pool (snd out) = w_pool w /\
    w_timers (snd out) = w_timers w /\
    w_next (snd out) = w_next w.

(** The text [sub] occurs in [s]. *)
Definition occurs (sub s : string) : Prop := exists pre post, s = pre ++ sub ++ post.

(** A login. *)
Definition is_login (ev : Event) : bool :=
  match ev with
  | EvLogin _ _ _ => true
  | _ => false
  end.

(** ** Generated and hashed passwords *)

(** A letter, a digit, '-' or '_': the characters that need no escaping
    in a URL. *)
Definition url_safe (c : ascii) : bool :=
  let n := nat_of_ascii c in
  ((65 <=? n)%nat && (n <=? 90)%nat) || ((97 <=? n)%nat && (n <=? 122)%nat)
  || ((48 <=? n)%nat && (n <=? 57)%nat) || (n =? 45)%nat || (n =? 95)%nat.

(** A character of the standard encoding: a letter, a digit, '+', '/',
    or the padding '='. *)
Definition std_char (c : ascii) : bool :=
  let n := nat_of_ascii c in
  ((65 <=? n)%nat && (n <=? 90)%nat) || ((97 <=? n)%nat && (n <=? 122)%nat)
  || ((48 <=? n)%nat && (n <=? 57)%nat) || (n =? 43)%nat || (n =? 47)%nat
  || (n =? 61)%nat.

(** Every character of the string passes the test. *)
Fixpoint all_chars (p : ascii -> bool) (s : string) : bool :=
  match s with
  | EmptyString => true
  | String c s' => p c && all_chars p s'
  end.

(** ** The init step *)

(** The configuration file of the managed server. *)
Definition config_file (os : configinit.Os) : string :=
  configinit.Join os [configinit.defaultConfigPath; "qBittorrent"; "qBittorrent.conf"].


(** A file that was written, or found, is found from then on. *)
Definition files_persist (os : configinit.Os) : Prop :=
  (forall h name data perm,
      configinit.os_WriteFile os h name data perm = None ->
      configinit.os_Stat os (h ++ [configinit.FsWriteFile name data perm])%list name = None) /\
  (forall h name,
      configinit.os_Stat os h name = None ->
      configinit.os_Stat os (h ++ [configinit.FsStat name])%list name = None).

(** ** Generated credentials *)

(** The secret a write sends. *)
Definition sent_secret (sent : SecretWrite) : Secret :=
  match sent with
  | SecretCreate s | SecretUpdate s => s
  end.

(** The key of the default credentials secret of a managed server. *)
Definition default_secret_key (ts : TorrentServer) : NamespacedName :=
  mkNamespacedName (om_Namespace (ts_Meta ts)) (om_Name (ts_Meta ts) ++ "-credentials").

(** The data of a generated secret: the username admin and the password. *)
Definition generated_data (password : string) : gmap string string :=
  <["username" := "admin"]> (<["password" := password]> ∅).

(** ** Further examples *)

Module Demo2.

(** A work item that was never reconciled, and a cluster that holds it
    with one configuration. *)
Definition fresh : Torrent :=
  mkTorrent
    (mkObjectMeta "big-buck-bunny" "default" None [])
    (mkTorrentSpec "magnet:?xt=urn:btih:ABCD&dn=x" None None)
    (mkTorrentStatus "" 0 "" 0 "" 0 0 "" "" []).
Definition fresh_cluster : Env := Demo.cluster fresh [Demo.config "tcc-a"] None None.

(** A process whose pool holds the session of the administrator, last
    used at instant 100, with a TTL of 5 nanoseconds, and whose next
    clock reading is 106. *)
Definition stale_entry : poolEntry :=
  mkPoolEntry (mkClient 0 Demo.url) "http://qbt:8080|admin|adminadmin" 100.
Definition stale_world : World :=
  mkWorld 6 1 (mkClientPool {[ "http://qbt:8080|admin|adminadmin" := stale_entry ]} 5) [] [].

(** A configuration object whose secret does not exist, in a cluster of
    its own. *)
Definition orphan : TorrentClientConfiguration :=
  mkTCC (mkObjectMeta "tcc-o" "default" None [])
    (mkTCCSpec Demo.url (mkSecretReference "gone") "60s")
    (mkTCCStatus false None "" []).
Definition orphaned : Env := Demo.cluster (Demo.item None "" None) [orphan] None None.

(** The process after a first login of the administrator. *)
Definition warm : World :=
  snd (qbittorrent.GetOrCreate Demo.one_config Demo.url "admin" "adminadmin" Demo.start).

(** A cluster whose secret holds no key. *)
Definition empty_secret : Secret :=
  mkSecret (mkObjectMeta "qbt-creds" "default" None []) ∅.
Definition keyless : Env :=
  mkEnv
    (fun n => 100 + Z.of_nat n)
    (fun s => s)
    GoStrings.quote
    (fun _ => inr (errString "time: invalid duration"))
    (fun _ _ => inl (Demo.item None "" None))
    (fun _ _ => inl (Demo.config "tcc-a"))
    (fun _ _ => inl [Demo.config "tcc-a"])
    (fun _ _ => inl empty_secret)
    (fun _ _ => None)
    (fun _ _ => None)
    (fun _ _ => None)
    (fun _ _ _ _ => Some (errString "401 Unauthorized"))
    (fun _ _ _ => inl None)
    (fun _ _ _ => None)
    (fun _ _ _ _ => None)
    (fun _ _ => None).

(** A managed server without a secret reference, a default secret that
    holds an old password, an API server that fails the first fetch of a
    secret and finds the secret from then on, and an owner reference
    that is always granted. *)
Definition server_spec : TorrentServerSpec := mkTSSpec None.
Definition old_secret : Secret :=
  mkSecret (mkObjectMeta "server-credentials" "default" None [])
    (generated_data "old-password-0000").
Definition flaky : Env :=
  mkEnv
    (fun n => 100 + Z.of_nat n)
    (fun s => s)
    GoStrings.quote
    (fun _ => inr (errString "time: invalid duration"))
    (fun _ _ => inl (Demo.item None "" None))
    (fun _ _ => inl (Demo.config "tcc-a"))
    (fun _ _ => inl [Demo.config "tcc-a"])
    (fun h _ => match h with
                | [] => inr (errString "context deadline exceeded")
                | _ => inl old_secret
                end)
    (fun _ _ => None)
    (fun _ _ => None)
    (fun _ _ => None)
    (fun _ _ _ _ => None)
    (fun _ _ _ => inl None)
    (fun _ _ _ => None)
    (fun _ _ _ _ => None)
    (fun _ _ => None).

(** A random source that fails, and one that writes the offset of each
    byte, modulo 256. *)
Definition broken_source : RandSource :=
  mkRandSource (Some (errString "entropy unavailable")) (fun _ => Byte.x00).
Definition counting_source : RandSource :=
  mkRandSource None
    (fun n => match Byte.of_nat (n mod 256) with Some b => b | None => Byte.x00 end).

(** A key derivation that returns sixty-four bytes, all of them the
    length of the password modulo 256. *)
Definition toy_kdf : KeyDerivation :=
  fun password _ _ keyLength =>
    inl (repeat (match Byte.of_nat (String.length password mod 256) with
                 | Some b => b
                 | None => Byte.x00
                 end) (Z.to_nat keyLength)).

(** An operating system whose files are those written so far, next to
    the two credential files; every directory can be made and every file
    written. *)
Definition written (h : list configinit.FsEvent) (name : string) : bool :=
  existsb (fun ev => match ev with
                     | configinit.FsWriteFile n _ _ => String.eqb n name
                     | _ => false
                     end) h.
Definition first_boot : configinit.Os :=
  configinit.mkOs
    (String.concat "/")
    (fun s => s)
    (fun h name => if written h name then None
                   else Some (errString "no such file or directory"))
    (fun _ name => if String.eqb name "/credentials/username" then inl "admin"
                   else if String.eqb name "/credentials/password" then inl "secretpass"
                   else inr (errString "no such file or directory"))
    (fun _ _ _ => None)
    (fun _ _ _ _ => None)
    counting_source
    toy_kdf.

(** Writes that succeed, an owner reference that is always granted. *)
Definition writer : SecretWriter :=
  mkSecretWriter (fun _ _ => None) (fun _ _ => None) (fun _ s => inl s) counting_source.

End Demo2.

(** * Properties *)

(** ** Facts about Go strings *)

(** [String.append] is never unfolded by [simpl]; [str_simpl] does the
    two computation steps of its definition, everywhere. *)
Ltac str_simpl :=
  repeat match goal with
    | |- context [String.append (String ?c ?s) ?t] =>
        change (String.append (String c s) t) with (String c (String.append s t))
    | |- context [String.append EmptyString ?t] =>
        change (String.append EmptyString t) with t
    | H : context [String.append (String ?c ?s) ?t] |- _ =>
        change (String.append (String c s) t) with (String c (String.append s t)) in H
    | H : context [String.append EmptyString ?t] |- _ =>
        change (String.append EmptyString t) with t in H
    end.

(** Projections out of explicit worlds and pools. *)
Ltac wsimpl :=
  cbn [fst snd ret clients ttl w_pool w_tick w_trace w_timers w_next set_clients set_timers]
    in *.

(** Case analysis on the innermost scrutinee of the goal: the answer of
    a collaborator, a field, a comparison. *)
Ltac case_step :=
  match goal with
  | |- context [match ?x with _ => _ end] =>
      lazymatch x with
      | context [match _ with _ => _ end] => fail
      | _ => destruct x eqn:?
      end
  end.

(** Case analysis on membership in an explicit list of calls. *)
Ltac in_cases H :=
  lazymatch type of H with
  | In _ (_ ++ _)%list => apply in_app_or in H; destruct H as [H|H]; in_cases H
  | In _ (_ :: _) => destruct H as [H|H]; [|in_cases H]
  | In _ [] => destruct H
  | _ => idtac
  end.

(** A status write is found in an explicit list of calls. *)
Ltac find_write :=
  solve [repeat first [left; reflexivity | apply in_or_app; right | right]].

Section StringFacts.

Import GoStrings.

Lemma append_nil_r (s : string) : s ++ "" = s.
Proof. induction s as [|c s IH]; str_simpl; [reflexivity | now rewrite IH]. Qed.

Lemma append_assoc (a b c : string) : (a ++ b) ++ c = a ++ (b ++ c).
Proof. induction a as [|x a IH]; str_simpl; [reflexivity | now rewrite IH]. Qed.

Lemma length_append (a b : string) :
  String.length (a ++ b) = (String.length a + String.length b)%nat.
Proof. induction a as [|x a IH]; str_simpl; simpl; [reflexivity | now rewrite IH]. Qed.

Lemma append_inj_length (a b a' b' : string) :
  a ++ b = a' ++ b' -> String.length a = String.length a' -> a = a' /\ b = b'.
Proof.
  revert a'. induction a as [|x a IH]; intros [|x' a'] H L; str_simpl; simpl in *;
    try discriminate.
  - auto.
  - injection H as -> H. injection L as L. destruct (IH _ H L) as [-> ->]. auto.
Qed.

Lemma HasPrefix_true (s p : string) :
  HasPrefix s p = true <-> exists post, s = p ++ post.
Proof.
  revert s. induction p as [|c p IH]; intros s; simpl.
  - split; [intros _; now exists s | reflexivity].
  - destruct s as [|d s].
    + split; [discriminate | intros [post H]; str_simpl; discriminate].
    + destruct (Ascii.eqb_spec c d) as [->|Hne].
      * rewrite IH. split; intros [post H]; exists post; str_simpl; congruence.
      * split; [discriminate | intros [post H]; str_simpl; congruence].
Qed.

Lemma Index_ge (s sub : string) : -1 <= Index s sub.
Proof.
  induction s as [|c s IH]; simpl.
  - destruct (HasPrefix "" sub); lia.
  - destruct (HasPrefix (String c s) sub); [lia|].
    destruct (Z.eqb_spec (Index s sub) (-1)); lia.
Qed.

(** [Index] finds nothing exactly when there is no occurrence. *)
Lemma Index_absent (s sub : string) :
  Index s sub = -1 -> forall pre post, s <> pre ++ sub ++ post.
Proof.
  induction s as [|c s IH]; simpl.
  - destruct (HasPrefix "" sub) eqn:P; [discriminate|].
    intros _ pre post H. destruct pre; str_simpl; [|discriminate].
    assert (HasPrefix "" sub = true) by (apply HasPrefix_true; eauto). congruence.
  - destruct (HasPrefix (String c s) sub) eqn:P; [discriminate|].
    destruct (Z.eqb_spec (Index s sub) (-1)) as [E|E].
    + intros _ pre post H. destruct pre as [|x pre]; str_simpl.
      * assert (HasPrefix (String c s) sub = true) by (apply HasPrefix_true; eauto).
        congruence.
      * injection H as _ H. exact (IH E _ _ H).
    + pose proof (Index_ge s sub). lia.
Qed.

(** Otherwise it returns the offset of the leftmost occurrence. *)
Lemma Index_found (s sub : string) :
  Index s sub <> -1 ->
  exists pre post,
    s = pre ++ sub ++ post /\ Index s sub = Z.of_nat (String.length pre) /\
    forall pre' post', s = pre' ++ sub ++ post' ->
                       (String.length pre <= String.length pre')%nat.
Proof.
  induction s as [|c s IH]; simpl.
  - destruct (HasPrefix "" sub) eqn:P; [|congruence].
    intros _. apply HasPrefix_true in P as [post P].
    exists "", post. str_simpl. simpl. repeat split; auto. intros; lia.
  - destruct (HasPrefix (String c s) sub) eqn:P.
    + intros _. apply HasPrefix_true in P as [post P].
      exists "", post. str_simpl. simpl. repeat split; auto. intros; lia.
    + destruct (Z.eqb_spec (Index s sub) (-1)) as [E|E]; [congruence|].
      intros _. destruct (IH E) as (pre & post & Hs & Hi & Hmin).
      exists (String c pre), post. str_simpl. simpl String.length. repeat split.
      * now rewrite Hs at 1.
      * rewrite Hi. lia.
      * intros [|x pre'] post' H; str_simpl.
        -- assert (HasPrefix (String c s) sub = true) by (apply HasPrefix_true; eauto).
           congruence.
        -- injection H as _ H. specialize (Hmin _ _ H). simpl. lia.
Qed.

Lemma drop_append (a b : string) : drop (String.length a) (a ++ b) = b.
Proof. induction a as [|x a IH]; str_simpl; simpl; [now destruct b | exact IH]. Qed.

Lemma take_append (a b : string) : take (String.length a) (a ++ b) = a.
Proof. induction a as [|x a IH]; str_simpl; simpl; [reflexivity | now rewrite IH]. Qed.

End StringFacts.

(** ** Identifier extraction *)

Section HashFacts.

Import GoStrings.

Lemma GetTorrentHash_no_marker (uri : string) :
  (forall pre post, uri <> pre ++ "btih:" ++ post) ->
  GetTorrentHash uri = inr (errString "'btih:' not found").
Proof.
  intros Habs. unfold GetTorrentHash.
  destruct (Z.eqb_spec (Index uri "btih:") (-1)) as [E|E]; [reflexivity|].
  destruct (Index_found _ _ E) as (pre & post & H & _). now destruct (Habs pre post).
Qed.

Lemma GetTorrentHash_at_marker (uri pre post : string) :
  first_marker uri pre post ->
  Index uri "btih:" = Z.of_nat (String.length pre) /\
  slice_from uri (Z.of_nat (String.length pre) + 5) = post /\
  len uri = Z.of_nat (String.length pre) + 5 + Z.of_nat (String.length post).
Proof.
  intros [Huri Hmin].
  assert (E : Index uri "btih:" <> -1).
  { intros E. exact (Index_absent _ _ E _ _ Huri). }
  destruct (Index_found _ _ E) as (pre' & post' & H' & Hi & Hmin').
  pose proof (Hmin _ _ H') as L1. pose proof (Hmin' _ _ Huri) as L2.
  assert (L : String.length pre' = String.length pre) by lia.
  split; [rewrite Hi, L; reflexivity|]. split.
  - unfold slice_from. rewrite Huri.
    replace (Z.to_nat (Z.of_nat (String.length pre) + 5))
      with (String.length (pre ++ "btih:")) by (rewrite length_append; simpl; lia).
    rewrite <- append_assoc. apply drop_append.
  - unfold len. rewrite Huri, !length_append. simpl. lia.
Qed.

Lemma GetTorrentHash_nothing_after (uri pre : string) :
  first_marker uri pre "" ->
  GetTorrentHash uri = inr (errString "no hash after 'btih:'").
Proof.
  intros H. destruct (GetTorrentHash_at_marker _ _ _ H) as (Hi & _ & Hl).
  unfold GetTorrentHash. cbv zeta. rewrite Hi, Hl. simpl String.length.
  destruct (Z.eqb_spec (Z.of_nat (String.length pre)) (-1)); [lia|].
  destruct (Z.geb_spec (Z.of_nat (String.length pre) + 5)
              (Z.of_nat (String.length pre) + 5 + Z.of_nat 0)); [reflexivity | lia].
Qed.

Lemma GetTorrentHash_after (uri pre post : string) :
  first_marker uri pre post -> post <> "" ->
  exists h, GetTorrentHash uri = inl h /\ no_amp h /\
            (post = h \/ exists rest, post = h ++ "&" ++ rest).
Proof.
  intros H Hne. destruct (GetTorrentHash_at_marker _ _ _ H) as (Hi & Hs & Hl).
  unfold GetTorrentHash. cbv zeta.
  change (slice uri ?lo ?hi) with (take (Z.to_nat (hi - lo)) (slice_from uri lo)).
  rewrite Hi, Hl, Hs.
  destruct (Z.eqb_spec (Z.of_nat (String.length pre)) (-1)); [lia|].
  destruct (Z.geb_spec (Z.of_nat (String.length pre) + 5)
              (Z.of_nat (String.length pre) + 5 + Z.of_nat (String.length post)))
    as [G|G].
  { destruct post; [congruence | simpl in G; lia]. }
  destruct (Z.eqb_spec (Index post "&") (-1)) as [E|E].
  - exists post. split; [reflexivity|]. split; [|now left].
    intros a b. exact (Index_absent _ _ E a b).
  - destruct (Index_found _ _ E) as (a & b & Hp & Ha & Hmin).
    exists a. split; [|split].
    + rewrite Ha.
      replace (Z.to_nat (Z.of_nat (String.length pre) + 5 + Z.of_nat (String.length a)
                         - (Z.of_nat (String.length pre) + 5)))
        with (String.length a) by lia.
      rewrite Hp at 1. now rewrite take_append.
    + intros x y Hxy.
      assert (Hp' : post = x ++ "&" ++ (y ++ "&" ++ b)).
      { rewrite Hp at 1. rewrite Hxy. now rewrite !append_assoc. }
      specialize (Hmin _ _ Hp'). rewrite Hxy, !length_append in Hmin. simpl in Hmin. lia.
    + right. now exists b.
Qed.

End HashFacts.

(** ** The condition tracker *)

Section ConditionFacts.

Import meta.
Context (env : Env).

Lemma Find_app_new (cs : list Condition) (c : Condition) :
  FindStatusCondition cs (c_Type c) = None ->
  FindStatusCondition (cs ++ [c])%list (c_Type c) = Some c.
Proof.
  induction cs as [|x cs IH]; simpl.
  - now rewrite String.eqb_refl.
  - destruct (String.eqb (c_Type x) (c_Type c)); [discriminate | exact IH].
Qed.

Lemma Find_store (cs : list Condition) (ty : string) (e new : Condition) :
  FindStatusCondition cs ty = Some e -> c_Type new = ty ->
  FindStatusCondition (store cs ty new) ty = Some new.
Proof.
  intros H T. induction cs as [|x cs IH]; simpl in *; [discriminate|].
  destruct (String.eqb (c_Type x) ty) eqn:E; simpl.
  - now rewrite T, String.eqb_refl.
  - rewrite E. auto.
Qed.

Lemma Find_type (cs : list Condition) (ty : string) (e : Condition) :
  FindStatusCondition cs ty = Some e -> c_Type e = ty.
Proof.
  induction cs as [|x cs IH]; simpl; [discriminate|].
  destruct (String.eqb_spec (c_Type x) ty); [congruence | exact IH].
Qed.

Lemma Find_Remove_other (cs : list Condition) (ty other : string) :
  ty <> other ->
  FindStatusCondition (RemoveStatusCondition cs other) ty = FindStatusCondition cs ty.
Proof.
  intros Hne. induction cs as [|x cs IH]; simpl; [reflexivity|].
  destruct (String.eqb_spec (c_Type x) other) as [E|E]; simpl.
  - destruct (String.eqb_spec (c_Type x) ty); [congruence | exact IH].
  - now rewrite IH.
Qed.

Lemma Find_Remove_same (cs : list Condition) (other : string) :
  FindStatusCondition (RemoveStatusCondition cs other) other = None.
Proof.
  induction cs as [|x cs IH]; simpl; [reflexivity|].
  destruct (String.eqb (c_Type x) other) eqn:E; simpl; [exact IH | now rewrite E].
Qed.

(** What [SetStatusCondition] returns: the new condition appended, or
    the first condition of its type overwritten; in both cases with the
    status, reason and message of the new condition. *)
Lemma SetStatusCondition_spec (cs : list Condition) (new : Condition) (w : World) :
  exists t,
    let c := mkCondition (c_Type new) (c_Status new) (c_ObservedGeneration new) t
               (c_Reason new) (c_Message new) in
    fst (SetStatusCondition env cs new w) =
      match FindStatusCondition cs (c_Type new) with
      | None => (cs ++ [c])%list
      | Some _ => store cs (c_Type new) c
      end.
Proof.
  unfold SetStatusCondition.
  destruct (FindStatusCondition cs (c_Type new)) as [e|] eqn:F.
  - pose proof (Find_type _ _ _ F) as T.
    unfold bind, ret.
    destruct (String.eqb_spec (c_Status e) (c_Status new)) as [S|S];
      destruct (String.eqb_spec (c_Reason e) (c_Reason new)) as [R|R];
      destruct (String.eqb_spec (c_Message e) (c_Message new)) as [Ms|Ms];
      destruct (Z.eqb_spec (c_ObservedGeneration e) (c_ObservedGeneration new)) as [G|G];
      simpl; try destruct (IsZero (c_LastTransitionTime new)); simpl;
      eexists; rewrite ?T, ?S, ?R, ?Ms, ?G; reflexivity.
  - unfold bind, ret.
    destruct (IsZero (c_LastTransitionTime new)); simpl; eexists; reflexivity.
Qed.

(** After a setter, whatever the list was: the kind set is present with
    the reason given, and the other kind is absent. *)
Lemma setExclusive_present (kind other reason message : string)
    (cs : list Condition) (w : World) :
  kind <> other ->
  has_condition (fst (setExclusive env kind other reason message cs w)) kind reason message /\
  lacks_condition (fst (setExclusive env kind other reason message cs w)) other.
Proof.
  intros Hne. unfold setExclusive, bind, ret, time_Now.
  match goal with
  | |- context [SetStatusCondition env cs ?c ?w'] =>
      destruct (SetStatusCondition_spec cs c w') as [t Ht];
      destruct (SetStatusCondition env cs c w') as [cs' w''] eqn:E
  end.
  simpl in Ht. simpl. split.
  - unfold has_condition. rewrite Find_Remove_other by exact Hne.
    exists (mkCondition kind ConditionTrue 0 t reason message).
    split; [|repeat split; reflexivity]. subst cs'.
    destruct (FindStatusCondition cs kind) eqn:F.
    + eapply (Find_store cs kind); [exact F | reflexivity].
    + apply (Find_app_new cs (mkCondition kind ConditionTrue 0 t reason message)). exact F.
  - apply Find_Remove_same.
Qed.

(** On a list that is empty or holds one Available or Degraded
    condition, a setter leaves exactly one condition, of its kind. *)
Lemma setExclusive_only (kind other reason message : string)
    (cs : list Condition) (w : World) :
  kind <> other ->
  cs = [] \/ only_condition cs kind \/ only_condition cs other ->
  only_condition (fst (setExclusive env kind other reason message cs w)) kind.
Proof.
  intros Hne Hcs. unfold setExclusive, bind, ret, time_Now.
  match goal with
  | |- context [SetStatusCondition env cs ?c ?w'] =>
      destruct (SetStatusCondition_spec cs c w') as [t Ht];
      destruct (SetStatusCondition env cs c w') as [cs' w''] eqn:E
  end.
  simpl in Ht. simpl. subst cs'.
  assert (Hko : String.eqb kind other = false) by now apply String.eqb_neq.
  destruct Hcs as [->|[(c & -> & T)|(c & -> & T)]]; simpl.
  - rewrite Hko. simpl. eexists; split; reflexivity.
  - rewrite T, String.eqb_refl. simpl. rewrite Hko. simpl.
    eexists; split; reflexivity.
  - rewrite T. rewrite String.eqb_sym, Hko. simpl.
    rewrite T, String.eqb_refl, Hko. simpl. eexists; split; reflexivity.
Qed.

End ConditionFacts.

Section CallFacts.

Context (env : Env).

Lemma call_kinds_differ (c : ConditionCall) : call_kind c <> call_other c.
Proof. destruct c; discriminate. Qed.

Lemma torrent_call_conditions (c : ConditionCall) (o : Torrent) (w : World) :
  Conditions (t_Status (fst (torrent_call env c o w))) =
  fst (setExclusive env (call_kind c) (call_other c) (call_reason c) (call_message c)
         (Conditions (t_Status o)) w)
  /\ snd (torrent_call env c o w) =
     snd (setExclusive env (call_kind c) (call_other c) (call_reason c) (call_message c)
            (Conditions (t_Status o)) w).
Proof.
  destruct c; simpl;
    unfold TorrentReconciler.setAvailableCondition, TorrentReconciler.setDegradedCondition,
      setExclusive, bind, ret, time_Now, TypeAvailableTorrent, TypeDegradedTorrent,
      TypeAvailableTCC, TypeDegradedTCC, TypeAvailableTorrentServer,
      TypeDegradedTorrentServer;
    match goal with
    | |- context [meta.SetStatusCondition env ?cs ?c ?w'] =>
        destruct (meta.SetStatusCondition env cs c w')
    end; split; reflexivity.
Qed.

Lemma tcc_call_conditions (c : ConditionCall) (o : TorrentClientConfiguration) (w : World) :
  tcc_Conditions (tcc_Status (fst (tcc_call env c o w))) =
  fst (setExclusive env (call_kind c) (call_other c) (call_reason c) (call_message c)
         (tcc_Conditions (tcc_Status o)) w)
  /\ snd (tcc_call env c o w) =
     snd (setExclusive env (call_kind c) (call_other c) (call_reason c) (call_message c)
            (tcc_Conditions (tcc_Status o)) w).
Proof.
  destruct c; simpl;
    unfold TorrentClientConfigurationReconciler.setAvailableCondition,
      TorrentClientConfigurationReconciler.setDegradedCondition,
      setExclusive, bind, ret, time_Now, TypeAvailableTorrent, TypeDegradedTorrent,
      TypeAvailableTCC, TypeDegradedTCC, TypeAvailableTorrentServer,
      TypeDegradedTorrentServer;
    match goal with
    | |- context [meta.SetStatusCondition env ?cs ?c ?w'] =>
        destruct (meta.SetStatusCondition env cs c w')
    end; split; reflexivity.
Qed.

Lemma server_call_conditions (c : ConditionCall) (o : TorrentServer) (w : World) :
  ts_Conditions (ts_Status (fst (server_call env c o w))) =
  fst (setExclusive env (call_kind c) (call_other c) (call_reason c) (call_message c)
         (ts_Conditions (ts_Status o)) w)
  /\ snd (server_call env c o w) =
     snd (setExclusive env (call_kind c) (call_other c) (call_reason c) (call_message c)
            (ts_Conditions (ts_Status o)) w).
Proof.
  destruct c; simpl;
    unfold TorrentServerReconciler.setAvailableCondition,
      TorrentServerReconciler.setDegradedCondition,
      setExclusive, bind, ret, time_Now, TypeAvailableTorrent, TypeDegradedTorrent,
      TypeAvailableTCC, TypeDegradedTCC, TypeAvailableTorrentServer,
      TypeDegradedTorrentServer;
    match goal with
    | |- context [meta.SetStatusCondition env ?cs ?c ?w'] =>
        destruct (meta.SetStatusCondition env cs c w')
    end; split; reflexivity.
Qed.

Lemma only_tracked (cs : list Condition) (c : ConditionCall) :
  only_condition cs (call_kind c) -> tracked cs.
Proof. destruct c; unfold tracked; auto. Qed.

Lemma tracked_cases (cs : list Condition) (c : ConditionCall) :
  tracked cs ->
  cs = [] \/ only_condition cs (call_kind c) \/ only_condition cs (call_other c).
Proof. destruct c; unfold tracked; simpl; tauto. Qed.

Lemma only_exactly_one (cs : list Condition) (c : ConditionCall) :
  only_condition cs (call_kind c) -> exactly_one cs (call_kind c).
Proof.
  intros (x & -> & T). split; [reflexivity|]. split.
  - intros y [<-|[]]. exact T.
  - simpl. rewrite T. destruct c; simpl; intros [A B]; congruence.
Qed.

Section Generic.

Context {O : Type} (conds : O -> list Condition) (step : ConditionCall -> O -> M O).
Hypothesis step_conditions : forall c o w,
  conds (fst (step c o w)) =
  fst (setExclusive env (call_kind c) (call_other c) (call_reason c) (call_message c)
         (conds o) w).

Lemma step_only (c : ConditionCall) (o : O) (w : World) :
  tracked (conds o) -> only_condition (conds (fst (step c o w))) (call_kind c).
Proof.
  intros T. rewrite step_conditions.
  apply setExclusive_only; [apply call_kinds_differ | now apply tracked_cases].
Qed.

Lemma run_calls_tracked (calls : list ConditionCall) (o : O) (w : World) :
  tracked (conds o) -> tracked (conds (fst (run_calls step calls o w))).
Proof.
  revert o w. induction calls as [|c calls IH]; intros o w T; simpl; [exact T|].
  unfold bind. pose proof (step_only c o w T) as S.
  destruct (step c o w) as [o' w']. simpl in S.
  apply IH. exact (only_tracked _ _ S).
Qed.

Lemma run_calls_app (xs ys : list ConditionCall) (o : O) (w : World) :
  run_calls step (xs ++ ys)%list o w =
  run_calls step ys (fst (run_calls step xs o w)) (snd (run_calls step xs o w)).
Proof.
  revert o w. induction xs as [|c xs IH]; intros o w; simpl; [reflexivity|].
  unfold bind. destruct (step c o w) as [o' w']. apply IH.
Qed.

Lemma run_calls_exactly_one (calls : list ConditionCall) (c : ConditionCall)
    (o : O) (w : World) :
  conds o = [] ->
  exactly_one (conds (fst (run_calls step (calls ++ [c])%list o w))) (call_kind c).
Proof.
  intros E. rewrite run_calls_app. simpl. unfold bind.
  assert (T : tracked (conds (fst (run_calls step calls o w)))).
  { apply run_calls_tracked. left. exact E. }
  pose proof (step_only c _ (snd (run_calls step calls o w)) T) as S.
  destruct (step c _ _) as [o' w']. simpl in *.
  now apply only_exactly_one.
Qed.

End Generic.

End CallFacts.

(** ** The session pool *)

Section PoolFacts.

Import qbittorrent.
Context (env : Env).

Lemma Sub_mono_l (t t' u : Time) : t <= t' -> Sub t u <= Sub t' u.
Proof.
  intros H. unfold Sub, minDuration, maxDuration.
  repeat match goal with |- context [?a <? ?b] => destruct (Z.ltb_spec a b) end; lia.
Qed.

Lemma Sub_anti_r (t u u' : Time) : u <= u' -> Sub t u' <= Sub t u.
Proof.
  intros H. unfold Sub, minDuration, maxDuration.
  repeat match goal with |- context [?a <? ?b] => destruct (Z.ltb_spec a b) end; lia.
Qed.

(** The hit path. *)
Lemma GetOrCreate_hit (url username password : string) (w : World) (e : poolEntry) :
  clients (w_pool w) !! hashCredentials env url username password = Some e ->
  e_credHash e = hashCredentials env url username password ->
  GetOrCreate env url username password w =
    (inl (e_client e),
     mkWorld (S (w_tick w)) (w_next w)
       (mkClientPool
          (<[hashCredentials env url username password :=
               mkPoolEntry (e_client e) (e_credHash e) (clock env (w_tick w))]>
             (clients (w_pool w)))
          (ttl (w_pool w)))
       (w_timers w ++ [hashCredentials env url username password])
       (w_trace w)).
Proof.
  intros L C. unfold GetOrCreate. rewrite L, C, String.eqb_refl. reflexivity.
Qed.

Lemma GetOrCreate_miss (url username password : string) (w : World) :
  misses (hashCredentials env url username password) w ->
  GetOrCreate env url username password w =
    let h := hashCredentials env url username password in
    let c := mkClient (w_next w) url in
    let tr := (w_trace w ++ [EvLogin c username password])%list in
    match q_Login env (w_trace w) c username password with
    | Some err =>
        (inr (errWrap ("failed to login for credentials[" ++ username ++ ", "
                         ++ password ++ "] url[" ++ url ++ "]: " ++ Error err) err),
         mkWorld (w_tick w) (S (w_next w)) (w_pool w) (w_timers w) tr)
    | None =>
        (inl c,
         mkWorld (S (w_tick w)) (S (w_next w))
           (mkClientPool
              (<[h := mkPoolEntry c h (clock env (w_tick w))]> (clients (w_pool w)))
              (ttl (w_pool w)))
           (w_timers w ++ [h]) tr)
    end.
Proof.
  unfold misses, GetOrCreate. intros Hm.
  destruct (clients (w_pool w) !! hashCredentials env url username password) as [e|].
  - apply String.eqb_neq in Hm. rewrite Hm.
    unfold bind, NewClient, Login, call, ret. simpl.
    destruct (q_Login env (w_trace w) _ username password); reflexivity.
  - unfold bind, NewClient, Login, call, ret. simpl.
    destruct (q_Login env (w_trace w) _ username password); reflexivity.
Qed.

Lemma hit_or_miss (h : string) (w : World) :
  (exists e, clients (w_pool w) !! h = Some e /\ e_credHash e = h) \/ misses h w.
Proof.
  unfold misses. destruct (clients (w_pool w) !! h) as [e|]; [|now right].
  destruct (String.eqb_spec (e_credHash e) h); [left; eauto | now right].
Qed.

(** What a sweep leaves under each key. *)
Lemma Cleanup_lookup (w : World) (k : string) :
  clients (w_pool (snd (Cleanup env w))) !! k =
  match clients (w_pool w) !! k with
  | Some e =>
      if Sub (clock env (w_tick w)) (e_lastUsed e) >? ttl (w_pool w) then None else Some e
  | None => None
  end.
Proof.
  unfold Cleanup, bind, time_Now. simpl.
  set (now := clock env (w_tick w)). set (d := ttl (w_pool w)).
  set (f := fun (key : string) (entry : poolEntry) (m : gmap string poolEntry) =>
              if Sub now (e_lastUsed entry) >? d then delete key m else m).
  set (P := fun (acc r m : gmap string poolEntry) =>
              forall j, r !! j = match m !! j with
                                 | Some e => if Sub now (e_lastUsed e) >? d
                                             then None else acc !! j
                                 | None => acc !! j
                                 end).
  enough (G : forall acc, P acc (map_fold f acc (clients (w_pool w))) (clients (w_pool w))).
  { rewrite (G (clients (w_pool w)) k).
    destruct (clients (w_pool w) !! k); reflexivity. }
  intros acc. apply (map_fold_weak_ind (P acc) f acc); unfold P.
  - intros j. now rewrite lookup_empty.
  - intros i x m r Hi IH j. unfold f at 1.
    destruct (decide (i = j)) as [->|Hne].
    + rewrite lookup_insert_eq.
      destruct (Sub now (e_lastUsed x) >? d).
      * apply lookup_delete_eq.
      * rewrite IH, Hi. reflexivity.
    + rewrite lookup_insert_ne by exact Hne.
      destruct (Sub now (e_lastUsed x) >? d).
      * rewrite lookup_delete_ne by exact Hne. apply IH.
      * apply IH.
Qed.

Lemma Cleanup_frame (w : World) :
  ttl (w_pool (snd (Cleanup env w))) = ttl (w_pool w) /\
  w_tick (snd (Cleanup env w)) = S (w_tick w) /\
  w_trace (snd (Cleanup env w)) = w_trace w.
Proof. unfold Cleanup, bind, time_Now. simpl. auto. Qed.

End PoolFacts.

Section PoolSteps.

Import qbittorrent.
Context (env : Env).

Lemma fire_cases (i : nat) (w : World) :
  (snd (fire env i w) = w) \/
  (exists k, w_timers w !! i = Some k /\
     ((clients (w_pool w) !! k = None /\
       snd (fire env i w) = set_timers w (delete i (w_timers w))) \/
      (exists e, clients (w_pool w) !! k = Some e /\
         snd (fire env i w) =
           mkWorld (S (w_tick w)) (w_next w)
             (if Sub (clock env (w_tick w)) (e_lastUsed e) >? ttl (w_pool w)
              then mkClientPool (delete k (clients (w_pool w))) (ttl (w_pool w))
              else w_pool w)
             (delete i (w_timers w)) (w_trace w)))).
Proof.
  unfold fire. destruct (w_timers w !! i) as [k|]; [|now left].
  right. exists k. split; [reflexivity|].
  unfold scheduleRemove_fired. simpl.
  destruct (clients (w_pool w) !! k) as [e|]; [right | left; auto].
  exists e. split; [reflexivity|].
  unfold bind, time_Now, Remove, ret, set_clients. simpl.
  destruct (Sub (clock env (w_tick w)) (e_lastUsed e) >? ttl (w_pool w)); reflexivity.
Qed.

Lemma run_op_frame (op : PoolOp) (w : World) :
  (w_tick w <= w_tick (snd (run_op env op w)))%nat /\
  ttl (w_pool (snd (run_op env op w))) = ttl (w_pool w).
Proof.
  destruct op as [url username password|i|]; cbn [run_op].
  - unfold bind.
    destruct (hit_or_miss (hashCredentials env url username password) w)
      as [(e & L & C)|Hm].
    + rewrite (GetOrCreate_hit env _ _ _ _ _ L C). simpl. split; [lia | reflexivity].
    + rewrite (GetOrCreate_miss env _ _ _ _ Hm). cbv zeta.
      destruct (q_Login env (w_trace w) _ username password); simpl;
        split; (lia || reflexivity).
  - destruct (fire_cases i w) as [->|(k & _ & [[_ ->]|(e & _ & ->)])]; simpl;
      try destruct (Sub _ _ >? _); split; (lia || reflexivity).
  - destruct (Cleanup_frame env w) as (T & K & _). rewrite T, K. split; [lia | reflexivity].
Qed.

(** A step taken inside the window leaves the session in the pool. *)
Lemma run_op_held (h : string) (c : Client) (t0 : Time) (op : PoolOp) (w : World) :
  held h c t0 w ->
  in_window t0 (ttl (w_pool w)) (clock env (w_tick w)) ->
  held h c t0 (snd (run_op env op w)).
Proof.
  intros (e & L & Hc & Hh & Ht) [W0 W1].
  assert (Keep : (Sub (clock env (w_tick w)) (e_lastUsed e) >? ttl (w_pool w)) = false).
  { rewrite Z.gtb_ltb. apply Z.ltb_ge.
    pose proof (Sub_anti_r (clock env (w_tick w)) t0 (e_lastUsed e) Ht). lia. }
  unfold held. destruct op as [url username password|i|]; cbn [run_op].
  - unfold bind.
    destruct (hit_or_miss (hashCredentials env url username password) w)
      as [(e' & L' & C')|Hm].
    + rewrite (GetOrCreate_hit env _ _ _ _ _ L' C'). wsimpl.
      destruct (decide (hashCredentials env url username password = h)) as [E|E].
      * rewrite E in *. assert (e' = e) by congruence. subst e'.
        eexists. split; [apply lookup_insert_eq|]. wsimpl. auto.
      * exists e. rewrite lookup_insert_ne by exact E. auto.
    + rewrite (GetOrCreate_miss env _ _ _ _ Hm). cbv zeta.
      assert (E : hashCredentials env url username password <> h).
      { intros E. unfold misses in Hm. rewrite E, L in Hm. congruence. }
      destruct (q_Login env (w_trace w) _ username password); wsimpl.
      * exists e. auto.
      * exists e. rewrite lookup_insert_ne by exact E. auto.
  - destruct (fire_cases i w) as [->|(k & _ & [[_ ->]|(e' & L' & ->)])]; wsimpl.
    + exists e. auto.
    + exists e. auto.
    + destruct (decide (k = h)) as [->|E].
      * assert (e' = e) by congruence. subst e'. rewrite Keep. exists e. auto.
      * exists e. split; [|auto].
        destruct (Sub (clock env (w_tick w)) (e_lastUsed e') >? ttl (w_pool w)); wsimpl;
          [rewrite lookup_delete_ne by exact E|]; exact L.
  - exists e. rewrite Cleanup_lookup, L, Keep. auto.
Qed.

Lemma run_ops_frame (ops : list PoolOp) (w : World) :
  (w_tick w <= w_tick (snd (run_ops env ops w)))%nat /\
  ttl (w_pool (snd (run_ops env ops w))) = ttl (w_pool w).
Proof.
  revert w. induction ops as [|op ops IH]; intros w; simpl; [split; [lia|reflexivity]|].
  unfold bind. destruct (run_op_frame op w) as [T K].
  destruct (run_op env op w) as [[] w']. simpl in *.
  destruct (IH w') as [T' K']. split; [lia | congruence].
Qed.

Lemma run_ops_held (h : string) (c : Client) (t0 : Time) (ops : list PoolOp) (w : World) :
  held h c t0 w ->
  (forall n, (w_tick w <= n <= w_tick (snd (run_ops env ops w)))%nat ->
             in_window t0 (ttl (w_pool w)) (clock env n)) ->
  held h c t0 (snd (run_ops env ops w)).
Proof.
  revert w. induction ops as [|op ops IH]; intros w H W; simpl; [exact H|].
  simpl in W. unfold bind in *.
  pose proof (run_op_frame op w) as [T K].
  pose proof (run_op_held h c t0 op w H) as S.
  destruct (run_op env op w) as [[] w']. simpl in *.
  pose proof (run_ops_frame ops w') as [T' _].
  apply IH.
  - apply S. apply W. lia.
  - intros n Hn. rewrite K. apply W. lia.
Qed.

(** A successful call leaves its session in the pool, last used at the
    reading the call took. *)
Lemma GetOrCreate_held (url username password : string) (w w' : World) (c : Client) :
  GetOrCreate env url username password w = (inl c, w') ->
  held (hashCredentials env url username password) c (clock env (w_tick w)) w' /\
  w_tick w' = S (w_tick w) /\ ttl (w_pool w') = ttl (w_pool w).
Proof.
  destruct (hit_or_miss (hashCredentials env url username password) w)
    as [(e & L & C)|Hm].
  - rewrite (GetOrCreate_hit env _ _ _ _ _ L C). intros [= <- <-]. simpl.
    split; [|auto]. eexists. split; [apply lookup_insert_eq|]. simpl.
    repeat split; auto. lia.
  - rewrite (GetOrCreate_miss env _ _ _ _ Hm). cbv zeta.
    destruct (q_Login env (w_trace w) _ username password); [discriminate|].
    intros [= <- <-]. simpl. split; [|auto].
    eexists. split; [apply lookup_insert_eq|]. simpl. repeat split; auto. lia.
Qed.

End PoolSteps.

(** ** What a setter leaves of its object and of the world *)

Section SetterFacts.

Context (env : Env).

Lemma SetStatusCondition_world (cs : list Condition) (c : Condition) (w : World) :
  exists n, snd (meta.SetStatusCondition env cs c w) =
              mkWorld n (w_next w) (w_pool w) (w_timers w) (w_trace w) /\
            (w_tick w <= n)%nat.
Proof.
  destruct w as [k nx p ts tr]. unfold meta.SetStatusCondition, bind, ret, time_Now.
  repeat (case_step; wsimpl); eexists; (split; [reflexivity|]); wsimpl; lia.
Qed.

Lemma setExclusive_world (kind other reason message : string)
    (cs : list Condition) (w : World) :
  exists n, snd (setExclusive env kind other reason message cs w) =
              mkWorld n (w_next w) (w_pool w) (w_timers w) (w_trace w) /\
            (w_tick w < n)%nat.
Proof.
  unfold setExclusive, bind, ret, time_Now.
  match goal with
  | |- context [meta.SetStatusCondition env cs ?c ?w'] =>
      destruct (SetStatusCondition_world cs c w') as (n & E & L);
      destruct (meta.SetStatusCondition env cs c w') as [cs' w'']
  end.
  wsimpl. subst w''. exists n. split; [reflexivity | lia].
Qed.

(** A setter of the work-item reconciler. *)
Lemma torrent_call_spec (c : ConditionCall) (o : Torrent) (w : World) :
  let o' := fst (torrent_call env c o w) in
  let w' := snd (torrent_call env c o w) in
  o' = set_Status o (set_Conditions (t_Status o) (Conditions (t_Status o'))) /\
  has_condition (Conditions (t_Status o')) (call_kind c) (call_reason c) (call_message c) /\
  lacks_condition (Conditions (t_Status o')) (call_other c) /\
  exists n, w' = mkWorld n (w_next w) (w_pool w) (w_timers w) (w_trace w) /\
            (w_tick w < n)%nat.
Proof.
  cbv zeta. destruct (torrent_call_conditions env c o w) as [Ec Ew].
  rewrite Ec, Ew. split; [|split; [|split]].
  - rewrite <- Ec.
    destruct c; simpl;
      unfold TorrentReconciler.setAvailableCondition,
        TorrentReconciler.setDegradedCondition, bind, ret, time_Now;
      match goal with
      | |- context [meta.SetStatusCondition env ?cs ?c ?w'] =>
          destruct (meta.SetStatusCondition env cs c w')
      end; reflexivity.
  - apply setExclusive_present, call_kinds_differ.
  - apply setExclusive_present, call_kinds_differ.
  - apply setExclusive_world.
Qed.

(** A setter of the configuration reconciler. *)
Lemma tcc_call_spec (c : ConditionCall) (o : TorrentClientConfiguration) (w : World) :
  let o' := fst (tcc_call env c o w) in
  let w' := snd (tcc_call env c o w) in
  o' = set_tcc_Status o
         (set_tcc_Conditions (tcc_Status o) (tcc_Conditions (tcc_Status o'))) /\
  has_condition (tcc_Conditions (tcc_Status o'))
    (call_kind c) (call_reason c) (call_message c) /\
  lacks_condition (tcc_Conditions (tcc_Status o')) (call_other c) /\
  exists n, w' = mkWorld n (w_next w) (w_pool w) (w_timers w) (w_trace w) /\
            (w_tick w < n)%nat.
Proof.
  cbv zeta. destruct (tcc_call_conditions env c o w) as [Ec Ew].
  rewrite Ec, Ew. split; [|split; [|split]].
  - rewrite <- Ec.
    destruct c; simpl;
      unfold TorrentClientConfigurationReconciler.setAvailableCondition,
        TorrentClientConfigurationReconciler.setDegradedCondition, bind, ret, time_Now;
      match goal with
      | |- context [meta.SetStatusCondition env ?cs ?c ?w'] =>
          destruct (meta.SetStatusCondition env cs c w')
      end; reflexivity.
  - apply setExclusive_present, call_kinds_differ.
  - apply setExclusive_present, call_kinds_differ.
  - apply setExclusive_world.
Qed.

(** The same, call by call, as equations to rewrite with. *)
Lemma torrent_setDegraded_run (t : Torrent) (reason message : string) (w : World) :
  exists cs n,
    TorrentReconciler.setDegradedCondition env t reason message w =
      (set_Status t (set_Conditions (t_Status t) cs),
       mkWorld n (w_next w) (w_pool w) (w_timers w) (w_trace w)) /\
    has_condition cs "Degraded" reason message /\ lacks_condition cs "Available" /\
    (w_tick w < n)%nat.
Proof.
  pose proof (torrent_call_spec (SetDegraded reason message) t w) as S.
  cbn [torrent_call call_kind call_other call_reason call_message] in S. cbv zeta in S.
  destruct (TorrentReconciler.setDegradedCondition env t reason message w) as [t' w'].
  cbn [fst snd] in S. destruct S as (Et & Hc & Hl & n & Ew & Hn).
  exists (Conditions (t_Status t')), n. rewrite <- Et, <- Ew. auto.
Qed.

Lemma torrent_setAvailable_run (t : Torrent) (reason message : string) (w : World) :
  exists cs n,
    TorrentReconciler.setAvailableCondition env t reason message w =
      (set_Status t (set_Conditions (t_Status t) cs),
       mkWorld n (w_next w) (w_pool w) (w_timers w) (w_trace w)) /\
    has_condition cs "Available" reason message /\ lacks_condition cs "Degraded" /\
    (w_tick w < n)%nat.
Proof.
  pose proof (torrent_call_spec (SetAvailable reason message) t w) as S.
  cbn [torrent_call call_kind call_other call_reason call_message] in S. cbv zeta in S.
  destruct (TorrentReconciler.setAvailableCondition env t reason message w) as [t' w'].
  cbn [fst snd] in S. destruct S as (Et & Hc & Hl & n & Ew & Hn).
  exists (Conditions (t_Status t')), n. rewrite <- Et, <- Ew. auto.
Qed.

Lemma tcc_setDegraded_run (t : TorrentClientConfiguration) (reason message : string)
    (w : World) :
  exists cs n,
    TorrentClientConfigurationReconciler.setDegradedCondition env t reason message w =
      (set_tcc_Status t (set_tcc_Conditions (tcc_Status t) cs),
       mkWorld n (w_next w) (w_pool w) (w_timers w) (w_trace w)) /\
    has_condition cs "Degraded" reason message /\ lacks_condition cs "Available" /\
    (w_tick w < n)%nat.
Proof.
  pose proof (tcc_call_spec (SetDegraded reason message) t w) as S.
  cbn [tcc_call call_kind call_other call_reason call_message] in S. cbv zeta in S.
  destruct (TorrentClientConfigurationReconciler.setDegradedCondition env t reason
              message w) as [t' w'].
  cbn [fst snd] in S. destruct S as (Et & Hc & Hl & n & Ew & Hn).
  exists (tcc_Conditions (tcc_Status t')), n. rewrite <- Et, <- Ew. auto.
Qed.

Lemma tcc_setAvailable_run (t : TorrentClientConfiguration) (reason message : string)
    (w : World) :
  exists cs n,
    TorrentClientConfigurationReconciler.setAvailableCondition env t reason message w =
      (set_tcc_Status t (set_tcc_Conditions (tcc_Status t) cs),
       mkWorld n (w_next w) (w_pool w) (w_timers w) (w_trace w)) /\
    has_condition cs "Available" reason message /\ lacks_condition cs "Degraded" /\
    (w_tick w < n)%nat.
Proof.
  pose proof (tcc_call_spec (SetAvailable reason message) t w) as S.
  cbn [tcc_call call_kind call_other call_reason call_message] in S. cbv zeta in S.
  destruct (TorrentClientConfigurationReconciler.setAvailableCondition env t reason
              message w) as [t' w'].
  cbn [fst snd] in S. destruct S as (Et & Hc & Hl & n & Ew & Hn).
  exists (tcc_Conditions (tcc_Status t')), n. rewrite <- Et, <- Ew. auto.
Qed.

End SetterFacts.

(** Replace the setter calls of the goal by what they return. *)
Ltac run_setters env :=
  unfold bind, r_Status_Update, call, ret; cbv beta;
  repeat match goal with
    | |- context [TorrentReconciler.setAvailableCondition env ?t ?r ?m ?w0] =>
        let cs := fresh "cs" in
        let n := fresh "n" in
        let E := fresh "E" in
        destruct (torrent_setAvailable_run env t r m w0) as (cs & n & E & _); rewrite E
    | |- context [TorrentReconciler.setDegradedCondition env ?t ?r ?m ?w0] =>
        let cs := fresh "cs" in
        let n := fresh "n" in
        let E := fresh "E" in
        destruct (torrent_setDegraded_run env t r m w0) as (cs & n & E & _); rewrite E
    end.

(** The calls of a reconcile, given those of resolution ([X]), none of
    which is a write ([NW]): every status write carries the name, and
    there is one. *)
Ltac finish_writes X NW :=
  wsimpl; rewrite X, <- !app_assoc;
  eexists; split; [reflexivity|]; split;
  [ let t' := fresh "t'" in
    let H := fresh "H" in
    intros t' H; in_cases H; try discriminate; try (now apply NW in H);
    injection H as <-;
    cbn [ClientConfigurationName t_Status set_Status set_Conditions
           set_ClientConfigurationName];
    try assumption; reflexivity
  | intros _; eexists; find_write ].

(** ** The configuration resolver *)

Section ResolverFacts.

Import TorrentReconciler.
Context (env : Env).

Lemma GetOrCreate_extends (url username password : string) (w : World) :
  exists evs, extends w (snd (qbittorrent.GetOrCreate env url username password w)) evs /\
              Forall (fun ev => is_write ev = false) evs.
Proof.
  unfold extends.
  destruct (hit_or_miss (qbittorrent.hashCredentials env url username password) w)
    as [(e & L & C)|Hm].
  - rewrite (GetOrCreate_hit env _ _ _ _ _ L C). exists []. wsimpl.
    now rewrite app_nil_r.
  - rewrite (GetOrCreate_miss env _ _ _ _ Hm). cbv zeta.
    destruct (q_Login env (w_trace w) _ username password); wsimpl;
      eexists; (split; [reflexivity|]); repeat constructor.
Qed.

(** Resolution reads and logs in, but writes nothing to the API server,
    and touches the work item only in its recorded configuration name. *)
Lemma getQBTClient_frame (torrent : Torrent) (w : World) :
  same_but_name torrent (snd (fst (getQBTClient env torrent w))) /\
  exists evs, extends w (snd (getQBTClient env torrent w)) evs /\
              Forall (fun ev => is_write ev = false) evs.
Proof.
  unfold getQBTClient, same_but_name, extends, bind, ret, r_Get_TCC, r_List_TCC,
    r_Get_Secret, call.
  repeat (case_step; wsimpl);
    try match goal with
      | H : qbittorrent.GetOrCreate env ?u ?n ?p ?w0 = _ |- _ =>
          destruct (GetOrCreate_extends u n p w0) as (evs0 & X & F);
          rewrite H in X; unfold extends in X; wsimpl; rewrite X
      end;
    (split; [eauto|]); wsimpl; rewrite <- ?app_assoc;
    eexists; (split; [reflexivity|]);
    repeat (apply Forall_app; split); repeat constructor; try assumption.
Qed.

(** An explicit reference that cannot be fetched ends resolution at
    once: the namespace is not even listed. *)
Lemma getQBTClient_ref_not_found (torrent : Torrent) (w : World)
    (ref : LocalObjectReference) (err : error) :
  ClientConfigRef (t_Spec torrent) = Some ref ->
  k_GetTCC env (w_trace w)
    (mkNamespacedName (om_Namespace (t_Meta torrent)) (lor_Name ref)) = inr err ->
  getQBTClient env torrent w =
    (inr (errWrap ("referenced TorrentClientConfiguration " ++ fmt_q env (lor_Name ref)
                     ++ " not found: " ++ Error err) err),
     torrent,
     add_event w (EvGetTCC (mkNamespacedName (om_Namespace (t_Meta torrent))
                              (lor_Name ref)))).
Proof.
  intros R G. unfold getQBTClient, bind, ret, r_Get_TCC, call. rewrite R. wsimpl.
  rewrite G. reflexivity.
Qed.

(** Once a configuration is selected and available, its name is on the
    work item when resolution returns, whatever the secret fetch and the
    pool answer. *)
Lemma getQBTClient_records (torrent : Torrent) (w : World)
    (tcc : TorrentClientConfiguration) :
  selected env torrent w tcc -> available tcc ->
  snd (fst (getQBTClient env torrent w)) =
    set_Status torrent
      (set_ClientConfigurationName (t_Status torrent) (om_Name (tcc_Meta tcc))).
Proof.
  unfold selected, available. intros S (c & F & T).
  unfold getQBTClient, bind, ret, r_Get_TCC, r_List_TCC, r_Get_Secret, call.
  destruct (ClientConfigRef (t_Spec torrent)) as [ref|]; wsimpl.
  - destruct S as [G L]. rewrite G. wsimpl. rewrite L, F, T. cbn [String.eqb negb].
    rewrite String.eqb_refl. cbn [negb].
    repeat (case_step; wsimpl); reflexivity.
  - rewrite S, F, T. rewrite String.eqb_refl. cbn [negb].
    repeat (case_step; wsimpl); reflexivity.
Qed.

(** A configuration that is listed alone but is not available is
    rejected before its name is recorded. *)
Lemma getQBTClient_unavailable (torrent : Torrent) (w : World)
    (tcc : TorrentClientConfiguration) :
  ClientConfigRef (t_Spec torrent) = None ->
  k_ListTCC env (w_trace w) (om_Namespace (t_Meta torrent)) = inl [tcc] ->
  meta.FindStatusCondition (tcc_Conditions (tcc_Status tcc)) TypeAvailableTCC = None ->
  getQBTClient env torrent w =
    (inr (errString ("TorrentClientConfiguration " ++ fmt_q env (om_Name (tcc_Meta tcc))
                       ++ " is not available")),
     torrent, add_event w (EvListTCC (om_Namespace (t_Meta torrent)))).
Proof.
  intros R L F. unfold getQBTClient, bind, ret, r_List_TCC, call. rewrite R. wsimpl.
  rewrite L, F. reflexivity.
Qed.

End ResolverFacts.

(** ** Deletion of a work item *)

Section DeletionFacts.

Import TorrentReconciler.
Context (env : Env).

Lemma contains_without (f : list string) (x : string) :
  controllerutil.contains (controllerutil.without f x) x = false.
Proof.
  induction f as [|e f IH]; simpl; [reflexivity|].
  destruct (String.eqb e x) eqn:E; simpl; [exact IH | now rewrite E].
Qed.

Lemma finalize_removed (t : Torrent) (w : World) :
  finalizer_removed env t w (finalizer_removed_run env t w).
Proof.
  unfold finalizer_removed, finalizer_removed_run, bind, ret, r_Update, call, add_event.
  cbv zeta. split.
  - destruct (k_UpdateTorrent env (w_trace w) _); reflexivity.
  - apply contains_without.
Qed.

(** C2. Deletion of a work item. With no recorded hash the finalizer
    is removed and the object written back. With a recorded hash: when
    resolution fails, the finalizer is removed all the same; when the
    remote delete fails, a Degraded condition with reason
    FailedToDeleteTorrent is set, the reconcile asks to be run again in
    ten seconds, and the finalizers stay as they were; when the remote
    delete succeeds, the finalizer is removed. Removing the finalizer
    ends the reconcile with an empty result and the answer of the
    write. *)
Theorem handleDeletion_outcomes (torrent : Torrent) (w : World) :
  (Hash (t_Status torrent) = "" ->
   finalizer_removed env torrent w (handleDeletion env torrent w)) /\
  (Hash (t_Status torrent) <> "" ->
   forall res t1 w1,
     getQBTClient env torrent w = (res, t1, w1) ->
     om_Finalizers (t_Meta t1) = om_Finalizers (t_Meta torrent) /\
     (exists evs, extends w w1 evs /\ Forall (fun ev => is_write ev = false) evs) /\
     match res with
     | inr _ => finalizer_removed env t1 w1 (handleDeletion env torrent w)
     | inl qbtClient =>
         let deleteFiles :=
           match DeleteFilesOnRemoval (t_Spec t1) with
           | Some b => b
           | None => true
           end in
         let w2 :=
           add_event w1 (EvDeleteTorrent qbtClient (Hash (t_Status t1)) deleteFiles) in
         match q_DeleteTorrent env (w_trace w1) qbtClient (Hash (t_Status t1))
                 deleteFiles with
         | None => finalizer_removed env t1 w2 (handleDeletion env torrent w)
         | Some err => delete_blocked env t1 w2 err (handleDeletion env torrent w)
         end
     end).
Proof.
  split.
  - intros H. unfold handleDeletion. rewrite H. cbn [String.eqb negb].
    apply finalize_removed.
  - intros H res t1 w1 G. apply String.eqb_neq in H. split.
    { pose proof (getQBTClient_frame env torrent w) as [[E|[n E]] _];
        rewrite G in E; cbn [fst snd] in E; rewrite E; reflexivity. }
    split.
    { pose proof (getQBTClient_frame env torrent w) as [_ F]. now rewrite G in F. }
    assert (U : handleDeletion env torrent w =
                (let '(res, torrent) := (res, t1) in
                 match res with
                 | inr _ =>
                     finalizer_removed_run env torrent
                 | inl qbtClient =>
                     let deleteFiles :=
                       match DeleteFilesOnRemoval (t_Spec torrent) with
                       | Some b => b
                       | None => true
                       end in
                     err <- DeleteTorrent env qbtClient (Hash (t_Status torrent))
                              deleteFiles ;;
                     match err with
                     | Some err =>
                         torrent <- setDegradedCondition env torrent
                                      "FailedToDeleteTorrent" (Error err) ;;
                         _ <- r_Status_Update env torrent ;;
                         ret ((requeueAfter (10 * Second), None), torrent)
                     | None => finalizer_removed_run env torrent
                     end
                 end) w1).
    { unfold handleDeletion. rewrite H. cbn [negb]. unfold bind at 1. rewrite G.
      reflexivity. }
    rewrite U. clear U. cbv zeta.
    destruct res as [qbtClient|e]; [|apply finalize_removed].
    destruct (q_DeleteTorrent env (w_trace w1) qbtClient (Hash (t_Status t1)) _)
      as [err|] eqn:D.
    + unfold delete_blocked, bind, DeleteTorrent, r_Status_Update, call, ret.
      rewrite D. unfold add_event.
      match goal with
      | |- context [setDegradedCondition env t1 ?r ?m ?w2] =>
          pose proof (torrent_call_spec env (SetDegraded r m) t1 w2) as S;
          cbn [torrent_call call_kind call_other call_reason call_message] in S;
          cbv zeta in S;
          destruct (setDegradedCondition env t1 r m w2) as [t2 w3]
      end.
      cbn [fst snd] in S. destruct S as (Et & Hc & Hl & n & Ew & _).
      exists t2, w3. subst w3. unfold add_event. wsimpl.
      repeat split; try assumption; try reflexivity.
      now rewrite Et.
    + unfold bind at 1, DeleteTorrent, call. rewrite D. apply finalize_removed.
Qed.

End DeletionFacts.

(** ** Steady-state reconciliation of a work item *)

Section ReconcileFacts.

Import TorrentReconciler.
Context (env : Env).

(** [Reconcile] from the point where the work item is loaded and found
    in its steady state. *)
Lemma Reconcile_steady (req : NamespacedName) (w : World) (torrent : Torrent) :
  k_GetTorrent env (w_trace w) req = inl torrent -> steady torrent ->
  Reconcile env req w = steady_run env torrent (add_event w (EvGetTorrent req)).
Proof.
  intros G [Z F]. unfold Reconcile, bind at 1, r_Get_Torrent, call. rewrite G, Z, F.
  reflexivity.
Qed.

(** C8. Steady-state reconciliation of a work item. When resolution of
    the configuration or of the session fails, whatever the failure,
    a Degraded condition with reason ClientResolutionFailed and the
    error text as message is set and written, and the reconcile returns
    a re-queue after fifteen seconds with a nil error. When resolution
    succeeds and the descriptor has no identifier, the parse error is
    returned to the scheduler with an empty result, and nothing is
    written: the calls of the reconcile are the load of the work item
    and those of resolution. *)
Theorem Reconcile_error_policy (req : NamespacedName) (w : World) (torrent : Torrent) :
  k_GetTorrent env (w_trace w) req = inl torrent -> steady torrent ->
  forall res t1 w1,
    getQBTClient env torrent (add_event w (EvGetTorrent req)) = (res, t1, w1) ->
    match res with
    | inr err =>
        exists cs n,
          Reconcile env req w =
            ((requeueAfter (15 * Second), None),
             add_event (mkWorld n (w_next w1) (w_pool w1) (w_timers w1) (w_trace w1))
               (EvStatusUpdateTorrent
                  (set_Status t1 (set_Conditions (t_Status t1) cs)))) /\
          has_condition cs "Degraded" "ClientResolutionFailed" (Error err) /\
          lacks_condition cs "Available"
    | inl _ =>
        forall err,
          GetTorrentHash (MagnetURI (t_Spec torrent)) = inr err ->
          Reconcile env req w = ((emptyResult, Some err), w1) /\
          exists evs, extends w w1 evs /\ Forall (fun ev => is_write ev = false) evs
    end.
Proof.
  intros G St res t1 w1 R. rewrite (Reconcile_steady req w torrent G St).
  pose proof (getQBTClient_frame env torrent (add_event w (EvGetTorrent req)))
    as [Sn (evs & X & F)].
  rewrite R in Sn, X. cbn [fst snd] in Sn, X.
  destruct res as [c|err]; unfold steady_run, bind at 1; rewrite R.
  - intros err P.
    assert (Sp : t_Spec t1 = t_Spec torrent) by (destruct Sn as [->|[n ->]]; reflexivity).
    rewrite Sp, P. split; [reflexivity|].
    exists (EvGetTorrent req :: evs). split.
    + unfold extends in *. rewrite X. unfold add_event. wsimpl.
      now rewrite <- app_assoc.
    + constructor; [reflexivity | exact F].
  - destruct (torrent_setDegraded_run env t1 "ClientResolutionFailed" (Error err) w1)
      as (cs & n & E & Hc & Hl & _).
    exists cs, n. unfold bind, r_Status_Update, call, ret. cbv beta. rewrite E.
    split; [reflexivity | auto].
Qed.

Lemma not_written (evs : list Event) (t' : Torrent) :
  Forall (fun ev => is_write ev = false) evs -> ~ In (EvStatusUpdateTorrent t') evs.
Proof.
  intros F H. rewrite Forall_forall in F.
  apply list_elem_of_In in H. specialize (F _ H). discriminate.
Qed.

(** C9. When resolution selects a configuration that is available, its
    name is on the work item when resolution returns, also when the
    secret fetch or the session creation then fails; and in the
    steady-state reconcile every status write carries that name, with
    at least one such write whenever resolution fails after the
    selection or the descriptor yields an identifier (so also when the
    remote query or the remote add fails). *)
Theorem configuration_name_recorded (req : NamespacedName) (w : World)
    (torrent : Torrent) (tcc : TorrentClientConfiguration) :
  k_GetTorrent env (w_trace w) req = inl torrent -> steady torrent ->
  selected env torrent (add_event w (EvGetTorrent req)) tcc -> available tcc ->
  let resolved := getQBTClient env torrent (add_event w (EvGetTorrent req)) in
  ClientConfigurationName (t_Status (snd (fst resolved))) = om_Name (tcc_Meta tcc) /\
  exists evs,
    extends w (snd (Reconcile env req w)) evs /\
    (forall t', In (EvStatusUpdateTorrent t') evs ->
                ClientConfigurationName (t_Status t') = om_Name (tcc_Meta tcc)) /\
    ((exists err, fst (fst resolved) = inr err) \/
     (exists h, GetTorrentHash (MagnetURI (t_Spec torrent)) = inl h) ->
     exists t', In (EvStatusUpdateTorrent t') evs).
Proof.
  intros G St Sel Av resolved. subst resolved.
  pose proof (getQBTClient_records env torrent _ tcc Sel Av) as Rec.
  pose proof (getQBTClient_frame env torrent (add_event w (EvGetTorrent req)))
    as [_ (evs0 & X & F)].
  rewrite (Reconcile_steady req w torrent G St).
  unfold steady_run, bind at 1.
  destruct (getQBTClient env torrent (add_event w (EvGetTorrent req)))
    as [[res t1] w1].
  cbn [fst snd] in *. subst t1. split; [reflexivity|].
  unfold extends in *. unfold add_event in X. wsimpl.
  pose proof (not_written evs0) as NW. specialize (fun t' => NW t' F).
  destruct res as [c|err].
  - cbn [t_Spec set_Status MagnetURI].
    destruct (GetTorrentHash (MagnetURI (t_Spec torrent))) as [h|perr].
    + unfold bind at 1, GetTorrentInfo, call. cbv beta.
      destruct (q_GetTorrentInfo env (w_trace w1) c h) as [[info|]|ierr].
      * destruct (updateTorrentStatus _ info) as [t2 updated] eqn:U.
        assert (N2 : ClientConfigurationName (t_Status t2) = om_Name (tcc_Meta tcc)).
        { unfold updateTorrentStatus in U. injection U as <- _. reflexivity. }
        unfold bind at 1.
        destruct updated; unfold r_Status_Update at 1, call at 1; cbv beta;
          [destruct (k_StatusUpdateTorrent env _ t2) as [uerr|]|];
          run_setters env; finish_writes X NW.
      * unfold bind at 1, AddTorrent, call. cbv beta.
        destruct (q_AddTorrent env _ c _) as [aerr|];
          run_setters env; finish_writes X NW.
      * run_setters env; finish_writes X NW.
    + unfold ret. wsimpl. rewrite X, <- !app_assoc.
      eexists. split; [reflexivity|]. split.
      * intros t' H. in_cases H; try discriminate. now apply NW in H.
      * intros [[e H]|[h H]]; discriminate.
  - run_setters env; finish_writes X NW.
Qed.

End ReconcileFacts.

(** ** Reconciliation of a configuration object *)

Section ConfigurationFacts.

Import TorrentClientConfigurationReconciler.
Context (env : Env).

Lemma GetOrCreate_tick (url username password : string) (w : World) :
  (w_tick w <= w_tick (snd (qbittorrent.GetOrCreate env url username password w)))%nat.
Proof.
  destruct (hit_or_miss (qbittorrent.hashCredentials env url username password) w)
    as [(e & L & C)|Hm].
  - rewrite (GetOrCreate_hit env _ _ _ _ _ L C). wsimpl. lia.
  - rewrite (GetOrCreate_miss env _ _ _ _ Hm). cbv zeta.
    destruct (q_Login env (w_trace w) _ username password); wsimpl; lia.
Qed.

(** The tail of a degraded branch. *)
Lemma degraded_run (tcc : TorrentClientConfiguration) (checkInterval : Duration)
    (reason message : string) (w : World) :
  exists cs n,
    let written :=
      set_tcc_Status tcc
        (mkTCCStatus false (Some (clock env n)) (QBittorrentVersion (tcc_Status tcc)) cs) in
    degraded env tcc checkInterval reason message w =
      ((requeueAfter checkInterval, None),
       add_event (mkWorld (S n) (w_next w) (w_pool w) (w_timers w) (w_trace w))
         (EvStatusUpdateTCC written)) /\
    has_condition cs "Degraded" reason message /\ lacks_condition cs "Available" /\
    (w_tick w < n)%nat.
Proof.
  destruct (tcc_setDegraded_run env tcc reason message w) as (cs & n & E & Hc & Hl & Hn).
  exists cs, n. cbv zeta. unfold degraded, bind, time_Now, r_Status_Update_TCC, call, ret.
  rewrite E. auto.
Qed.

(** C10. Reconciliation of a configuration object that could be loaded
    ends in one status write, of an object whose [LastChecked] is the
    clock reading just taken. On the four degraded branches (secret not
    fetched, secret without one of its two keys, session not obtained,
    probe failed) [Connected] is false and the Degraded condition, with
    the reason of the branch, is the one present; on the success branch
    [Connected] is true and the Available condition, with reason
    Connected, is the one present. So [Connected] is true exactly when
    an Available condition is present. *)
Theorem configuration_status_written (req : NamespacedName) (w : World)
    (tcc : TorrentClientConfiguration) :
  k_GetTCC env (w_trace w) req = inl tcc ->
  let w1 := add_event w (EvGetTCC req) in
  let key :=
    mkNamespacedName (om_Namespace (tcc_Meta tcc))
      (sr_Name (CredentialsSecret (tcc_Spec tcc))) in
  let w2 := add_event w1 (EvGetSecret key) in
  exists written,
    status_written env w (snd (Reconcile env req w)) written /\
    (Connected (tcc_Status written) = true <->
     ~ lacks_condition (tcc_Conditions (tcc_Status written)) "Available") /\
    match k_GetSecret env (w_trace w1) key with
    | inr _ => tcc_degraded written "SecretNotFound"
    | inl secret =>
        match s_Data secret !! "username", s_Data secret !! "password" with
        | Some username, Some password =>
            match qbittorrent.GetOrCreate env (URL (tcc_Spec tcc)) username password w2
            with
            | (inr _, _) => tcc_degraded written "ClientCreationFailed"
            | (inl qbtClient, w3) =>
                match q_Ping env (w_trace w3) qbtClient with
                | Some _ => tcc_degraded written "HealthCheckFailed"
                | None => tcc_connected written
                end
            end
        | _, _ => tcc_degraded written "SecretInvalid"
        end
    end.
Proof.
  intros G. cbv zeta.
  unfold Reconcile, bind at 1, r_Get_TCC at 1, call at 1. rewrite G.
  unfold bind at 1, r_Get_Secret, call. cbv beta. fold (add_event w (EvGetTCC req)).
  set (w1 := add_event w (EvGetTCC req)).
  set (key := mkNamespacedName _ _).
  fold (add_event w1 (EvGetSecret key)). set (w2 := add_event w1 (EvGetSecret key)).
  set (ci := if negb _ then _ else _).
  assert (D : forall reason message w0 evs,
             extends w w0 evs -> Forall (fun ev => is_write ev = false) evs ->
             (w_tick w <= w_tick w0)%nat ->
             exists written,
               status_written env w (snd (degraded env tcc ci reason message w0)) written /\
               (Connected (tcc_Status written) = true <->
                ~ lacks_condition (tcc_Conditions (tcc_Status written)) "Available") /\
               tcc_degraded written reason).
  { intros reason message w0 evs X F T.
    destruct (degraded_run tcc ci reason message w0) as (cs & n & E & Hc & Hl & Hn).
    cbv zeta in E. rewrite E. eexists. split; [|split].
    - exists evs, n. unfold extends, add_event in *. wsimpl.
      rewrite X, <- app_assoc. repeat split; auto. lia.
    - cbn. split; [discriminate | intros H; exfalso; exact (H Hl)].
    - unfold tcc_degraded. cbn. eauto. }
  assert (X1 : extends w w2 [EvGetTCC req; EvGetSecret key]).
  { unfold extends, w2, w1, add_event. wsimpl. now rewrite <- app_assoc. }
  assert (F1 : Forall (fun ev => is_write ev = false) [EvGetTCC req; EvGetSecret key])
    by (repeat constructor).
  destruct (k_GetSecret env (w_trace w1) key) as [secret|serr].
  2: { apply (D _ _ _ _ X1 F1). reflexivity. }
  destruct (s_Data secret !! "username") as [username|].
  2: { apply (D _ _ _ _ X1 F1). reflexivity. }
  destruct (s_Data secret !! "password") as [password|].
  2: { apply (D _ _ _ _ X1 F1). reflexivity. }
  unfold bind at 1.
  destruct (GetOrCreate_extends env (URL (tcc_Spec tcc)) username password w2)
    as (evs2 & X2 & F2).
  pose proof (GetOrCreate_tick (URL (tcc_Spec tcc)) username password w2) as T2.
  destruct (qbittorrent.GetOrCreate env (URL (tcc_Spec tcc)) username password w2)
    as [[qbtClient|cerr] w3].
  2: { cbn [fst snd] in *. apply (D _ _ w3 ([EvGetTCC req; EvGetSecret key] ++ evs2)%list).
       - unfold extends in *. rewrite X2, X1. now rewrite <- app_assoc.
       - apply Forall_app. auto.
       - exact T2. }
  cbn [fst snd] in *. unfold bind at 1, Ping, call. cbv beta.
  fold (add_event w3 (EvPing qbtClient)).
  destruct (q_Ping env (w_trace w3) qbtClient) as [perr|].
  { apply (D _ _ _ ([EvGetTCC req; EvGetSecret key] ++ evs2 ++ [EvPing qbtClient])%list).
    - unfold extends, add_event in *. wsimpl. rewrite X2, X1.
      now rewrite <- !app_assoc.
    - repeat (apply Forall_app; split); auto; repeat constructor.
    - exact T2. }
  unfold bind, time_Now, r_Status_Update_TCC, call, ret. cbv beta.
  match goal with
  | |- context [setAvailableCondition env tcc ?r ?m ?w0] =>
      destruct (tcc_setAvailable_run env tcc r m w0) as (cs & n & E & Hc & Hl & Hn);
      rewrite E
  end.
  assert (T : (w_tick w <= w_tick w3)%nat) by exact T2.
  eexists. split; [|split].
  - exists ([EvGetTCC req; EvGetSecret key] ++ evs2 ++ [EvPing qbtClient])%list, n.
    unfold extends, add_event in *. wsimpl.
    destruct (k_StatusUpdateTCC env _ _); wsimpl;
      rewrite X2, X1, <- !app_assoc; repeat split; auto;
      try (repeat (apply Forall_app; split); auto; repeat constructor); lia.
  - cbn. split; [intros _ H | reflexivity].
    destruct Hc as (c & Fc & _). unfold lacks_condition in H. congruence.
  - unfold tcc_connected. cbn. eauto.
Qed.

End ConfigurationFacts.

(** * The claims *)

(** ** C7: identifier extraction *)

(** C7. For every descriptor: when the marker "btih:" does not occur,
    [GetTorrentHash] fails; when it occurs, with [post] what follows its
    first occurrence, [GetTorrentHash] fails if [post] is empty and
    otherwise returns the part of [post] before its first '&', or all of
    [post] when it holds none; and "magnet:?xt=urn:btih:ABCD&dn=x"
    yields "ABCD". *)
Theorem GetTorrentHash_spec (uri : string) :
  ((forall pre post, uri <> pre ++ "btih:" ++ post) ->
   GetTorrentHash uri = inr (errString "'btih:' not found")) /\
  (forall pre post,
      first_marker uri pre post ->
      (post = "" -> GetTorrentHash uri = inr (errString "no hash after 'btih:'")) /\
      (post <> "" ->
       exists h, GetTorrentHash uri = inl h /\ no_amp h /\
                 (post = h \/ exists rest, post = h ++ "&" ++ rest))) /\
  GetTorrentHash "magnet:?xt=urn:btih:ABCD&dn=x" = inl "ABCD".
Proof.
  split; [apply GetTorrentHash_no_marker|]. split; [|reflexivity].
  intros pre post F. split.
  - intros ->. exact (GetTorrentHash_nothing_after uri pre F).
  - exact (GetTorrentHash_after uri pre post F).
Qed.

(** A decomposition at the offset [Index] returns is one at the first
    occurrence. *)
Lemma first_marker_Index (uri pre post : string) :
  uri = pre ++ "btih:" ++ post ->
  GoStrings.Index uri "btih:" = Z.of_nat (String.length pre) ->
  first_marker uri pre post.
Proof.
  intros E I. split; [exact E|]. intros pre' post' E'.
  assert (N : GoStrings.Index uri "btih:" <> -1) by lia.
  destruct (Index_found _ _ N) as (p & q & _ & Ip & Hmin).
  specialize (Hmin _ _ E'). lia.
Qed.

Lemma GetTorrentHash_spec_witness :
  GetTorrentHash "magnet:?xt=urn:sha1:ABCD" = inr (errString "'btih:' not found") /\
  GetTorrentHash "magnet:?xt=urn:btih:" = inr (errString "no hash after 'btih:'") /\
  exists h, GetTorrentHash "magnet:?xt=urn:btih:ABCD&dn=x" = inl h /\ no_amp h /\
            ("ABCD&dn=x" = h \/ exists rest, "ABCD&dn=x" = h ++ "&" ++ rest).
Proof.
  split; [|split].
  - apply (GetTorrentHash_spec "magnet:?xt=urn:sha1:ABCD").
    apply Index_absent. reflexivity.
  - apply (GetTorrentHash_spec "magnet:?xt=urn:btih:") with (pre := "magnet:?xt=urn:")
                                                            (post := "").
    + apply first_marker_Index; reflexivity.
    + reflexivity.
  - apply (GetTorrentHash_spec "magnet:?xt=urn:btih:ABCD&dn=x")
      with (pre := "magnet:?xt=urn:") (post := "ABCD&dn=x").
    + apply first_marker_Index; reflexivity.
    + discriminate.
Defined.

(** ** C6: the condition tracker *)

(** C6. On a work item, a configuration object or a managed server,
    whatever its condition list, a setter call leaves a condition of its
    kind present and none of the other kind: Available and Degraded do not
    stand side by side. On an object whose condition list starts empty,
    after any sequence of setter calls followed by one more call the list
    holds exactly one condition, of the kind of that last call. *)
Theorem conditions_exactly_one (env : Env) (calls : list ConditionCall)
    (c : ConditionCall) (w : World) :
  (forall o : Torrent,
      kind_set (Conditions (t_Status (fst (torrent_call env c o w)))) c /\
      (Conditions (t_Status o) = [] ->
       exactly_one
         (Conditions
            (t_Status (fst (run_calls (torrent_call env) (calls ++ [c])%list o w))))
         (call_kind c))) /\
  (forall o : TorrentClientConfiguration,
      kind_set (tcc_Conditions (tcc_Status (fst (tcc_call env c o w)))) c /\
      (tcc_Conditions (tcc_Status o) = [] ->
       exactly_one
         (tcc_Conditions
            (tcc_Status (fst (run_calls (tcc_call env) (calls ++ [c])%list o w))))
         (call_kind c))) /\
  (forall o : TorrentServer,
      kind_set (ts_Conditions (ts_Status (fst (server_call env c o w)))) c /\
      (ts_Conditions (ts_Status o) = [] ->
       exactly_one
         (ts_Conditions
            (ts_Status (fst (run_calls (server_call env) (calls ++ [c])%list o w))))
         (call_kind c))).
Proof.
  split; [|split]; intros o; split.
  - destruct (torrent_call_conditions env c o w) as [-> _].
    apply setExclusive_present, call_kinds_differ.
  - intros E.
    apply (run_calls_exactly_one env (fun o => Conditions (t_Status o)) (torrent_call env));
      [|exact E].
    intros c0 o0 w0. apply torrent_call_conditions.
  - destruct (tcc_call_conditions env c o w) as [-> _].
    apply setExclusive_present, call_kinds_differ.
  - intros E.
    apply (run_calls_exactly_one env (fun o => tcc_Conditions (tcc_Status o)) (tcc_call env));
      [|exact E].
    intros c0 o0 w0. apply tcc_call_conditions.
  - destruct (server_call_conditions env c o w) as [-> _].
    apply setExclusive_present, call_kinds_differ.
  - intros E.
    apply (run_calls_exactly_one env (fun o => ts_Conditions (ts_Status o))
             (server_call env)); [|exact E].
    intros c0 o0 w0. apply server_call_conditions.
Qed.

Lemma conditions_exactly_one_witness :
  exactly_one
    (Conditions
       (t_Status (fst (run_calls (torrent_call Demo.quiet) (Demo.calls ++ [Demo.last])%list
                         (Demo.item None "" None) Demo.start))))
    "Degraded" /\
  exactly_one
    (tcc_Conditions
       (tcc_Status (fst (run_calls (tcc_call Demo.quiet) (Demo.calls ++ [Demo.last])%list
                           Demo.new_config Demo.start))))
    "Degraded" /\
  exactly_one
    (ts_Conditions
       (ts_Status (fst (run_calls (server_call Demo.quiet) (Demo.calls ++ [Demo.last])%list
                          Demo.new_server Demo.start))))
    "Degraded".
Proof.
  destruct (conditions_exactly_one Demo.quiet Demo.calls Demo.last Demo.start)
    as (H1 & H2 & H3).
  split; [|split].
  - apply (H1 (Demo.item None "" None)). reflexivity.
  - apply (H2 Demo.new_config). reflexivity.
  - apply (H3 Demo.new_server). reflexivity.
Defined.

(** ** C3: a repeated [GetOrCreate] within the TTL window *)

(** C3. Let a call of [GetOrCreate] for a triple return a session. Let
    other pool activity follow (calls for any triples, timers going off,
    sweeps), and let the triple be asked for again while the clock, which
    does not run backwards, is within the TTL of the first call. Then the
    second call returns the same session; it makes no outgoing call (no
    login) and builds no client; in the pool it replaces the entry of the
    key by the same entry with the new last-used instant, and it arms a
    timer for the key. *)
Theorem GetOrCreate_again (env : Env) (url username password : string)
    (w0 w1 : World) (c : Client) (ops : list PoolOp) :
  qbittorrent.GetOrCreate env url username password w0 = (inl c, w1) ->
  (forall a b, (a <= b)%nat -> clock env a <= clock env b) ->
  Sub (clock env (w_tick (snd (run_ops env ops w1)))) (clock env (w_tick w0))
    <= ttl (w_pool w0) ->
  exists e,
    clients (w_pool (snd (run_ops env ops w1)))
      !! qbittorrent.hashCredentials env url username password = Some e /\
    e_client e = c /\
    qbittorrent.GetOrCreate env url username password (snd (run_ops env ops w1)) =
      (inl c,
       mkWorld (S (w_tick (snd (run_ops env ops w1)))) (w_next (snd (run_ops env ops w1)))
         (mkClientPool
            (<[qbittorrent.hashCredentials env url username password :=
                 mkPoolEntry (e_client e) (e_credHash e)
                   (clock env (w_tick (snd (run_ops env ops w1))))]>
               (clients (w_pool (snd (run_ops env ops w1)))))
            (ttl (w_pool (snd (run_ops env ops w1)))))
         (w_timers (snd (run_ops env ops w1))
            ++ [qbittorrent.hashCredentials env url username password])%list
         (w_trace (snd (run_ops env ops w1)))).
Proof.
  intros G Mono Win.
  destruct (GetOrCreate_held env _ _ _ _ _ _ G) as (H1 & T1 & K1).
  pose proof (run_ops_frame env ops w1) as [T2 K2].
  assert (H2 : held (qbittorrent.hashCredentials env url username password) c
                 (clock env (w_tick w0)) (snd (run_ops env ops w1))).
  { apply run_ops_held; [exact H1|]. intros n Hn. split.
    - apply Mono. lia.
    - rewrite K1. etransitivity; [|exact Win]. apply Sub_mono_l, Mono. lia. }
  destruct H2 as (e & L & Hc & Hh & _). exists e. split; [exact L|]. split; [exact Hc|].
  rewrite (GetOrCreate_hit env _ _ _ _ _ L Hh). now rewrite Hc.
Qed.

Lemma GetOrCreate_again_witness :
  fst (qbittorrent.GetOrCreate Demo.quiet Demo.url "admin" "adminadmin"
         (snd (run_ops Demo.quiet Demo.activity
                 (snd (qbittorrent.GetOrCreate Demo.quiet Demo.url "admin" "adminadmin"
                         Demo.start)))))
  = inl (mkClient 0 Demo.url).
Proof.
  destruct (GetOrCreate_again Demo.quiet Demo.url "admin" "adminadmin" Demo.start
              (snd (qbittorrent.GetOrCreate Demo.quiet Demo.url "admin" "adminadmin"
                      Demo.start))
              (mkClient 0 Demo.url) Demo.activity) as (e & _ & _ & E).
  - vm_compute. reflexivity.
  - intros a b H. simpl. lia.
  - vm_compute. discriminate.
  - rewrite E. reflexivity.
Defined.

(** ** C4: the sweep *)

(** C4, as the code has it. A sweep removes an entry exactly when it has
    been idle for more than the TTL: an entry idle for the TTL or less,
    in particular for exactly the TTL, is kept as it is. *)
Theorem Cleanup_evicts_idle_longer (env : Env) (w : World) (k : string) (e : poolEntry) :
  clients (w_pool w) !! k = Some e ->
  (ttl (w_pool w) < Sub (clock env (w_tick w)) (e_lastUsed e) ->
   clients (w_pool (snd (qbittorrent.Cleanup env w))) !! k = None) /\
  (Sub (clock env (w_tick w)) (e_lastUsed e) <= ttl (w_pool w) ->
   clients (w_pool (snd (qbittorrent.Cleanup env w))) !! k = Some e).
Proof.
  intros L. rewrite Cleanup_lookup, L, Z.gtb_ltb. split; intros H.
  - apply Z.ltb_lt in H. now rewrite H.
  - apply Z.ltb_ge in H. now rewrite H.
Qed.

Lemma Cleanup_evicts_idle_longer_witness :
  clients (w_pool (snd (qbittorrent.Cleanup Demo.quiet Demo.idle_world))) !! "k"
  = Some Demo.idle_entry.
Proof.
  apply (Cleanup_evicts_idle_longer Demo.quiet Demo.idle_world "k" Demo.idle_entry).
  - reflexivity.
  - vm_compute. discriminate.
Defined.

(** The claim as stated fails: an entry idle for exactly the TTL (last
    used at 100, swept at 105, TTL 5) is still in the pool after the
    sweep. *)
Lemma Cleanup_keeps_entry_idle_for_ttl :
  clients (w_pool Demo.idle_world) !! "k" = Some Demo.idle_entry /\
  Sub (clock Demo.quiet (w_tick Demo.idle_world)) (e_lastUsed Demo.idle_entry)
    = ttl (w_pool Demo.idle_world) /\
  clients (w_pool (snd (qbittorrent.Cleanup Demo.quiet Demo.idle_world))) !! "k" <> None.
Proof. vm_compute. repeat split; discriminate. Qed.

(** ** C5: a failed login *)

(** C5, as the code has it. When the key misses and the login fails,
    [GetOrCreate] returns an error that wraps the login error, its text
    being "failed to login for credentials[<username>, <password>]
    url[<url>]: " followed by the text of the login error; the pool and
    the armed timers are as before. *)
Theorem GetOrCreate_login_failure (env : Env) (url username password : string)
    (w : World) (err : error) :
  misses (qbittorrent.hashCredentials env url username password) w ->
  q_Login env (w_trace w) (mkClient (w_next w) url) username password = Some err ->
  fst (qbittorrent.GetOrCreate env url username password w) =
    inr (errWrap ("failed to login for credentials[" ++ username ++ ", " ++ password
                    ++ "] url[" ++ url ++ "]: " ++ Error err) err) /\
  w_pool (snd (qbittorrent.GetOrCreate env url username password w)) = w_pool w /\
  w_timers (snd (qbittorrent.GetOrCreate env url username password w)) = w_timers w.
Proof.
  intros Hm Hl. rewrite (GetOrCreate_miss env _ _ _ _ Hm). cbv zeta. rewrite Hl.
  repeat split.
Qed.

Lemma GetOrCreate_login_failure_witness :
  fst (qbittorrent.GetOrCreate Demo.locked Demo.url "admin" "wrong" Demo.start) =
    inr (errWrap "failed to login for credentials[admin, wrong] url[http://qbt:8080]: 401 Unauthorized"
           (errString "401 Unauthorized")) /\
  w_pool (snd (qbittorrent.GetOrCreate Demo.locked Demo.url "admin" "wrong" Demo.start))
    = w_pool Demo.start.
Proof.
  destruct (GetOrCreate_login_failure Demo.locked Demo.url "admin" "wrong" Demo.start
              (errString "401 Unauthorized")) as (E & P & _).
  - vm_compute. exact I.
  - reflexivity.
  - split; [exact E | exact P].
Defined.

(** The claim as stated fails: the login answers "401 Unauthorized", and
    what [GetOrCreate] returns is not that error. *)
Lemma GetOrCreate_error_is_not_the_login_error :
  misses (qbittorrent.hashCredentials Demo.locked Demo.url "admin" "wrong") Demo.start /\
  q_Login Demo.locked (w_trace Demo.start) (mkClient (w_next Demo.start) Demo.url)
    "admin" "wrong" = Some (errString "401 Unauthorized") /\
  fst (qbittorrent.GetOrCreate Demo.locked Demo.url "admin" "wrong" Demo.start)
    <> inr (errString "401 Unauthorized").
Proof. vm_compute. repeat split; discriminate. Qed.

(** ** C1: resolution with an explicit reference *)

(** With an explicit reference that is found, resolution goes on as it
    does without a reference: the object fetched is dropped and the
    namespace is listed. *)
Lemma getQBTClient_ref_found_discovers (env : Env) (torrent : Torrent) (w : World)
    (ref : LocalObjectReference) (found : TorrentClientConfiguration) :
  ClientConfigRef (t_Spec torrent) = Some ref ->
  k_GetTCC env (w_trace w)
    (mkNamespacedName (om_Namespace (t_Meta torrent)) (lor_Name ref)) = inl found ->
  fst (fst (TorrentReconciler.getQBTClient env torrent w)) =
  fst (fst (TorrentReconciler.getQBTClient env
              (mkTorrent (t_Meta torrent)
                 (mkTorrentSpec (MagnetURI (t_Spec torrent)) None
                    (DeleteFilesOnRemoval (t_Spec torrent)))
                 (t_Status torrent))
              (add_event w (EvGetTCC (mkNamespacedName (om_Namespace (t_Meta torrent))
                                        (lor_Name ref)))))).
Proof.
  intros R G.
  unfold TorrentReconciler.getQBTClient, bind, ret, r_Get_TCC, r_List_TCC, r_Get_Secret,
    call, add_event.
  rewrite R. cbn [ClientConfigRef t_Spec t_Meta]. rewrite G.
  repeat (case_step; wsimpl); reflexivity.
Qed.

(** So a reference that is found does not keep resolution from failing
    on a namespace that holds a second configuration. *)
Lemma getQBTClient_ref_found_multiple (env : Env) (torrent : Torrent) (w : World)
    (ref : LocalObjectReference) (found first second : TorrentClientConfiguration)
    (rest : list TorrentClientConfiguration) :
  ClientConfigRef (t_Spec torrent) = Some ref ->
  k_GetTCC env (w_trace w)
    (mkNamespacedName (om_Namespace (t_Meta torrent)) (lor_Name ref)) = inl found ->
  k_ListTCC env
    (w_trace w ++ [EvGetTCC (mkNamespacedName (om_Namespace (t_Meta torrent))
                               (lor_Name ref))])%list
    (om_Namespace (t_Meta torrent)) = inl (first :: second :: rest) ->
  fst (TorrentReconciler.getQBTClient env torrent w) =
    (inr (errString ("multiple TorrentClientConfigurations found in namespace "
                       ++ om_Namespace (t_Meta torrent)
                       ++ "; set spec.clientConfigRef to select one")),
     torrent).
Proof.
  intros R G L.
  unfold TorrentReconciler.getQBTClient, bind, ret, r_Get_TCC, r_List_TCC, call.
  rewrite R. wsimpl. rewrite G. wsimpl. rewrite L. reflexivity.
Qed.

(** C1, where the code departs from it. The work item names "tcc-a",
    which exists and is available; "tcc-b" exists in the namespace too.
    Resolution does not select "tcc-a": it falls through to the listing of
    the namespace and fails on the two configurations it finds there. *)
Theorem getQBTClient_explicit_reference_two_configs :
  k_GetTCC Demo.two_configs [] (Demo.key "tcc-a") = inl (Demo.config "tcc-a") /\
  available (Demo.config "tcc-a") /\
  fst (TorrentReconciler.getQBTClient Demo.two_configs (Demo.item (Some "tcc-a") "" None)
         Demo.start) =
    (inr (errString "multiple TorrentClientConfigurations found in namespace default; set spec.clientConfigRef to select one"),
     Demo.item (Some "tcc-a") "" None).
Proof.
  split; [reflexivity|]. split.
  - exists Demo.availableNow. split; reflexivity.
  - apply (getQBTClient_ref_found_multiple Demo.two_configs
             (Demo.item (Some "tcc-a") "" None) Demo.start
             (mkLocalObjectReference "tcc-a") (Demo.config "tcc-a")
             (Demo.config "tcc-a") (Demo.config "tcc-b") []); reflexivity.
Qed.

(** ** Witnesses of the reconciler theorems *)

Lemma handleDeletion_outcomes_witness :
  finalizer_removed Demo.quiet (Demo.item None "" (Some 7)) Demo.start
    (TorrentReconciler.handleDeletion Demo.quiet (Demo.item None "" (Some 7)) Demo.start) /\
  fst (fst (TorrentReconciler.handleDeletion Demo.failing_delete Demo.doomed Demo.start))
    = (requeueAfter (10 * Second), None) /\
  om_Finalizers
    (t_Meta (snd (fst (TorrentReconciler.handleDeletion Demo.failing_delete Demo.doomed
                         Demo.start))))
    = [TorrentFinalizer].
Proof.
  split.
  - apply (handleDeletion_outcomes Demo.quiet (Demo.item None "" (Some 7)) Demo.start).
    reflexivity.
  - destruct (handleDeletion_outcomes Demo.failing_delete Demo.doomed Demo.start)
      as [_ H].
    destruct (H ltac:(discriminate)
                (fst (fst (TorrentReconciler.getQBTClient Demo.failing_delete Demo.doomed
                             Demo.start)))
                (snd (fst (TorrentReconciler.getQBTClient Demo.failing_delete Demo.doomed
                             Demo.start)))
                (snd (TorrentReconciler.getQBTClient Demo.failing_delete Demo.doomed
                        Demo.start))
                ltac:(vm_compute; reflexivity))
      as (Fin & _ & B).
    vm_compute in B. destruct B as (t2 & w3 & _ & Out & _ & _ & _ & Keep).
    vm_compute. vm_compute in Keep. injection Out as <- _. split; [reflexivity|].
    exact Keep.
Defined.

Lemma Reconcile_error_policy_witness :
  (exists cs n,
      TorrentReconciler.Reconcile Demo.quiet Demo.request Demo.start =
        ((requeueAfter (15 * Second), None),
         add_event (mkWorld n 0 (NewClientPool (300 * Second)) []
                      [EvGetTorrent Demo.request; EvListTCC "default"])
           (EvStatusUpdateTorrent
              (set_Status (Demo.item None "" None)
                 (set_Conditions (t_Status (Demo.item None "" None)) cs)))) /\
      has_condition cs "Degraded" "ClientResolutionFailed"
        "no TorrentClientConfiguration found in namespace default" /\
      lacks_condition cs "Available") /\
  TorrentReconciler.Reconcile Demo.one_config_unmarked Demo.request Demo.start =
    ((emptyResult, Some (errString "'btih:' not found")),
     snd (TorrentReconciler.getQBTClient Demo.one_config_unmarked Demo.unmarked Demo.loaded)).
Proof.
  split.
  - apply (Reconcile_error_policy Demo.quiet Demo.request Demo.start (Demo.item None "" None)
             eq_refl (conj eq_refl eq_refl)
             (inr (errString "no TorrentClientConfiguration found in namespace default"))
             (Demo.item None "" None)
             (mkWorld 0 0 (NewClientPool (300 * Second)) []
                [EvGetTorrent Demo.request; EvListTCC "default"])).
    vm_compute. reflexivity.
  - apply (Reconcile_error_policy Demo.one_config_unmarked Demo.request Demo.start
             Demo.unmarked eq_refl (conj eq_refl eq_refl)
             (inl (mkClient 0 Demo.url))
             (snd (fst (TorrentReconciler.getQBTClient Demo.one_config_unmarked
                          Demo.unmarked Demo.loaded)))
             (snd (TorrentReconciler.getQBTClient Demo.one_config_unmarked Demo.unmarked
                     Demo.loaded))).
    + vm_compute. reflexivity.
    + reflexivity.
Defined.

Lemma configuration_name_recorded_witness :
  fst (fst (TorrentReconciler.getQBTClient Demo.one_config_locked (Demo.item None "" None)
              Demo.loaded))
    = inr (errWrap "failed to login for credentials[admin, adminadmin] url[http://qbt:8080]: 401 Unauthorized"
             (errString "401 Unauthorized")) /\
  ClientConfigurationName
    (t_Status (snd (fst (TorrentReconciler.getQBTClient Demo.one_config_locked
                           (Demo.item None "" None) Demo.loaded))))
    = "tcc-a" /\
  exists t',
    In (EvStatusUpdateTorrent t')
      (w_trace (snd (TorrentReconciler.Reconcile Demo.one_config_locked Demo.request
                       Demo.start))) /\
    ClientConfigurationName (t_Status t') = "tcc-a".
Proof.
  split; [vm_compute; reflexivity|].
  destruct (configuration_name_recorded Demo.one_config_locked Demo.request Demo.start
              (Demo.item None "" None) (Demo.config "tcc-a")
              eq_refl (conj eq_refl eq_refl) eq_refl
              (ex_intro _ Demo.availableNow (conj eq_refl eq_refl)))
    as (N & evs & X & All & Some_write).
  split; [exact N|].
  destruct Some_write as [t' Ht'].
  - left. eexists. vm_compute. reflexivity.
  - exists t'. split; [|exact (All t' Ht')].
    unfold extends in X. rewrite X. exact Ht'.
Defined.

Lemma configuration_status_written_witness :
  exists written,
    status_written Demo.one_config Demo.start
      (snd (TorrentClientConfigurationReconciler.Reconcile Demo.one_config
              (Demo.key "tcc-a") Demo.start))
      written /\
    tcc_connected written.
Proof.
  destruct (configuration_status_written Demo.one_config (Demo.key "tcc-a") Demo.start
              (Demo.config "tcc-a") eq_refl)
    as (written & S & _ & B).
  exists written. split; [exact S|]. exact B.
Defined.

(** * Further properties of the code *)

(** ** Identifier extraction, read from the result *)

Lemma GetTorrentHash_cases (uri : string) :
  match GetTorrentHash uri with
  | inl h =>
      exists pre post,
        first_marker uri pre (h ++ post) /\ no_amp h /\ h ++ post <> "" /\
        (post = "" \/ exists rest, post = "&" ++ rest)
  | inr err =>
      (err = errString "'btih:' not found" /\
       forall pre post, uri <> pre ++ "btih:" ++ post) \/
      (err = errString "no hash after 'btih:'" /\ exists pre, first_marker uri pre "")
  end.
Proof.
  destruct (Z.eq_dec (GoStrings.Index uri "btih:") (-1)) as [E|E].
  - pose proof (Index_absent _ _ E) as A.
    rewrite (GetTorrentHash_no_marker uri A). left. auto.
  - destruct (Index_found _ _ E) as (pre & post & Hu & _ & Hmin).
    assert (F : first_marker uri pre post) by (split; assumption).
    destruct (string_dec post "") as [->|Hne].
    + rewrite (GetTorrentHash_nothing_after uri pre F). right. eauto.
    + destruct (GetTorrentHash_after uri pre post F Hne) as (h & -> & Na & [P|[rest P]]).
      * exists pre, "". rewrite append_nil_r. subst post. auto.
      * exists pre, ("&" ++ rest). rewrite <- P. repeat split; eauto.
Qed.

(** Whatever [GetTorrentHash] returns tells how the descriptor is made.
    An identifier [h] is returned only when the first marker is followed
    by [h] and then by the end of the descriptor or by '&'; [h] holds no
    '&'. The first error is returned only when the marker does not occur,
    the second only when the descriptor ends with its first marker. *)
Theorem GetTorrentHash_inversion (uri : string) :
  match GetTorrentHash uri with
  | inl h =>
      exists pre post,
        first_marker uri pre (h ++ post) /\ no_amp h /\ h ++ post <> "" /\
        (post = "" \/ exists rest, post = "&" ++ rest)
  | inr err =>
      (err = errString "'btih:' not found" /\
       forall pre post, uri <> pre ++ "btih:" ++ post) \/
      (err = errString "no hash after 'btih:'" /\ exists pre, first_marker uri pre "")
  end.
Proof. exact (GetTorrentHash_cases uri). Qed.

(** The identifier returned can be empty: it is, exactly when '&'
    directly follows the first marker. No error is reported then. *)
Theorem GetTorrentHash_empty_identifier (uri : string) :
  GetTorrentHash uri = inl "" <->
  exists pre rest, first_marker uri pre ("&" ++ rest).
Proof.
  split.
  - intros H. pose proof (GetTorrentHash_cases uri) as I. rewrite H in I.
    destruct I as (pre & post & F & _ & Hne & [->|[rest ->]]).
    + now destruct Hne.
    + exists pre, rest. exact F.
  - intros (pre & rest & F).
    destruct (GetTorrentHash_after uri pre ("&" ++ rest) F) as (h & E & Na & P).
    + str_simpl. discriminate.
    + rewrite E. f_equal.
      destruct h as [|c h]; [reflexivity|]. exfalso.
      destruct P as [P|[r P]]; str_simpl; injection P as <- P.
      * apply (Na "" h). reflexivity.
      * apply (Na "" h). reflexivity.
Qed.

Lemma GetTorrentHash_empty_identifier_witness :
  GetTorrentHash "magnet:?xt=urn:btih:&dn=x" = inl "".
Proof.
  apply (GetTorrentHash_empty_identifier "magnet:?xt=urn:btih:&dn=x").
  exists "magnet:?xt=urn:", "dn=x". apply first_marker_Index; reflexivity.
Defined.

(** ** Synchronisation of the observed fields *)

Section SyncFacts.

Import TorrentReconciler.

Lemma sync_string (a b : string) : (if negb (String.eqb a b) then b else a) = b.
Proof. destruct (String.eqb_spec a b); simpl; congruence. Qed.

Lemma sync_Z (a b : Z) : (if negb (a =? b) then b else a) = b.
Proof. destruct (Z.eqb_spec a b); simpl; congruence. Qed.

(** What [updateTorrentStatus] leaves behind the pointer. *)
Lemma updateTorrentStatus_fst (torrent : Torrent) (info : TorrentInfo) :
  fst (updateTorrentStatus torrent info) =
    set_Status torrent
      (mkTorrentStatus (ti_ContentPath info) (ti_AddedOn info) (ti_State info)
         (ti_TotalSize info) (ti_Name info) (ti_TimeActive info) (ti_AmountLeft info)
         (ti_Hash info) (ClientConfigurationName (t_Status torrent))
         (Conditions (t_Status torrent))).
Proof.
  unfold updateTorrentStatus. cbn [fst]. now rewrite !sync_string, !sync_Z.
Qed.

Lemma updateTorrentStatus_snd (torrent : Torrent) (info : TorrentInfo) :
  snd (updateTorrentStatus torrent info) = false <-> observed torrent info.
Proof.
  unfold updateTorrentStatus, observed. cbn [snd].
  rewrite !orb_false_iff, !negb_false_iff, !String.eqb_eq, !Z.eqb_eq. tauto.
Qed.

(** [updateTorrentStatus] copies the eight observed fields from the
    remote engine's report and leaves the rest of the work item (metadata,
    spec, recorded configuration name, conditions) as it was. It reports a
    change exactly when one of the eight fields differed; when none did the
    work item is returned as it was. Applied again with the same report
    it reports no change. *)
Theorem updateTorrentStatus_sync (torrent : Torrent) (info : TorrentInfo) :
  let synced := fst (updateTorrentStatus torrent info) in
  let updated := snd (updateTorrentStatus torrent info) in
  observed synced info /\
  t_Meta synced = t_Meta torrent /\ t_Spec synced = t_Spec torrent /\
  ClientConfigurationName (t_Status synced) = ClientConfigurationName (t_Status torrent) /\
  Conditions (t_Status synced) = Conditions (t_Status torrent) /\
  (updated = false <-> observed torrent info) /\
  (updated = false -> synced = torrent) /\
  updateTorrentStatus synced info = (synced, false).
Proof.
  cbv zeta. rewrite updateTorrentStatus_fst.
  split; [repeat split|]. repeat (split; [reflexivity|]).
  split; [apply updateTorrentStatus_snd|]. split.
  - intros U. apply updateTorrentStatus_snd in U.
    destruct U as (H1 & H2 & H3 & H4 & H5 & H6 & H7 & H8).
    destruct torrent as [m s st]. destruct st. unfold set_Status. cbn in *.
    rewrite <- H1, <- H2, <- H3, <- H4, <- H5, <- H6, <- H7, <- H8. reflexivity.
  - apply injective_projections.
    + rewrite updateTorrentStatus_fst. reflexivity.
    + apply updateTorrentStatus_snd. repeat split.
Qed.

End SyncFacts.

(** ** The life of a work item *)

Section LifeFacts.

Import TorrentReconciler.
Context (env : Env).

Lemma GetOrCreate_resolution (url username password : string) (w : World) :
  exists evs, extends w (snd (qbittorrent.GetOrCreate env url username password w)) evs /\
              Forall (fun ev => is_resolution ev = true) evs.
Proof.
  unfold extends.
  destruct (hit_or_miss (qbittorrent.hashCredentials env url username password) w)
    as [(e & L & C)|Hm].
  - rewrite (GetOrCreate_hit env _ _ _ _ _ L C). exists []. wsimpl.
    now rewrite app_nil_r.
  - rewrite (GetOrCreate_miss env _ _ _ _ Hm). cbv zeta.
    destruct (q_Login env (w_trace w) _ username password); wsimpl;
      eexists; (split; [reflexivity|]); repeat constructor.
Qed.

(** The calls of resolution are reads of the API server and at most a
    login. *)
Lemma getQBTClient_resolution (torrent : Torrent) (w : World) :
  exists evs, extends w (snd (getQBTClient env torrent w)) evs /\
              Forall (fun ev => is_resolution ev = true) evs.
Proof.
  unfold getQBTClient, extends, bind, ret, r_Get_TCC, r_List_TCC, r_Get_Secret, call.
  repeat (case_step; wsimpl);
    try match goal with
      | H : qbittorrent.GetOrCreate env ?u ?n ?p ?w0 = _ |- _ =>
          destruct (GetOrCreate_resolution u n p w0) as (evs0 & X & F);
          rewrite H in X; unfold extends in X; wsimpl; rewrite X
      end;
    wsimpl; rewrite <- ?app_assoc;
    eexists; (split; [reflexivity|]);
    repeat (apply Forall_app; split); repeat constructor; try assumption.
Qed.

Lemma resolution_calls (evs : list Event) :
  Forall (fun ev => is_resolution ev = true) evs ->
  Forall (fun ev => is_remote_delete ev = false) evs /\
  Forall (fun ev => is_remote_sync ev = false) evs /\
  Forall (fun ev => is_update ev = false) evs.
Proof.
  intros F. repeat split; eapply Forall_impl; try exact F;
    intros [] H; simpl in *; congruence.
Qed.

Lemma getQBTClient_spec_kept (torrent : Torrent) (w : World) :
  t_Spec (snd (fst (getQBTClient env torrent w))) = t_Spec torrent /\
  t_Meta (snd (fst (getQBTClient env torrent w))) = t_Meta torrent /\
  Hash (t_Status (snd (fst (getQBTClient env torrent w)))) = Hash (t_Status torrent).
Proof.
  destruct (getQBTClient_frame env torrent w) as [[->|[n ->]] _]; repeat split.
Qed.

Lemma contains_app_new (fs : list string) (f : string) :
  controllerutil.contains (fs ++ [f])%list f = true.
Proof.
  induction fs as [|x fs IH]; simpl.
  - now rewrite String.eqb_refl.
  - destruct (String.eqb x f); [reflexivity | exact IH].
Qed.

Lemma without_app_new (fs : list string) (f : string) :
  controllerutil.contains fs f = false ->
  controllerutil.without (fs ++ [f])%list f = fs.
Proof.
  induction fs as [|x fs IH]; simpl.
  - now rewrite String.eqb_refl.
  - destruct (String.eqb x f); [discriminate|]. intros H. now rewrite IH.
Qed.

(** The first reconcile of a work item that is not being deleted and
    does not carry the finalizer: the finalizer is appended and the object
    written back, which is the one call made after the load; when the
    write succeeds a re-queue after one second is returned, otherwise the
    error of the write. Nothing else of the object changes, the item
    written is in its steady state, and taking the finalizer off again, as
    deletion does, gives back the object as it was loaded. *)
Theorem Reconcile_adds_finalizer (req : NamespacedName) (w : World) (torrent : Torrent) :
  k_GetTorrent env (w_trace w) req = inl torrent ->
  IsZeroPtr (om_DeletionTimestamp (t_Meta torrent)) = true ->
  controllerutil.ContainsFinalizer torrent TorrentFinalizer = false ->
  let marked :=
    set_Finalizers torrent (om_Finalizers (t_Meta torrent) ++ [TorrentFinalizer])%list in
  let w1 := add_event w (EvGetTorrent req) in
  Reconcile env req w =
    (match k_UpdateTorrent env (w_trace w1) marked with
     | Some err => (emptyResult, Some err)
     | None => (requeueAfter (1 * Second), None)
     end,
     add_event w1 (EvUpdateTorrent marked)) /\
  steady marked /\
  controllerutil.RemoveFinalizer marked TorrentFinalizer = torrent.
Proof.
  intros G Z F. cbv zeta. split; [|split].
  - unfold Reconcile, bind at 1, r_Get_Torrent, call. rewrite G, Z, F. cbn [negb].
    unfold controllerutil.AddFinalizer.
    unfold controllerutil.ContainsFinalizer in F. rewrite F.
    unfold bind, r_Update, call, ret, add_event. wsimpl.
    destruct (k_UpdateTorrent env _ _); reflexivity.
  - split; [exact Z|]. apply contains_app_new.
  - unfold controllerutil.RemoveFinalizer, controllerutil.ContainsFinalizer in *.
    destruct torrent as [[name ns dt fs] sp st].
    unfold set_Finalizers. cbn [t_Meta t_Spec t_Status om_Name om_Namespace
                                 om_DeletionTimestamp om_Finalizers] in *.
    now rewrite without_app_new.
Qed.

End LifeFacts.

Lemma Reconcile_adds_finalizer_witness :
  TorrentReconciler.Reconcile Demo2.fresh_cluster Demo.request Demo.start =
    ((requeueAfter (1 * Second), None),
     add_event (add_event Demo.start (EvGetTorrent Demo.request))
       (EvUpdateTorrent (Demo.item None "" None))).
Proof.
  destruct (Reconcile_adds_finalizer Demo2.fresh_cluster Demo.request Demo.start Demo2.fresh
              eq_refl eq_refl eq_refl) as (E & _ & _).
  rewrite E. reflexivity.
Defined.

(** ** Steady-state reconciliation with a session *)

(** Case analysis on the innermost scrutinee of a hypothesis. *)
Ltac case_step_in H :=
  match type of H with
  | context [match ?x with _ => _ end] =>
      lazymatch x with
      | context [match _ with _ => _ end] => fail
      | _ => destruct x eqn:?
      end
  end.

Section RemoteFacts.

Import TorrentReconciler.
Context (env : Env).

(** Steady-state reconciliation once resolution has returned a session
    and the descriptor an identifier [h]; the remote engine is asked for
    [h]. If the query fails, a Degraded condition with reason
    FailedToGetTorrentInfo is written and the reconcile is re-queued after
    ten seconds. If the engine does not know [h], the descriptor is handed
    to it: on success an Available condition with reason TorrentAdded is
    written and the re-queue is after five seconds, on failure a Degraded
    condition with reason FailedToAddTorrent and ten seconds. If the engine
    knows [h], the observed fields are copied; when one of them changed the
    status is written, and a failure of that write ends the reconcile with
    its error; otherwise an Available condition with reason TorrentActive
    is written and the re-queue is after fifteen seconds. The write that
    carries a condition never fails the reconcile. *)
Theorem Reconcile_remote_outcomes (req : NamespacedName) (w : World) (torrent : Torrent)
    (c : Client) (t1 : Torrent) (w1 : World) (h : string) :
  k_GetTorrent env (w_trace w) req = inl torrent -> steady torrent ->
  getQBTClient env torrent (add_event w (EvGetTorrent req)) = (inl c, t1, w1) ->
  GetTorrentHash (MagnetURI (t_Spec torrent)) = inl h ->
  let out := Reconcile env req w in
  let w2 := add_event w1 (EvGetTorrentInfo c h) in
  match q_GetTorrentInfo env (w_trace w1) c h with
  | inr err =>
      condition_written w2 t1 "Degraded" "Available" "FailedToGetTorrentInfo" (Error err)
        (10 * Second) out
  | inl None =>
      let w3 := add_event w2 (EvAddTorrent c (MagnetURI (t_Spec torrent))) in
      match q_AddTorrent env (w_trace w2) c (MagnetURI (t_Spec torrent)) with
      | Some err =>
          condition_written w3 t1 "Degraded" "Available" "FailedToAddTorrent" (Error err)
            (10 * Second) out
      | None =>
          condition_written w3 t1 "Available" "Degraded" "TorrentAdded"
            "Torrent added to qBittorrent" (5 * Second) out
      end
  | inl (Some info) =>
      let t2 := fst (updateTorrentStatus t1 info) in
      if snd (updateTorrentStatus t1 info) then
        let w3 := add_event w2 (EvStatusUpdateTorrent t2) in
        match k_StatusUpdateTorrent env (w_trace w2) t2 with
        | Some err => out = ((emptyResult, Some err), w3)
        | None =>
            condition_written w3 t2 "Available" "Degraded" "TorrentActive"
              "Torrent is active on qBittorrent" (15 * Second) out
        end
      else
        condition_written w2 t2 "Available" "Degraded" "TorrentActive"
          "Torrent is active on qBittorrent" (15 * Second) out
  end.
Proof.
  intros G St R P. cbv zeta. rewrite (Reconcile_steady env req w torrent G St).
  pose proof (getQBTClient_spec_kept env torrent (add_event w (EvGetTorrent req)))
    as (Sp & _ & _).
  rewrite R in Sp. cbn [fst snd] in Sp.
  assert (D : forall t w0 reason message d,
             condition_written w0 t "Degraded" "Available" reason message d
               ((torrent <- setDegradedCondition env t reason message ;;
                 _ <- r_Status_Update env torrent ;;
                 ret (requeueAfter d, None)) w0)).
  { intros t w0 reason message d.
    destruct (torrent_setDegraded_run env t reason message w0)
      as (cs & n & E & Hc & Hl & Hn).
    exists cs, n. unfold bind, r_Status_Update, call, ret. cbv beta. rewrite E. auto. }
  assert (A : forall t w0 reason message d,
             condition_written w0 t "Available" "Degraded" reason message d
               ((torrent <- setAvailableCondition env t reason message ;;
                 _ <- r_Status_Update env torrent ;;
                 ret (requeueAfter d, None)) w0)).
  { intros t w0 reason message d.
    destruct (torrent_setAvailable_run env t reason message w0)
      as (cs & n & E & Hc & Hl & Hn).
    exists cs, n. unfold bind, r_Status_Update, call, ret. cbv beta. rewrite E. auto. }
  unfold add_event in *. wsimpl.
  destruct (q_GetTorrentInfo env (w_trace w1) c h) as [[info|]|err] eqn:Q.
  - destruct (updateTorrentStatus t1 info) as [t2 updated] eqn:U. cbn [fst snd].
    destruct updated.
    + destruct (k_StatusUpdateTorrent env _ t2) as [uerr|] eqn:K;
        unfold steady_run, bind at 1; rewrite R, Sp, P;
        unfold bind at 1, GetTorrentInfo, call; cbv beta; rewrite Q, U;
        unfold bind at 1, r_Status_Update at 1, call at 1; cbv beta; wsimpl; rewrite K;
        [reflexivity | apply A].
    + unfold steady_run, bind at 1. rewrite R, Sp, P.
      unfold bind at 1, GetTorrentInfo, call. cbv beta. rewrite Q, U.
      unfold bind at 1, ret at 1. apply A.
  - destruct (q_AddTorrent env _ c (MagnetURI (t_Spec torrent))) as [aerr|] eqn:K;
      unfold steady_run, bind at 1; rewrite R, Sp, P;
      unfold bind at 1, GetTorrentInfo, call; cbv beta; rewrite Q;
      unfold bind at 1, AddTorrent, call; cbv beta; wsimpl; rewrite K;
      [apply D | apply A].
  - unfold steady_run, bind at 1. rewrite R, Sp, P.
    unfold bind at 1, GetTorrentInfo, call. cbv beta. rewrite Q. apply D.
Qed.

(** What a reconcile never asks of the remote engine. For a work item
    that is not being deleted, no call removes a torrent from the engine;
    for one in its steady state, moreover, the object itself is never
    written, only its status. For a work item that is being deleted, no
    call looks a torrent up on the engine or hands it one. *)
Theorem Reconcile_remote_safety (req : NamespacedName) (w : World) (torrent : Torrent) :
  k_GetTorrent env (w_trace w) req = inl torrent ->
  exists evs,
    extends w (snd (Reconcile env req w)) evs /\
    (IsZeroPtr (om_DeletionTimestamp (t_Meta torrent)) = true ->
     Forall (fun ev => is_remote_delete ev = false) evs) /\
    (steady torrent -> Forall (fun ev => is_update ev = false) evs) /\
    (IsZeroPtr (om_DeletionTimestamp (t_Meta torrent)) = false ->
     Forall (fun ev => is_remote_sync ev = false) evs).
Proof.
  intros G. unfold extends.
  destruct (IsZeroPtr (om_DeletionTimestamp (t_Meta torrent))) eqn:Z.
  - destruct (controllerutil.ContainsFinalizer torrent TorrentFinalizer) eqn:F.
    + rewrite (Reconcile_steady env req w torrent G (conj Z F)).
      destruct (getQBTClient_resolution env torrent (add_event w (EvGetTorrent req)))
        as (evs0 & X & R).
      destruct (resolution_calls evs0 R) as (R1 & R2 & R3).
      unfold steady_run, bind at 1.
      destruct (getQBTClient env torrent (add_event w (EvGetTorrent req)))
        as [[res t1] w1].
      unfold extends, add_event in X. wsimpl.
      destruct res as [c|err].
      * destruct (GetTorrentHash (MagnetURI (t_Spec t1))) as [h|perr].
        -- unfold bind at 1, GetTorrentInfo, call. cbv beta.
           destruct (q_GetTorrentInfo env (w_trace w1) c h) as [[info|]|ierr].
           ++ destruct (updateTorrentStatus t1 info) as [t2 updated].
              unfold bind at 1.
              destruct updated; unfold r_Status_Update at 1, call at 1; cbv beta;
                [destruct (k_StatusUpdateTorrent env _ t2) as [uerr|]|];
                run_setters env; wsimpl; rewrite X, <- !app_assoc;
                (eexists; split; [reflexivity|]);
                (split; [intros _|split; [intros _|discriminate]]);
                constructor; try reflexivity;
                repeat (apply Forall_app; split); try assumption; repeat constructor.
           ++ unfold bind at 1, AddTorrent, call. cbv beta.
              destruct (q_AddTorrent env _ c _) as [aerr|];
                run_setters env; wsimpl; rewrite X, <- !app_assoc;
                (eexists; split; [reflexivity|]);
                (split; [intros _|split; [intros _|discriminate]]);
                constructor; try reflexivity;
                repeat (apply Forall_app; split); try assumption; repeat constructor.
           ++ run_setters env; wsimpl; rewrite X, <- !app_assoc;
                (eexists; split; [reflexivity|]);
                (split; [intros _|split; [intros _|discriminate]]);
                constructor; try reflexivity;
                repeat (apply Forall_app; split); try assumption; repeat constructor.
        -- unfold ret. wsimpl. rewrite X, <- !app_assoc.
           (eexists; split; [reflexivity|]);
             (split; [intros _|split; [intros _|discriminate]]);
             constructor; try reflexivity; assumption.
      * run_setters env; wsimpl; rewrite X, <- !app_assoc;
          (eexists; split; [reflexivity|]);
          (split; [intros _|split; [intros _|discriminate]]);
          constructor; try reflexivity;
          repeat (apply Forall_app; split); try assumption; repeat constructor.
    + unfold Reconcile, bind at 1, r_Get_Torrent, call. rewrite G, Z, F. cbn [negb].
      unfold bind, r_Update, call, ret. cbv beta.
      destruct (k_UpdateTorrent env _ _); wsimpl; rewrite <- !app_assoc;
        (eexists; split; [reflexivity|]);
        (split; [intros _; repeat constructor|]);
        (split; [intros [_ F']; congruence | discriminate]).
  - unfold Reconcile, bind at 1, r_Get_Torrent, call. rewrite G, Z. cbn [negb]. cbv beta.
    fold (add_event w (EvGetTorrent req)).
    unfold bind at 1, handleDeletion.
    destruct (negb (String.eqb (Hash (t_Status torrent)) "")).
    + destruct (getQBTClient_resolution env torrent (add_event w (EvGetTorrent req)))
        as (evs0 & X & R).
      destruct (resolution_calls evs0 R) as (R1 & R2 & R3).
      unfold bind at 1.
      destruct (getQBTClient env torrent (add_event w (EvGetTorrent req)))
        as [[res t1] w1].
      unfold extends, add_event in X. wsimpl.
      destruct res as [c|err].
      * unfold bind at 1, DeleteTorrent, call. cbv beta.
        destruct (q_DeleteTorrent env _ c _ _) as [derr|].
        -- run_setters env. wsimpl. rewrite X, <- !app_assoc.
           eexists. split; [reflexivity|].
           split; [discriminate|]. split; [intros [? _]; congruence | intros _].
           constructor; [reflexivity|].
           repeat (apply Forall_app; split); try assumption; repeat constructor.
        -- unfold bind, r_Update, call, ret. cbv beta.
           destruct (k_UpdateTorrent env _ _); wsimpl; rewrite X, <- !app_assoc;
             (eexists; split; [reflexivity|]);
             (split; [discriminate|]); (split; [intros [? _]; congruence | intros _]);
             (constructor; [reflexivity|]);
             repeat (apply Forall_app; split); try assumption; repeat constructor.
      * unfold bind, r_Update, call, ret. cbv beta.
        destruct (k_UpdateTorrent env _ _); wsimpl; rewrite X, <- !app_assoc;
          (eexists; split; [reflexivity|]);
          (split; [discriminate|]); (split; [intros [? _]; congruence | intros _]);
          (constructor; [reflexivity|]);
          repeat (apply Forall_app; split); try assumption; repeat constructor.
    + unfold bind, r_Update, call, ret, add_event. cbv beta.
      destruct (k_UpdateTorrent env _ _); wsimpl; rewrite <- !app_assoc;
        (eexists; split; [reflexivity|]);
        (split; [discriminate|]); (split; [intros [? _]; congruence | intros _]);
        repeat constructor.
Qed.

End RemoteFacts.

Lemma Reconcile_remote_outcomes_witness :
  condition_written
    (add_event
       (add_event
          (snd (TorrentReconciler.getQBTClient Demo.one_config (Demo.item None "" None)
                  Demo.loaded))
          (EvGetTorrentInfo (mkClient 0 Demo.url) "ABCD"))
       (EvAddTorrent (mkClient 0 Demo.url) "magnet:?xt=urn:btih:ABCD&dn=x"))
    (snd (fst (TorrentReconciler.getQBTClient Demo.one_config (Demo.item None "" None)
                 Demo.loaded)))
    "Available" "Degraded" "TorrentAdded" "Torrent added to qBittorrent" (5 * Second)
    (TorrentReconciler.Reconcile Demo.one_config Demo.request Demo.start).
Proof.
  exact (Reconcile_remote_outcomes Demo.one_config Demo.request Demo.start
           (Demo.item None "" None) (mkClient 0 Demo.url)
           (snd (fst (TorrentReconciler.getQBTClient Demo.one_config
                        (Demo.item None "" None) Demo.loaded)))
           (snd (TorrentReconciler.getQBTClient Demo.one_config (Demo.item None "" None)
                   Demo.loaded))
           "ABCD" eq_refl (conj eq_refl eq_refl) eq_refl eq_refl).
Defined.

Lemma Reconcile_remote_safety_witness :
  exists evs,
    extends Demo.start
      (snd (TorrentReconciler.Reconcile Demo.one_config Demo.request Demo.start)) evs /\
    Forall (fun ev => is_remote_delete ev = false) evs /\
    Forall (fun ev => is_update ev = false) evs.
Proof.
  destruct (Reconcile_remote_safety Demo.one_config Demo.request Demo.start
              (Demo.item None "" None) eq_refl) as (evs & X & L & S & _).
  exists evs. split; [exact X|]. split.
  - apply L. reflexivity.
  - apply S. split; reflexivity.
Defined.

(** ** Where a session comes from *)

Section SourceFacts.

Import TorrentReconciler.
Context (env : Env).

(** Resolution returns a session only along one path: an explicit
    reference, if any, was fetched; the namespace then listed exactly one
    configuration, which carries a true Available condition; its name was
    recorded on the work item; its secret was fetched; and the session is
    what the pool returned for the endpoint of that configuration and the
    two values of the secret, a missing key of the secret being read as the
    empty string. *)
Theorem getQBTClient_session_source (torrent : Torrent) (w : World) (c : Client) :
  fst (fst (getQBTClient env torrent w)) = inl c ->
  let namespace := om_Namespace (t_Meta torrent) in
  let w0 :=
    match ClientConfigRef (t_Spec torrent) with
    | Some ref => add_event w (EvGetTCC (mkNamespacedName namespace (lor_Name ref)))
    | None => w
    end in
  let w1 := add_event w0 (EvListTCC namespace) in
  exists tcc secret,
    (forall ref, ClientConfigRef (t_Spec torrent) = Some ref ->
                 exists found,
                   k_GetTCC env (w_trace w) (mkNamespacedName namespace (lor_Name ref))
                     = inl found) /\
    k_ListTCC env (w_trace w0) namespace = inl [tcc] /\ available tcc /\
    snd (fst (getQBTClient env torrent w)) =
      set_Status torrent
        (set_ClientConfigurationName (t_Status torrent) (om_Name (tcc_Meta tcc))) /\
    let key :=
      mkNamespacedName (om_Namespace (tcc_Meta tcc))
        (sr_Name (CredentialsSecret (tcc_Spec tcc))) in
    k_GetSecret env (w_trace w1) key = inl secret /\
    fst (qbittorrent.GetOrCreate env (URL (tcc_Spec tcc))
           (secret_string secret "username") (secret_string secret "password")
           (add_event w1 (EvGetSecret key))) = inl c.
Proof.
  cbv zeta.
  unfold getQBTClient, bind, ret, r_Get_TCC, r_List_TCC, r_Get_Secret, call, add_event.
  intros H.
  repeat (case_step_in H; wsimpl; try discriminate);
    match goal with
    | E : negb (String.eqb (c_Status ?c0) ConditionTrue) = false |- _ =>
        apply negb_false_iff, String.eqb_eq in E
    end;
    (eexists _, _; split; [intros ? [= <-]; eauto || intros ? [=] |]);
    (split; [reflexivity|]); (split; [eexists; split; eassumption|]);
    (split; [reflexivity|]); (split; [eassumption|]);
    match goal with
    | E : qbittorrent.GetOrCreate _ _ _ _ _ = _ |- _ => rewrite E; exact H
    end.
Qed.

End SourceFacts.

Lemma getQBTClient_session_source_witness :
  exists tcc secret,
    k_ListTCC Demo.one_config (w_trace Demo.loaded) "default" = inl [tcc] /\
    available tcc /\
    k_GetSecret Demo.one_config
      (w_trace (add_event Demo.loaded (EvListTCC "default")))
      (mkNamespacedName (om_Namespace (tcc_Meta tcc))
         (sr_Name (CredentialsSecret (tcc_Spec tcc)))) = inl secret.
Proof.
  destruct (getQBTClient_session_source Demo.one_config (Demo.item None "" None) Demo.loaded
              (mkClient 0 Demo.url) eq_refl)
    as (tcc & secret & _ & L & A & _ & S & _).
  exists tcc, secret. auto.
Defined.

(** ** Soundness of the pool *)

Section PoolSound.

Import qbittorrent.
Context (env : Env).

(** A world that holds part of the entries of a sound one, with a
    pointer counter at least as large, is sound. *)
Lemma pool_sound_sub (w w' : World) :
  (forall k e, clients (w_pool w') !! k = Some e -> clients (w_pool w) !! k = Some e) ->
  (w_next w <= w_next w')%nat ->
  pool_sound w -> pool_sound w'.
Proof.
  intros Sub Nx [A B]. split.
  - intros k e L. destruct (A k e (Sub k e L)) as [C P]. split; [exact C | lia].
  - intros k1 k2 e1 e2 L1 L2. exact (B k1 k2 e1 e2 (Sub _ _ L1) (Sub _ _ L2)).
Qed.

Lemma Cleanup_next (w : World) : w_next (snd (Cleanup env w)) = w_next w.
Proof. reflexivity. Qed.

Lemma run_op_sound (op : PoolOp) (w : World) :
  pool_sound w -> pool_sound (snd (run_op env op w)).
Proof.
  intros S. destruct op as [url username password|i|]; cbn [run_op].
  - unfold bind.
    destruct (hit_or_miss (hashCredentials env url username password) w)
      as [(e & L & C)|Hm].
    + rewrite (GetOrCreate_hit env _ _ _ _ _ L C). wsimpl.
      destruct S as [A B]. split; wsimpl.
      * intros k e' L'.
        destruct (decide (hashCredentials env url username password = k)) as [<-|Hne].
        -- rewrite lookup_insert_eq in L'. injection L' as <-. wsimpl.
           split; [exact C | apply (A _ _ L)].
        -- rewrite lookup_insert_ne in L' by exact Hne. exact (A _ _ L').
      * assert (Old : forall k e', 
                   <[hashCredentials env url username password :=
                       mkPoolEntry (e_client e) (e_credHash e) (clock env (w_tick w))]>
                     (clients (w_pool w)) !! k = Some e' ->
                   exists e0, clients (w_pool w) !! k = Some e0 /\
                              e_client e0 = e_client e').
        { intros k e' L'.
          destruct (decide (hashCredentials env url username password = k)) as [<-|Hne].
          - rewrite lookup_insert_eq in L'. injection L' as <-. eauto.
          - rewrite lookup_insert_ne in L' by exact Hne. eauto. }
        intros k1 k2 e1 e2 L1 L2 P.
        destruct (Old _ _ L1) as (o1 & O1 & P1). destruct (Old _ _ L2) as (o2 & O2 & P2).
        apply (B k1 k2 o1 o2 O1 O2). congruence.
    + rewrite (GetOrCreate_miss env _ _ _ _ Hm). cbv zeta.
      destruct (q_Login env (w_trace w) _ username password); wsimpl.
      * apply (pool_sound_sub w); wsimpl; auto.
      * destruct S as [A B]. split; wsimpl.
        -- intros k e' L'.
           destruct (decide (hashCredentials env url username password = k)) as [<-|Hne].
           ++ rewrite lookup_insert_eq in L'. injection L' as <-.
              cbn [cl_ptr e_client e_credHash]. split; [auto|lia].
           ++ rewrite lookup_insert_ne in L' by exact Hne.
              destruct (A _ _ L'). split; [auto | lia].
        -- intros k1 k2 e1 e2 L1 L2 P.
           destruct (decide (hashCredentials env url username password = k1)) as [E1|N1];
             destruct (decide (hashCredentials env url username password = k2)) as [E2|N2].
           ++ congruence.
           ++ subst k1. rewrite lookup_insert_eq in L1. injection L1 as <-.
              rewrite lookup_insert_ne in L2 by exact N2.
              destruct (A _ _ L2) as [_ Q]. cbn [cl_ptr e_client] in P. lia.
           ++ subst k2. rewrite lookup_insert_eq in L2. injection L2 as <-.
              rewrite lookup_insert_ne in L1 by exact N1.
              destruct (A _ _ L1) as [_ Q]. cbn [cl_ptr e_client] in P. lia.
           ++ rewrite lookup_insert_ne in L1 by exact N1.
              rewrite lookup_insert_ne in L2 by exact N2.
              exact (B _ _ _ _ L1 L2 P).
  - destruct (fire_cases env i w) as [->|(k & _ & [[_ ->]|(e & L & ->)])].
    + exact S.
    + apply (pool_sound_sub w); wsimpl; auto.
    + apply (pool_sound_sub w); wsimpl; auto.
      intros j e'. destruct (Sub _ _ >? _); wsimpl; [|auto].
      destruct (decide (k = j)) as [<-|Hne].
      * rewrite lookup_delete_eq. discriminate.
      * rewrite lookup_delete_ne by exact Hne. auto.
  - apply (pool_sound_sub w); [|rewrite Cleanup_next; lia|exact S].
    intros k e L. rewrite Cleanup_lookup in L.
    destruct (clients (w_pool w) !! k) as [e0|]; [|discriminate].
    destruct (Sub _ _ >? _); [discriminate | exact L].
Qed.

(** Soundness is an invariant of the pool: it holds of an empty pool,
    and calls of [GetOrCreate] for any credentials, timers going off and
    sweeps, in any order, preserve it. So in a pool that started empty an
    entry found under a key always records that key, and sessions are not
    shared between keys. *)
Theorem pool_sound_invariant (ops : list PoolOp) (w : World) :
  (clients (w_pool w) = ∅ -> pool_sound w) /\
  (pool_sound w -> pool_sound (snd (run_ops env ops w))).
Proof.
  split.
  - intros E. split; [intros k e | intros k1 k2 e1 e2]; rewrite E, lookup_empty;
      discriminate.
  - revert w. induction ops as [|op ops IH]; intros w S; simpl; [exact S|].
    unfold bind. pose proof (run_op_sound op w S) as S'.
    destruct (run_op env op w) as [[] w']. apply IH. exact S'.
Qed.

(** Eviction and return. An entry that a sweep finds idle for longer
    than the TTL is gone, and the next [GetOrCreate] for its credentials
    logs in again: when that login succeeds the call returns a session
    other than the evicted one, which the pool then holds under the key. *)
Theorem GetOrCreate_after_eviction (url username password : string) (w : World)
    (e : poolEntry) :
  pool_sound w ->
  clients (w_pool w) !! hashCredentials env url username password = Some e ->
  ttl (w_pool w) < Sub (clock env (w_tick w)) (e_lastUsed e) ->
  let w1 := snd (Cleanup env w) in
  let c := mkClient (w_next w) url in
  q_Login env (w_trace w) c username password = None ->
  exists w2,
    GetOrCreate env url username password w1 = (inl c, w2) /\
    c <> e_client e /\
    w_trace w2 = (w_trace w ++ [EvLogin c username password])%list /\
    held (hashCredentials env url username password) c (clock env (S (w_tick w))) w2.
Proof.
  intros S L Idle. cbv zeta. intros Q.
  destruct (Cleanup_frame env w) as (K & T & Tr).
  assert (Hm : misses (hashCredentials env url username password) (snd (Cleanup env w))).
  { unfold misses. rewrite Cleanup_lookup, L.
    rewrite Z.gtb_ltb. apply Z.ltb_lt in Idle. now rewrite Idle. }
  pose proof (GetOrCreate_miss env url username password _ Hm) as G. cbv zeta in G.
  rewrite Cleanup_next, Tr, Q in G. eexists. split; [exact G|]. split; [|split].
  - destruct S as [A _]. destruct (A _ _ L) as [_ P]. intros E. rewrite <- E in P.
    cbn [cl_ptr] in P. lia.
  - reflexivity.
  - eexists. wsimpl. split; [apply lookup_insert_eq|].
    cbn [e_client e_credHash e_lastUsed]. rewrite T.
    repeat split; auto. apply Z.le_refl.
Qed.

(** The function a timer runs does to its key what a sweep at the same
    instant does to it, and leaves every other key as it is. *)
Theorem timer_agrees_with_sweep (k : string) (w : World) :
  clients (w_pool (snd (scheduleRemove_fired env k w))) !! k =
    clients (w_pool (snd (Cleanup env w))) !! k /\
  forall j, j <> k ->
    clients (w_pool (snd (scheduleRemove_fired env k w))) !! j = clients (w_pool w) !! j.
Proof.
  rewrite Cleanup_lookup. unfold scheduleRemove_fired.
  destruct (clients (w_pool w) !! k) as [e|] eqn:L.
  - unfold bind, time_Now, Remove, ret. cbv beta. wsimpl.
    destruct (Sub (clock env (w_tick w)) (e_lastUsed e) >? ttl (w_pool w)); wsimpl.
    + split; [apply lookup_delete_eq|]. intros j Hne. now apply lookup_delete_ne.
    + split; [exact L | reflexivity].
  - wsimpl. split; [exact L | reflexivity].
Qed.

(** The key of the pool does not tell the three values apart: moving a
    '|' and what follows it from the username to the password, or from the
    endpoint to the username, gives the same key. A call for the second
    triple then returns the session opened for the first, without a login
    of its own. *)
Theorem GetOrCreate_shares_colliding_credentials (url a b p : string) (w w1 : World)
    (c : Client) :
  hashCredentials env url (a ++ "|" ++ b) p = hashCredentials env url a (b ++ "|" ++ p) /\
  hashCredentials env (url ++ "|" ++ a) b p = hashCredentials env url (a ++ "|" ++ b) p /\
  (GetOrCreate env url (a ++ "|" ++ b) p w = (inl c, w1) ->
   fst (GetOrCreate env url a (b ++ "|" ++ p) w1) = inl c /\
   w_trace (snd (GetOrCreate env url a (b ++ "|" ++ p) w1)) = w_trace w1).
Proof.
  assert (E1 : hashCredentials env url (a ++ "|" ++ b) p
               = hashCredentials env url a (b ++ "|" ++ p)).
  { unfold hashCredentials. f_equal. now rewrite !append_assoc. }
  assert (E2 : hashCredentials env (url ++ "|" ++ a) b p
               = hashCredentials env url (a ++ "|" ++ b) p).
  { unfold hashCredentials. f_equal. now rewrite !append_assoc. }
  split; [exact E1|]. split; [exact E2|]. intros G.
  destruct (GetOrCreate_held env _ _ _ _ _ _ G) as ((e & L & Hc & Hh & _) & _ & _).
  rewrite E1 in L, Hh.
  rewrite (GetOrCreate_hit env _ _ _ _ _ L Hh). wsimpl. split; [now rewrite Hc | reflexivity].
Qed.

End PoolSound.

Lemma pool_sound_singleton (k : string) (e : poolEntry) (w : World) :
  clients (w_pool w) = {[ k := e ]} -> e_credHash e = k ->
  (cl_ptr (e_client e) < w_next w)%nat -> pool_sound w.
Proof.
  intros E C P. split.
  - intros j x L. rewrite E in L. apply lookup_singleton_Some in L as [<- <-]. auto.
  - intros k1 k2 e1 e2 L1 L2 _. rewrite E in L1, L2.
    apply lookup_singleton_Some in L1 as [<- _].
    apply lookup_singleton_Some in L2 as [<- _]. reflexivity.
Qed.

Lemma pool_sound_invariant_witness :
  pool_sound (snd (run_ops Demo.quiet Demo.activity Demo.start)).
Proof.
  destruct (pool_sound_invariant Demo.quiet Demo.activity Demo.start) as [E P].
  apply P, E. reflexivity.
Defined.

Lemma GetOrCreate_after_eviction_witness :
  exists w2,
    qbittorrent.GetOrCreate Demo.quiet Demo.url "admin" "adminadmin"
      (snd (qbittorrent.Cleanup Demo.quiet Demo2.stale_world))
    = (inl (mkClient 1 Demo.url), w2) /\
    mkClient 1 Demo.url <> e_client Demo2.stale_entry.
Proof.
  destruct (GetOrCreate_after_eviction Demo.quiet Demo.url "admin" "adminadmin"
              Demo2.stale_world Demo2.stale_entry) as (w2 & G & N & _).
  - apply (pool_sound_singleton "http://qbt:8080|admin|adminadmin" Demo2.stale_entry);
      [reflexivity | reflexivity | simpl; lia].
  - reflexivity.
  - vm_compute. reflexivity.
  - reflexivity.
  - exists w2. split; [exact G | exact N].
Defined.

Lemma GetOrCreate_shares_colliding_credentials_witness :
  fst (qbittorrent.GetOrCreate Demo.quiet Demo.url "ad" "min|x"
         (snd (qbittorrent.GetOrCreate Demo.quiet Demo.url "ad|min" "x" Demo.start)))
  = inl (mkClient 0 Demo.url).
Proof.
  destruct (GetOrCreate_shares_colliding_credentials Demo.quiet Demo.url "ad" "min" "x"
              Demo.start
              (snd (qbittorrent.GetOrCreate Demo.quiet Demo.url "ad|min" "x" Demo.start))
              (mkClient 0 Demo.url)) as (_ & _ & H).
  destruct H as [H _]; [vm_compute; reflexivity | exact H].
Defined.

(** ** Reconciliation of a configuration object, continued *)

Section ConfigurationMore.

Import TorrentClientConfigurationReconciler.
Context (env : Env).

Lemma Reconcile_loaded (req : NamespacedName) (w : World)
    (tcc : TorrentClientConfiguration) :
  k_GetTCC env (w_trace w) req = inl tcc ->
  let w1 := add_event w (EvGetTCC req) in
  let w2 := add_event w1 (EvGetSecret (secret_key tcc)) in
  let ci := check_interval env tcc in
  let url := URL (tcc_Spec tcc) in
  let secretName := sr_Name (CredentialsSecret (tcc_Spec tcc)) in
  Reconcile env req w =
    match k_GetSecret env (w_trace w1) (secret_key tcc) with
    | inr err =>
        degraded env tcc ci "SecretNotFound"
          ("Credentials secret " ++ fmt_q env secretName ++ " not found: " ++ Error err) w2
    | inl secret =>
        match s_Data secret !! "username", s_Data secret !! "password" with
        | Some usernameBytes, Some passwordBytes =>
            (got <- qbittorrent.GetOrCreate env url usernameBytes passwordBytes ;;
             match got with
             | inr err =>
                 degraded env tcc ci "ClientCreationFailed"
                   ("Failed to create qBittorrent client for " ++ url ++ ": " ++ Error err)
             | inl qbtClient =>
                 err <- Ping env qbtClient ;;
                 match err with
                 | Some err =>
                     degraded env tcc ci "HealthCheckFailed"
                       ("qBittorrent health check failed at " ++ url ++ ": " ++ Error err)
                 | None =>
                     tcc <- setAvailableCondition env tcc "Connected"
                              ("Successfully connected to qBittorrent at " ++ url) ;;
                     let tcc := set_tcc_Status tcc (set_Connected (tcc_Status tcc) true) in
                     now <- time_Now env ;;
                     let tcc :=
                       set_tcc_Status tcc (set_LastChecked (tcc_Status tcc) (Some now)) in
                     err <- r_Status_Update_TCC env tcc ;;
                     match err with
                     | Some err => ret (emptyResult, Some err)
                     | None => ret (requeueAfter ci, None)
                     end
                 end
             end) w2
        | _, _ =>
            degraded env tcc ci "SecretInvalid"
              ("Credentials secret " ++ fmt_q env secretName
                 ++ " missing 'username' or 'password' key") w2
        end
    end.
Proof.
  intros G. cbv zeta.
  unfold Reconcile, bind at 1, r_Get_TCC at 1, call at 1. rewrite G.
  unfold bind at 1, r_Get_Secret, call. cbv beta.
  unfold check_interval, secret_key, add_event. wsimpl.
  destruct (String.eqb (CheckInterval (tcc_Spec tcc)) ""); cbn [negb];
    destruct (k_GetSecret env _ _) as [secret|serr]; try reflexivity;
    destruct (s_Data secret !! "username"); destruct (s_Data secret !! "password");
    try reflexivity;
    destruct (ParseDuration env (CheckInterval (tcc_Spec tcc))); reflexivity.
Qed.

Lemma occurs_middle (pre sub post : string) : occurs sub (pre ++ sub ++ post).
Proof. exists pre, post. reflexivity. Qed.

Lemma occurs_prefixed (a sub s : string) : occurs sub s -> occurs sub (a ++ s).
Proof. intros (pre & post & ->). exists (a ++ pre), post. now rewrite append_assoc. Qed.

(** The object a degraded branch writes. *)
Lemma degraded_written (tcc : TorrentClientConfiguration) (ci : Duration)
    (reason message : string) (w : World) :
  exists written n,
    degraded env tcc ci reason message w =
      ((requeueAfter ci, None),
       add_event (mkWorld (S n) (w_next w) (w_pool w) (w_timers w) (w_trace w))
         (EvStatusUpdateTCC written)) /\
    tcc_degraded written reason /\
    has_condition (tcc_Conditions (tcc_Status written)) "Degraded" reason message.
Proof.
  destruct (degraded_run env tcc ci reason message w) as (cs & n & E & Hc & Hl & _).
  cbv zeta in E. eexists _, n. split; [exact E|]. split.
  - unfold tcc_degraded. cbn. eauto.
  - exact Hc.
Qed.


(** A secret that cannot be used keeps the reconcile local: when the
    secret cannot be fetched or lacks one of its two keys, the calls made
    are the load, the fetch of the secret and one status write, of an
    object reported degraded for the reason SecretNotFound or
    SecretInvalid; the remote engine is not contacted and the pool, its
    timers and the pointer counter are as before. *)
Theorem Reconcile_without_credentials (req : NamespacedName) (w : World)
    (tcc : TorrentClientConfiguration) :
  k_GetTCC env (w_trace w) req = inl tcc ->
  secret_unusable env (w_trace (add_event w (EvGetTCC req))) tcc ->
  exists written,
    w_trace (snd (Reconcile env req w)) =
      (w_trace w ++ [EvGetTCC req; EvGetSecret (secret_key tcc);
                     EvStatusUpdateTCC written])%list /\
    (tcc_degraded written "SecretNotFound" \/ tcc_degraded written "SecretInvalid") /\
    w_pool (snd (Reconcile env req w)) = w_pool w /\
    w_timers (snd (Reconcile env req w)) = w_timers w /\
    w_next (snd (Reconcile env req w)) = w_next w.
Proof.
  intros G U. rewrite (Reconcile_loaded req w tcc G). cbv zeta.
  unfold secret_unusable in U.
  assert (D : forall reason message,
             tcc_degraded_as reason
               (degraded env tcc (check_interval env tcc) reason message
                  (add_event (add_event w (EvGetTCC req)) (EvGetSecret (secret_key tcc))))
               w (EvGetTCC req) (EvGetSecret (secret_key tcc))).
  { intros reason message.
    destruct (degraded_written tcc (check_interval env tcc) reason message
                (add_event (add_event w (EvGetTCC req)) (EvGetSecret (secret_key tcc))))
      as (written & n & -> & Dg & _).
    exists written. unfold add_event. wsimpl. rewrite <- !app_assoc. auto. }
  unfold tcc_degraded_as in D.
  destruct (k_GetSecret env _ (secret_key tcc)) as [secret|serr].
  - destruct U as [U|U]; rewrite U.
    + destruct (D "SecretInvalid"
                  ("Credentials secret " ++ fmt_q env (sr_Name (CredentialsSecret (tcc_Spec tcc)))
                     ++ " missing 'username' or 'password' key"))
        as (written & T & Dg & F).
      exists written. split; [exact T|]. split; [now right | exact F].
    + destruct (D "SecretInvalid"
                  ("Credentials secret " ++ fmt_q env (sr_Name (CredentialsSecret (tcc_Spec tcc)))
                     ++ " missing 'username' or 'password' key"))
        as (written & T & Dg & F).
      destruct (s_Data secret !! "username");
        (exists written; split; [exact T|]; split; [now right | exact F]).
  - destruct (D "SecretNotFound"
                ("Credentials secret " ++ fmt_q env (sr_Name (CredentialsSecret (tcc_Spec tcc)))
                   ++ " not found: " ++ Error serr))
      as (written & T & Dg & F).
    exists written. split; [exact T|]. split; [now left | exact F].
Qed.

(** A password that the remote engine refuses is published. When the
    secret holds both values, the pool has no session for them and the
    login fails, the reconcile writes a status whose Degraded condition,
    reason ClientCreationFailed, carries a message in which the password
    occurs. *)
Theorem Reconcile_publishes_refused_password (req : NamespacedName) (w : World)
    (tcc : TorrentClientConfiguration) (username password : string) (err : error) :
  k_GetTCC env (w_trace w) req = inl tcc ->
  let w1 := add_event w (EvGetTCC req) in
  let w2 := add_event w1 (EvGetSecret (secret_key tcc)) in
  secret_holds env (w_trace w1) tcc username password ->
  misses (qbittorrent.hashCredentials env (URL (tcc_Spec tcc)) username password) w ->
  q_Login env (w_trace w2) (mkClient (w_next w) (URL (tcc_Spec tcc))) username password
    = Some err ->
  exists written message,
    In (EvStatusUpdateTCC written) (w_trace (snd (Reconcile env req w))) /\
    has_condition (tcc_Conditions (tcc_Status written)) "Degraded" "ClientCreationFailed"
      message /\
    occurs password message.
Proof.
  intros G. cbv zeta. intros (secret & S & U & P) Hm Q.
  rewrite (Reconcile_loaded req w tcc G). cbv zeta. rewrite S, U, P.
  unfold bind at 1.
  rewrite (GetOrCreate_miss env (URL (tcc_Spec tcc)) username password
             (add_event (add_event w (EvGetTCC req)) (EvGetSecret (secret_key tcc))) Hm).
  cbv zeta. unfold add_event at 1 2 3 4. wsimpl. unfold add_event in Q. wsimpl.
  rewrite Q.
  match goal with
  | |- context [degraded env tcc ?ci ?r ?m ?w0] =>
      destruct (degraded_written tcc ci r m w0) as (written & n & -> & _ & Hc)
  end.
  eexists written, _. split; [|split; [exact Hc|]].
  - unfold add_event. wsimpl. apply in_or_app. right. left. reflexivity.
  - cbn [Error]. do 3 apply occurs_prefixed.
    exists ("failed to login for credentials[" ++ username ++ ", "),
      ("] url[" ++ URL (tcc_Spec tcc) ++ "]: " ++ Error err).
    now rewrite !append_assoc.
Qed.

(** A configuration object whose session the pool holds is checked
    without a login: the calls of its reconcile are the load, the fetch of
    the secret, the probe of the held session and one status write, and
    the pool still holds the session afterwards. *)
Theorem Reconcile_reuses_session (req : NamespacedName) (w : World)
    (tcc : TorrentClientConfiguration) (username password : string)
    (c : Client) (t0 : Time) :
  k_GetTCC env (w_trace w) req = inl tcc ->
  secret_holds env (w_trace (add_event w (EvGetTCC req))) tcc username password ->
  held (qbittorrent.hashCredentials env (URL (tcc_Spec tcc)) username password) c t0 w ->
  exists written,
    w_trace (snd (Reconcile env req w)) =
      (w_trace w ++ [EvGetTCC req; EvGetSecret (secret_key tcc); EvPing c;
                     EvStatusUpdateTCC written])%list /\
    held (qbittorrent.hashCredentials env (URL (tcc_Spec tcc)) username password) c
      (clock env (w_tick w)) (snd (Reconcile env req w)).
Proof.
  intros G (secret & S & U & P) (e & L & Hc & Hh & _).
  destruct (Reconcile env req w) as [res w'] eqn:R. cbn [fst snd].
  rewrite (Reconcile_loaded req w tcc G) in R. cbv zeta in R. rewrite S, U, P in R.
  revert R. unfold bind at 1.
  rewrite (GetOrCreate_hit env (URL (tcc_Spec tcc)) username password
             (add_event (add_event w (EvGetTCC req)) (EvGetSecret (secret_key tcc))) e L Hh).
  unfold bind at 1, Ping, call. cbv beta. unfold add_event. wsimpl. rewrite Hc.
  set (h := qbittorrent.hashCredentials env (URL (tcc_Spec tcc)) username password) in *.
  assert (Hd : forall w0,
             w_pool w0 = mkClientPool
                           (<[h := mkPoolEntry c (e_credHash e) (clock env (w_tick w))]>
                              (clients (w_pool w))) (ttl (w_pool w)) ->
             held h c (clock env (w_tick w)) w0).
  { intros w0 E. eexists. rewrite E. wsimpl. split; [apply lookup_insert_eq|].
    cbn [e_client e_credHash e_lastUsed]. repeat split; auto. apply Z.le_refl. }
  destruct (q_Ping env _ c) as [perr|].
  - match goal with
    | |- context [degraded env tcc ?ci ?r ?m ?w0] =>
        destruct (degraded_written tcc ci r m w0) as (written & n & -> & _)
    end.
    intros [= <- <-].
    exists written. unfold add_event. wsimpl. rewrite <- !app_assoc.
    split; [reflexivity|]. apply Hd. reflexivity.
  - unfold bind, time_Now, r_Status_Update_TCC, call, ret. cbv beta.
    match goal with
    | |- context [setAvailableCondition env tcc ?r ?m ?w0] =>
        destruct (tcc_setAvailable_run env tcc r m w0) as (cs & n & E & _);
        rewrite E
    end.
    wsimpl.
    match goal with
    | |- context [k_StatusUpdateTCC env ?h ?c] => destruct (k_StatusUpdateTCC env h c)
    end; intros [= <- <-]; wsimpl; rewrite <- !app_assoc;
      (eexists; split; [reflexivity|]); apply Hd; reflexivity.
Qed.

(** After a reconcile in which the pool returned a session, the pool
    holds that session. *)
Lemma Reconcile_holds (req : NamespacedName) (w : World)
    (tcc : TorrentClientConfiguration) (username password : string) (c : Client) :
  k_GetTCC env (w_trace w) req = inl tcc ->
  secret_holds env (w_trace (add_event w (EvGetTCC req))) tcc username password ->
  fst (qbittorrent.GetOrCreate env (URL (tcc_Spec tcc)) username password
         (add_event (add_event w (EvGetTCC req)) (EvGetSecret (secret_key tcc)))) = inl c ->
  held (qbittorrent.hashCredentials env (URL (tcc_Spec tcc)) username password) c
    (clock env (w_tick w)) (snd (Reconcile env req w)).
Proof.
  intros G (secret & S & U & P) Q.
  destruct (Reconcile env req w) as [res w'] eqn:R. cbn [fst snd].
  rewrite (Reconcile_loaded req w tcc G) in R. cbv zeta in R. rewrite S, U, P in R.
  revert R. unfold bind at 1.
  destruct (qbittorrent.GetOrCreate env (URL (tcc_Spec tcc)) username password _)
    as [got w3] eqn:C.
  cbn [fst] in Q. subst got.
  destruct (GetOrCreate_held env _ _ _ _ _ _ C) as ((e & L & Hc & Hh & Ht) & _ & _).
  unfold add_event in Ht. wsimpl.
  assert (Hd : forall w0, w_pool w0 = w_pool w3 ->
                          held (qbittorrent.hashCredentials env (URL (tcc_Spec tcc))
                                  username password) c (clock env (w_tick w)) w0).
  { intros w0 E. exists e. rewrite E. auto. }
  unfold bind at 1, Ping, call. cbv beta.
  destruct (q_Ping env _ c) as [perr|].
  - match goal with
    | |- context [degraded env tcc ?ci ?r ?m ?w0] =>
        destruct (degraded_written tcc ci r m w0) as (written & n & -> & _)
    end.
    intros [= <- <-]. apply Hd. reflexivity.
  - unfold bind, time_Now, r_Status_Update_TCC, call, ret. cbv beta.
    match goal with
    | |- context [setAvailableCondition env tcc ?r ?m ?w0] =>
        destruct (tcc_setAvailable_run env tcc r m w0) as (cs & n & E & _);
        rewrite E
    end.
    wsimpl.
    match goal with
    | |- context [k_StatusUpdateTCC env ?h ?c] => destruct (k_StatusUpdateTCC env h c)
    end; intros [= <- <-]; apply Hd; reflexivity.
Qed.

End ConfigurationMore.



Lemma Reconcile_without_credentials_witness :
  exists written,
    w_trace (snd (TorrentClientConfigurationReconciler.Reconcile Demo2.orphaned
                    (Demo.key "tcc-o") Demo.start)) =
      [EvGetTCC (Demo.key "tcc-o"); EvGetSecret (Demo.key "gone");
       EvStatusUpdateTCC written] /\
    w_pool (snd (TorrentClientConfigurationReconciler.Reconcile Demo2.orphaned
                   (Demo.key "tcc-o") Demo.start)) = w_pool Demo.start.
Proof.
  destruct (Reconcile_without_credentials Demo2.orphaned (Demo.key "tcc-o") Demo.start
              Demo2.orphan eq_refl) as (written & T & _ & P & _).
  - vm_compute. exact I.
  - exists written. split; [exact T | exact P].
Defined.

Lemma Reconcile_publishes_refused_password_witness :
  exists written message,
    In (EvStatusUpdateTCC written)
      (w_trace (snd (TorrentClientConfigurationReconciler.Reconcile Demo.one_config_locked
                       (Demo.key "tcc-a") Demo.start))) /\
    has_condition (tcc_Conditions (tcc_Status written)) "Degraded" "ClientCreationFailed"
      message /\
    occurs "adminadmin" message.
Proof.
  apply (Reconcile_publishes_refused_password Demo.one_config_locked (Demo.key "tcc-a")
           Demo.start (Demo.config "tcc-a") "admin" "adminadmin"
           (errString "401 Unauthorized") eq_refl).
  - exists Demo.creds. repeat split; reflexivity.
  - vm_compute. exact I.
  - reflexivity.
Defined.

Lemma Reconcile_reuses_session_witness :
  exists written,
    w_trace (snd (TorrentClientConfigurationReconciler.Reconcile Demo.one_config
                    (Demo.key "tcc-a") Demo2.warm)) =
      [EvLogin (mkClient 0 Demo.url) "admin" "adminadmin";
       EvGetTCC (Demo.key "tcc-a"); EvGetSecret (Demo.key "qbt-creds");
       EvPing (mkClient 0 Demo.url); EvStatusUpdateTCC written].
Proof.
  destruct (Reconcile_reuses_session Demo.one_config (Demo.key "tcc-a") Demo2.warm
              (Demo.config "tcc-a") "admin" "adminadmin" (mkClient 0 Demo.url) 100 eq_refl)
    as (written & T & _).
  - exists Demo.creds. repeat split; reflexivity.
  - eexists. split; [vm_compute; reflexivity|]. repeat split. vm_compute. discriminate.
  - exists written. exact T.
Defined.


(** ** One session for both reconcilers *)

Section SharedSession.

Context (env : Env).

(** Resolution for a work item whose configuration has its session in
    the pool returns that session and does not log in. *)
Lemma getQBTClient_hit (torrent : Torrent) (w : World) (tcc : TorrentClientConfiguration)
    (secret : Secret) (c : Client) (t0 : Time) :
  selected env torrent w tcc -> available tcc ->
  k_GetSecret env (w_trace (before_secret torrent w)) (secret_key tcc) = inl secret ->
  held (qbittorrent.hashCredentials env (URL (tcc_Spec tcc))
          (secret_string secret "username") (secret_string secret "password")) c t0 w ->
  fst (fst (TorrentReconciler.getQBTClient env torrent w)) = inl c /\
  exists evs, extends w (snd (TorrentReconciler.getQBTClient env torrent w)) evs /\
              Forall (fun ev => is_login ev = false) evs.
Proof.
  unfold selected, available, before_secret, secret_key, extends.
  intros S (a & F & T) K (e & L & Hc & Hh & _).
  unfold TorrentReconciler.getQBTClient, bind, ret, r_Get_TCC, r_List_TCC, r_Get_Secret,
    call.
  destruct (ClientConfigRef (t_Spec torrent)) as [ref|]; unfold add_event in *; wsimpl.
  - destruct S as [G Ls]. rewrite G. wsimpl. rewrite Ls, F, T.
    rewrite String.eqb_refl. cbn [negb]. wsimpl. rewrite K.
    match goal with
    | |- context [qbittorrent.GetOrCreate env ?u ?n ?p ?w0] =>
        rewrite (GetOrCreate_hit env u n p w0 e L Hh)
    end.
    wsimpl. split; [now rewrite Hc|]. rewrite <- !app_assoc.
    eexists. split; [reflexivity|]. repeat constructor.
  - rewrite S, F, T. rewrite String.eqb_refl. cbn [negb]. wsimpl. rewrite K.
    match goal with
    | |- context [qbittorrent.GetOrCreate env ?u ?n ?p ?w0] =>
        rewrite (GetOrCreate_hit env u n p w0 e L Hh)
    end.
    wsimpl. split; [now rewrite Hc|]. rewrite <- !app_assoc.
    eexists. split; [reflexivity|]. repeat constructor.
Qed.

(** The two reconcilers share sessions. Let a reconcile of a
    configuration object obtain a session from the pool. A work item
    resolved right after it, to a configuration with the same endpoint
    whose secret holds the same two values, gets that very session, and
    its resolution does not log in. *)
Theorem session_shared_between_reconcilers (req : NamespacedName) (w : World)
    (tcc : TorrentClientConfiguration) (username password : string) (c : Client)
    (torrent : Torrent) (tcc' : TorrentClientConfiguration) (secret' : Secret) :
  k_GetTCC env (w_trace w) req = inl tcc ->
  secret_holds env (w_trace (add_event w (EvGetTCC req))) tcc username password ->
  fst (qbittorrent.GetOrCreate env (URL (tcc_Spec tcc)) username password
         (add_event (add_event w (EvGetTCC req)) (EvGetSecret (secret_key tcc)))) = inl c ->
  let w' := snd (TorrentClientConfigurationReconciler.Reconcile env req w) in
  selected env torrent w' tcc' -> available tcc' ->
  URL (tcc_Spec tcc') = URL (tcc_Spec tcc) ->
  k_GetSecret env (w_trace (before_secret torrent w')) (secret_key tcc') = inl secret' ->
  secret_string secret' "username" = username ->
  secret_string secret' "password" = password ->
  fst (fst (TorrentReconciler.getQBTClient env torrent w')) = inl c /\
  exists evs, extends w' (snd (TorrentReconciler.getQBTClient env torrent w')) evs /\
              Forall (fun ev => is_login ev = false) evs.
Proof.
  intros G Sh Q w' Sel Av Eu K Un Pw.
  pose proof (Reconcile_holds env req w tcc username password c G Sh Q) as H.
  fold w' in H. rewrite <- Eu, <- Un, <- Pw in H.
  exact (getQBTClient_hit torrent w' tcc' secret' c _ Sel Av K H).
Qed.

End SharedSession.

Lemma session_shared_between_reconcilers_witness :
  fst (fst (TorrentReconciler.getQBTClient Demo.one_config (Demo.item None "" None)
              (snd (TorrentClientConfigurationReconciler.Reconcile Demo.one_config
                      (Demo.key "tcc-a") Demo.start))))
  = inl (mkClient 0 Demo.url).
Proof.
  apply (session_shared_between_reconcilers Demo.one_config (Demo.key "tcc-a") Demo.start
           (Demo.config "tcc-a") "admin" "adminadmin" (mkClient 0 Demo.url)
           (Demo.item None "" None) (Demo.config "tcc-a") Demo.creds eq_refl).
  - exists Demo.creds. repeat split; reflexivity.
  - vm_compute. reflexivity.
  - reflexivity.
  - exists Demo.availableNow. split; reflexivity.
  - reflexivity.
  - reflexivity.
  - reflexivity.
  - reflexivity.
Defined.


(** ** Watch mappers *)

Section MapperFacts.

Context (env : Env).

(** A loop that appends the image of the elements that pass a test
    builds the image of the filtered list. *)
Lemma fold_left_append_filter {A B : Type} (cond test : A -> bool) (f : A -> B)
    (items : list A) (acc : list B) :
  (forall x, cond x = test x) ->
  fold_left (fun requests x => if cond x then (requests ++ [f x])%list else requests)
    items acc
  = (acc ++ List.map f (List.filter test items))%list.
Proof.
  intros E. revert acc. induction items as [|x items IH]; intros acc; simpl.
  - now rewrite app_nil_r.
  - rewrite IH, E. destruct (test x); simpl; [now rewrite <- app_assoc | reflexivity].
Qed.

Lemma bound_to_test (name : string) (t : Torrent) :
  match ClientConfigRef (t_Spec t) with
  | Some ref => String.eqb (lor_Name ref) name
  | None => false
  end
  || match ClientConfigRef (t_Spec t) with
     | None => String.eqb (ClientConfigurationName (t_Status t)) name
     | Some _ => false
     end
  = bound_to name t.
Proof.
  unfold bound_to. destruct (ClientConfigRef (t_Spec t)); [apply orb_false_r | reflexivity].
Qed.

Lemma findTorrentsForTCC_filter (k_ListTorrent : string -> list Torrent + error)
    (tcc : TorrentClientConfiguration) :
  findTorrentsForTCC k_ListTorrent (ObjTorrentClientConfiguration tcc) =
    match k_ListTorrent (om_Namespace (tcc_Meta tcc)) with
    | inl items =>
        List.map (fun t => request_for (t_Meta t))
          (List.filter (bound_to (om_Name (tcc_Meta tcc))) items)
    | inr _ => []
    end.
Proof.
  unfold findTorrentsForTCC.
  destruct (k_ListTorrent (om_Namespace (tcc_Meta tcc))) as [items|err]; [|reflexivity].
  exact (fold_left_append_filter
           (fun torrent =>
              match ClientConfigRef (t_Spec torrent) with
              | Some ref => String.eqb (lor_Name ref) (om_Name (tcc_Meta tcc))
              | None => false
              end
              || match ClientConfigRef (t_Spec torrent) with
                 | None => String.eqb (ClientConfigurationName (t_Status torrent))
                             (om_Name (tcc_Meta tcc))
                 | Some _ => false
                 end)
           (bound_to (om_Name (tcc_Meta tcc)))
           (fun t => request_for (t_Meta t)) items []
           (bound_to_test (om_Name (tcc_Meta tcc)))).
Qed.

(** What a change of a configuration object re-queues: the work items
    of its namespace that are bound to its name, by their explicit
    reference or, without one, by their recorded configuration name, in
    the order of the listing, once each. A work item with an explicit
    reference to another configuration is left out even when its status
    records this one. Nothing is re-queued when the listing fails or the
    object is of another kind. *)
Theorem findTorrentsForTCC_requests (k_ListTorrent : string -> list Torrent + error)
    (obj : Object) :
  findTorrentsForTCC k_ListTorrent obj =
    match obj with
    | ObjTorrentClientConfiguration tcc =>
        match k_ListTorrent (om_Namespace (tcc_Meta tcc)) with
        | inl items =>
            List.map (fun t => request_for (t_Meta t))
              (List.filter (bound_to (om_Name (tcc_Meta tcc))) items)
        | inr _ => []
        end
    | _ => []
    end.
Proof.
  destruct obj as [t|tcc|ts|s]; try reflexivity. apply findTorrentsForTCC_filter.
Qed.

(** The watch follows the recorded name. Take a work item without an
    explicit reference in a namespace that lists one configuration, and
    let resolution run. If the configuration is available, the work item
    as resolution leaves it is re-queued by a change of that
    configuration. If it is not, the work item is left as it was, and
    unless it already recorded the name a change of the configuration,
    such as its becoming available, does not re-queue it. *)
Theorem findTorrentsForTCC_after_resolution (torrent : Torrent) (w : World)
    (tcc : TorrentClientConfiguration) :
  ClientConfigRef (t_Spec torrent) = None ->
  k_ListTCC env (w_trace w) (om_Namespace (t_Meta torrent)) = inl [tcc] ->
  let resolved := snd (fst (TorrentReconciler.getQBTClient env torrent w)) in
  let listing := fun _ : string => inl [resolved] : list Torrent + error in
  (available tcc ->
   findTorrentsForTCC listing (ObjTorrentClientConfiguration tcc)
     = [request_for (t_Meta torrent)]) /\
  (~ available tcc ->
   ClientConfigurationName (t_Status torrent) <> om_Name (tcc_Meta tcc) ->
   findTorrentsForTCC listing (ObjTorrentClientConfiguration tcc) = []).
Proof.
  intros R L. cbv zeta. split.
  - intros Av.
    rewrite (getQBTClient_records env torrent w tcc); [|unfold selected; now rewrite R|exact Av].
    rewrite findTorrentsForTCC_filter. cbn [List.filter List.map].
    unfold bound_to. cbn [t_Spec t_Status set_Status set_ClientConfigurationName
                            ClientConfigurationName t_Meta].
    rewrite R, String.eqb_refl. reflexivity.
  - intros Nav Hne.
    assert (E : snd (fst (TorrentReconciler.getQBTClient env torrent w)) = torrent).
    { unfold TorrentReconciler.getQBTClient, bind, ret, r_List_TCC, call.
      rewrite R. wsimpl. rewrite L.
      destruct (meta.FindStatusCondition (tcc_Conditions (tcc_Status tcc)) TypeAvailableTCC)
        as [a|] eqn:F; [|reflexivity].
      destruct (String.eqb_spec (c_Status a) ConditionTrue) as [T|T]; [|reflexivity].
      destruct Nav. exists a. auto. }
    rewrite E, findTorrentsForTCC_filter. cbn [List.filter List.map].
    unfold bound_to. rewrite R.
    apply String.eqb_neq in Hne. rewrite Hne. reflexivity.
Qed.

(** What a change of a secret re-queues: one listing of the
    configuration objects of its namespace is made, and the requests are
    those of the listed objects that read their credentials from a secret
    of its name, in the order of the listing. So every listed
    configuration object whose reconcile fetches this secret is re-queued.
    Nothing is re-queued, and for an object of another kind nothing is
    listed, when the listing fails or the object is no secret. *)
Theorem findTCCForSecret_requests (obj : Object) (w : World) :
  match obj with
  | ObjSecret secret =>
      let namespace := om_Namespace (s_Meta secret) in
      findTCCForSecret env obj w =
        (match k_ListTCC env (w_trace w) namespace with
         | inl items =>
             List.map (fun c => request_for (tcc_Meta c))
               (List.filter (reads_secret (om_Name (s_Meta secret))) items)
         | inr _ => []
         end,
         add_event w (EvListTCC namespace)) /\
      forall items tcc,
        k_ListTCC env (w_trace w) namespace = inl items -> In tcc items ->
        secret_key tcc = mkNamespacedName namespace (om_Name (s_Meta secret)) ->
        In (request_for (tcc_Meta tcc)) (fst (findTCCForSecret env obj w))
  | _ => findTCCForSecret env obj w = ([], w)
  end.
Proof.
  destruct obj as [t|tcc|ts|secret]; try reflexivity. cbv zeta.
  assert (E : findTCCForSecret env (ObjSecret secret) w =
              (match k_ListTCC env (w_trace w) (om_Namespace (s_Meta secret)) with
               | inl items =>
                   List.map (fun c => request_for (tcc_Meta c))
                     (List.filter (reads_secret (om_Name (s_Meta secret))) items)
               | inr _ => []
               end,
               add_event w (EvListTCC (om_Namespace (s_Meta secret))))).
  { unfold findTCCForSecret, bind, ret, r_List_TCC, call, add_event. cbv beta.
    destruct (k_ListTCC env (w_trace w) _) as [items|err]; [|reflexivity].
    f_equal.
    exact (fold_left_append_filter
             (fun tcc => String.eqb (sr_Name (CredentialsSecret (tcc_Spec tcc)))
                           (om_Name (s_Meta secret)))
             (reads_secret (om_Name (s_Meta secret)))
             (fun c => request_for (tcc_Meta c)) items [] (fun x => eq_refl)). }
  split; [exact E|]. intros items tcc L I K. rewrite E, L. cbn [fst].
  apply (List.in_map (fun c => request_for (tcc_Meta c))).
  apply List.filter_In. split; [exact I|].
  unfold secret_key in K. injection K as _ K. unfold reads_secret. rewrite K.
  apply String.eqb_refl.
Qed.

End MapperFacts.

Lemma findTorrentsForTCC_after_resolution_witness :
  findTorrentsForTCC
    (fun _ => inl [snd (fst (TorrentReconciler.getQBTClient Demo.one_config
                               (Demo.item None "" None) Demo.loaded))])
    (ObjTorrentClientConfiguration (Demo.config "tcc-a"))
  = [request_for (t_Meta (Demo.item None "" None))].
Proof.
  apply (findTorrentsForTCC_after_resolution Demo.one_config (Demo.item None "" None)
           Demo.loaded (Demo.config "tcc-a") eq_refl eq_refl).
  exists Demo.availableNow. split; reflexivity.
Defined.

Lemma findTCCForSecret_requests_witness :
  In (request_for (tcc_Meta (Demo.config "tcc-a")))
    (fst (findTCCForSecret Demo.one_config (ObjSecret Demo.creds) Demo.start)).
Proof.
  apply (findTCCForSecret_requests Demo.one_config (ObjSecret Demo.creds) Demo.start)
    with (items := [Demo.config "tcc-a"]).
  - reflexivity.
  - left. reflexivity.
  - reflexivity.
Defined.


(** ** Base64 *)

Section Base64Facts.
Import base64.

Lemma list_ind3 {A : Type} (P : list A -> Prop) :
  P [] -> (forall a, P [a]) -> (forall a b, P [a; b]) ->
  (forall a b c rest, P rest -> P (a :: b :: c :: rest)) ->
  forall l, P l.
Proof.
  intros H0 H1 H2 H3. fix IH 1.
  intros [|a [|b [|c rest]]]; [apply H0 | apply H1 | apply H2 | apply H3, IH].
Qed.

Lemma land_63 (a : N) : (N.land a 63 < 64)%N.
Proof. change 63%N with (N.ones 6). rewrite N.land_ones. now apply N.mod_lt. Qed.

Lemma below_64 (P : N -> bool) :
  forallb (fun n => P (N.of_nat n)) (seq 0 64) = true ->
  forall i, (i < 64)%N -> P i = true.
Proof.
  intros H i L. rewrite forallb_forall in H.
  specialize (H (N.to_nat i)). rewrite N2Nat.id in H. apply H.
  apply in_seq. lia.
Qed.

Lemma digit_url_safe (i : N) : (i < 64)%N -> url_safe (digit encodeURL i) = true.
Proof. apply (below_64 (fun i => url_safe (digit encodeURL i))). vm_compute. reflexivity. Qed.

Lemma digit_std_char (i : N) : (i < 64)%N -> std_char (digit encodeStd i) = true.
Proof. apply (below_64 (fun i => std_char (digit encodeStd i))). vm_compute. reflexivity. Qed.

Lemma all_chars_append (p : ascii -> bool) (a b : string) :
  all_chars p (a ++ b) = all_chars p a && all_chars p b.
Proof.
  induction a as [|x a IH]; str_simpl; simpl; [reflexivity|].
  now rewrite IH, andb_assoc.
Qed.

Lemma all_chars_take (p : ascii -> bool) (n : nat) (s : string) :
  all_chars p s = true -> all_chars p (GoStrings.take n s) = true.
Proof.
  revert s. induction n as [|n IH]; intros [|c s]; simpl; auto.
  intros H. apply andb_true_iff in H as [H1 H2]. rewrite H1. simpl. auto.
Qed.

Lemma take_length (n : nat) (s : string) :
  (n <= String.length s)%nat -> String.length (GoStrings.take n s) = n.
Proof.
  revert s. induction n as [|n IH]; intros [|c s]; simpl; auto; try lia.
  intros H. rewrite IH; lia.
Qed.

Lemma take_prefix (n : nat) (a b : string) :
  (n <= String.length a)%nat -> GoStrings.take n (a ++ b) = GoStrings.take n a.
Proof.
  revert a. induction n as [|n IH]; intros [|c a]; str_simpl; simpl; auto; try lia.
  intros H. rewrite IH; [reflexivity | lia].
Qed.

Lemma take_is_prefix (n : nat) (s : string) : exists rest, s = GoStrings.take n s ++ rest.
Proof.
  revert s. induction n as [|n IH]; intros s.
  - exists s. destruct s; reflexivity.
  - destruct s as [|c s]; [exists ""; reflexivity|].
    destruct (IH s) as [rest E]. exists rest. simpl. str_simpl. now rewrite <- E.
Qed.

(** The encoding is its digits followed by the padding: the digits are
    taken from the alphabet and are at least as many as the bytes. *)
Lemma EncodeToString_digits (alphabet : string) (p : ascii -> bool) :
  (forall i, (i < 64)%N -> p (digit alphabet i) = true) ->
  forall src, exists body pad,
    EncodeToString alphabet src = body ++ pad /\
    all_chars p body = true /\
    (List.length src <= String.length body)%nat /\
    (pad = "" \/ pad = "=" \/ pad = "==") /\
    (String.length body + String.length pad = 4 * ((List.length src + 2) / 3))%nat.
Proof.
  intros D. induction src as [| a | a b | a b c rest IH] using list_ind3.
  - exists "", "". repeat split; auto.
  - eexists (String _ (String _ "")), "==". cbn [EncodeToString]. cbv zeta. str_simpl.
    split; [reflexivity|]. simpl. rewrite !D by apply land_63. repeat split; auto.
  - eexists (String _ (String _ (String _ ""))), "=". cbn [EncodeToString]. cbv zeta.
    str_simpl. split; [reflexivity|]. simpl. rewrite !D by apply land_63.
    repeat split; auto.
  - destruct IH as (body & pad & E & A & L & Pd & Len).
    eexists (String _ (String _ (String _ (String _ body)))), pad.
    cbn [EncodeToString]. cbv zeta. str_simpl. rewrite E.
    split; [reflexivity|]. simpl all_chars. rewrite !D by apply land_63. rewrite A.
    split; [reflexivity|]. split; [simpl; lia|]. split; [exact Pd|].
    simpl String.length. simpl List.length.
    replace (S (S (S (List.length rest))) + 2)%nat with (1 * 3 + (List.length rest + 2))%nat
      by lia.
    rewrite Nat.div_add_l by discriminate. lia.
Qed.

Local Open Scope N_scope.

Lemma lor_shiftl_add (a b n : N) : b < 2 ^ n -> N.lor (N.shiftl a n) b = a * 2 ^ n + b.
Proof.
  intros H. rewrite <- N.lxor_lor, <- N.add_nocarry_lxor, N.shiftl_mul_pow2; auto;
    apply N.bits_inj_0; intros m; rewrite N.land_spec;
    destruct (N.lt_ge_cases m n) as [L|L].
  - now rewrite N.shiftl_spec_low.
  - rewrite (N.testbit_eqb b m), N.div_small, andb_false_r; [reflexivity|].
    apply N.lt_le_trans with (2 ^ n); [exact H|]. now apply N.pow_le_mono_r.
  - now rewrite N.shiftl_spec_low.
  - rewrite (N.testbit_eqb b m), N.div_small, andb_false_r; [reflexivity|].
    apply N.lt_le_trans with (2 ^ n); [exact H|]. now apply N.pow_le_mono_r.
Qed.

Lemma sextets_value (v : N) :
  v < 16777216 ->
  v = ((v / 262144) mod 64) * 262144 + ((v / 4096) mod 64) * 4096
      + ((v / 64) mod 64) * 64 + v mod 64.
Proof.
  intros H.
  replace (v / 4096) with (v / 64 / 64) by (now rewrite N.Div0.div_div).
  replace (v / 262144) with (v / 64 / 64 / 64) by (now rewrite !N.Div0.div_div).
  pose proof (N.div_mod v 64 ltac:(discriminate)) as E0.
  pose proof (N.mod_lt v 64 ltac:(discriminate)) as L0.
  set (q1 := v / 64) in *. 
  pose proof (N.div_mod q1 64 ltac:(discriminate)) as E1.
  pose proof (N.mod_lt q1 64 ltac:(discriminate)) as L1.
  set (q2 := q1 / 64) in *.
  pose proof (N.div_mod q2 64 ltac:(discriminate)) as E2.
  pose proof (N.mod_lt q2 64 ltac:(discriminate)) as L2.
  set (q3 := q2 / 64) in *.
  pose proof (N.div_mod q3 64 ltac:(discriminate)) as E3.
  pose proof (N.mod_lt q3 64 ltac:(discriminate)) as L3.
  generalize dependent (q3 / 64). generalize dependent (q3 mod 64).
  generalize dependent (q2 mod 64). generalize dependent (q1 mod 64).
  generalize dependent (v mod 64).
  clearbody q1 q2 q3. intros. lia.
Qed.

Lemma group_value (a b c : N) :
  a < 256 -> b < 256 -> c < 256 ->
  N.lor (N.lor (N.shiftl a 16) (N.shiftl b 8)) c = a * 65536 + b * 256 + c.
Proof.
  intros A B C.
  assert (S8 : forall x, N.shiftl x 8 = x * 256) by (intros; apply N.shiftl_mul_pow2).
  assert (S16 : forall x, N.shiftl x 16 = x * 65536) by (intros; apply N.shiftl_mul_pow2).
  assert (E1 : N.lor (N.shiftl a 16) (N.shiftl b 8) = N.shiftl (a * 256 + b) 8).
  { rewrite (lor_shiftl_add a (N.shiftl b 8) 16).
    - rewrite !S8. change (2 ^ 16) with 65536. lia.
    - rewrite S8. change (2 ^ 16) with 65536. lia. }
  rewrite E1, (lor_shiftl_add (a * 256 + b) c 8) by exact C.
  change (2 ^ 8) with 256. lia.
Qed.

Lemma group_value2 (a b : N) :
  a < 256 -> b < 256 ->
  N.lor (N.shiftl a 16) (N.shiftl b 8) = a * 65536 + b * 256.
Proof.
  intros A B.
  assert (S8 : forall x, N.shiftl x 8 = x * 256) by (intros; apply N.shiftl_mul_pow2).
  rewrite (lor_shiftl_add a (N.shiftl b 8) 16).
  - rewrite !S8. change (2 ^ 16) with 65536. lia.
  - rewrite S8. change (2 ^ 16) with 65536. lia.
Qed.

Lemma sextet_div (v k : N) : N.land (N.shiftr v k) 63 = (v / 2 ^ k) mod 64.
Proof. change 63 with (N.ones 6). now rewrite N.land_ones, N.shiftr_div_pow2. Qed.

Lemma group_inj (v v' : N) :
  v < 16777216 -> v' < 16777216 ->
  N.land (N.shiftr v 18) 63 = N.land (N.shiftr v' 18) 63 ->
  N.land (N.shiftr v 12) 63 = N.land (N.shiftr v' 12) 63 ->
  N.land (N.shiftr v 6) 63 = N.land (N.shiftr v' 6) 63 ->
  N.land v 63 = N.land v' 63 ->
  v = v'.
Proof.
  intros H H' E1 E2 E3 E4.
  rewrite !sextet_div in E1, E2, E3.
  change (2 ^ 18) with 262144 in *. change (2 ^ 12) with 4096 in *.
  change (2 ^ 6) with 64 in *.
  change 63 with (N.ones 6) in E4. rewrite !N.land_ones in E4. change (2 ^ 6) with 64 in E4.
  rewrite (sextets_value v H), (sextets_value v' H'). now rewrite E1, E2, E3, E4.
Qed.

Lemma shiftl16_low (a : N) :
  N.land (N.shiftr (N.shiftl a 16) 6) 63 = 0 /\ N.land (N.shiftl a 16) 63 = 0.
Proof.
  rewrite sextet_div. change 63 with (N.ones 6). rewrite N.land_ones.
  rewrite N.shiftl_mul_pow2. change (2 ^ 16) with 65536. change (2 ^ 6) with 64.
  replace (a * 65536) with (a * 1024 * 64) by lia.
  rewrite N.div_mul by discriminate. rewrite N.Div0.mod_mul.
  replace (a * 1024) with (a * 16 * 64) by lia. now rewrite N.Div0.mod_mul.
Qed.

Lemma pair_low (a b : N) : N.land (a * 65536 + b * 256) 63 = 0.
Proof.
  change 63 with (N.ones 6). rewrite N.land_ones. change (2 ^ 6) with 64.
  replace (a * 65536 + b * 256) with ((a * 1024 + b * 4) * 64) by lia.
  apply N.Div0.mod_mul.
Qed.

Lemma digit_inj (i j : N) :
  i < 64 -> j < 64 -> digit encodeStd i = digit encodeStd j -> i = j.
Proof.
  intros Hi Hj E.
  pose proof (below_64
                (fun i => forallb
                            (fun m => implb (Ascii.eqb (digit encodeStd i)
                                               (digit encodeStd (N.of_nat m)))
                                        (N.eqb i (N.of_nat m)))
                            (seq 0 64))
                ltac:(vm_compute; reflexivity) i Hi) as H.
  rewrite forallb_forall in H.
  assert (I : In (N.to_nat j) (seq 0 64)) by (apply in_seq; lia).
  specialize (H _ I). cbv beta in H.
  rewrite N2Nat.id, <- E, Ascii.eqb_refl in H. cbn [implb] in H. now apply N.eqb_eq.
Qed.

Lemma to_N_inj (x y : Byte.byte) : Byte.to_N x = Byte.to_N y -> x = y.
Proof.
  intros H. pose proof (Byte.of_to_N x) as X. pose proof (Byte.of_to_N y) as Y.
  rewrite H in X. congruence.
Qed.

Lemma to_N_lt (x : Byte.byte) : Byte.to_N x < 256.
Proof. pose proof (Byte.to_N_bounded x). lia. Qed.

(** Two byte strings of one length with the same encoding are the same. *)
Lemma EncodeToString_inj (l1 l2 : list Byte.byte) :
  List.length l1 = List.length l2 ->
  EncodeToString encodeStd l1 = EncodeToString encodeStd l2 -> l1 = l2.
Proof.
  revert l2. induction l1 as [| a | a b | a b c rest IH] using list_ind3; intros l2 Hl He.
  - destruct l2; [reflexivity | discriminate].
  - destruct l2 as [|a' [|]]; try discriminate.
    cbn [EncodeToString] in He. cbv zeta in He. injection He as E1 E2.
    apply digit_inj in E1, E2; try apply land_63.
    destruct (shiftl16_low (Byte.to_N a)) as [Z1 Z2].
    destruct (shiftl16_low (Byte.to_N a')) as [Z1' Z2'].
    pose proof (to_N_lt a). pose proof (to_N_lt a').
    assert (V : N.shiftl (Byte.to_N a) 16 = N.shiftl (Byte.to_N a') 16).
    { apply group_inj; try congruence;
        rewrite N.shiftl_mul_pow2; change (2 ^ 16) with 65536; lia. }
    rewrite !N.shiftl_mul_pow2 in V. change (2 ^ 16) with 65536 in V.
    f_equal. apply to_N_inj. lia.
  - destruct l2 as [|a' [|b' [|]]]; try discriminate.
    cbn [EncodeToString] in He. cbv zeta in He.
    pose proof (to_N_lt a). pose proof (to_N_lt a').
    pose proof (to_N_lt b). pose proof (to_N_lt b').
    rewrite !group_value2 in He by assumption.
    injection He as E1 E2 E3.
    apply digit_inj in E1, E2, E3; try apply land_63.
    assert (V : Byte.to_N a * 65536 + Byte.to_N b * 256
                = Byte.to_N a' * 65536 + Byte.to_N b' * 256).
    { apply group_inj; try assumption; try lia. now rewrite !pair_low. }
    assert (Byte.to_N a = Byte.to_N a' /\ Byte.to_N b = Byte.to_N b') as [Ea Eb] by lia.
    apply to_N_inj in Ea, Eb. now subst.
  - destruct l2 as [|a' [|b' [|c' rest']]]; try discriminate.
    cbn [EncodeToString] in He. cbv zeta in He.
    pose proof (to_N_lt a). pose proof (to_N_lt a').
    pose proof (to_N_lt b). pose proof (to_N_lt b').
    pose proof (to_N_lt c). pose proof (to_N_lt c').
    rewrite !group_value in He by assumption.
    injection He as E1 E2 E3 E4 Er.
    apply digit_inj in E1, E2, E3, E4; try apply land_63.
    assert (V : Byte.to_N a * 65536 + Byte.to_N b * 256 + Byte.to_N c
                = Byte.to_N a' * 65536 + Byte.to_N b' * 256 + Byte.to_N c').
    { apply group_inj; try assumption; lia. }
    assert (Byte.to_N a = Byte.to_N a' /\ Byte.to_N b = Byte.to_N b'
            /\ Byte.to_N c = Byte.to_N c') as (Ea & Eb & Ec) by lia.
    apply to_N_inj in Ea, Eb, Ec. subst. f_equal. f_equal. f_equal.
    apply IH; [simpl in Hl; lia | exact Er].
Qed.

End Base64Facts.


(** ** Generated and hashed passwords *)

Section PasswordFacts.

Import base64.

Lemma EncodeToString_length (alphabet : string) (src : list Byte.byte) :
  String.length (EncodeToString alphabet src) = (4 * ((List.length src + 2) / 3))%nat.
Proof.
  destruct (EncodeToString_digits alphabet (fun _ => true) (fun _ _ => eq_refl) src)
    as (body & pad & E & _ & _ & _ & L).
  now rewrite E, length_append.
Qed.

Lemma EncodeToString_std (src : list Byte.byte) :
  all_chars std_char (EncodeToString encodeStd src) = true.
Proof.
  destruct (EncodeToString_digits encodeStd std_char digit_std_char src)
    as (body & pad & E & A & _ & Pd & _).
  rewrite E, all_chars_append, A. destruct Pd as [->|[->| ->]]; reflexivity.
Qed.

Lemma rand_Read_length (r : RandSource) (n : nat) (bytes : list Byte.byte) :
  rand_Read r n = inl bytes -> List.length bytes = n.
Proof.
  unfold rand_Read. destruct (rs_err r); [discriminate|]. intros [= <-].
  rewrite List.length_map. apply List.length_seq.
Qed.

(** No character of [s] being the separator, the first separator of
    [s ++ sep ++ rest] is the one after [s]. *)
Lemma Index_after (p : ascii -> bool) (sep : ascii) (s rest : string) :
  p sep = false -> all_chars p s = true ->
  GoStrings.Index (s ++ String sep rest) (String sep "") = Z.of_nat (String.length s).
Proof.
  intros Hs. induction s as [|c s IH]; intros A; str_simpl.
  - simpl. now rewrite Ascii.eqb_refl.
  - simpl in A. apply andb_true_iff in A as [Hc A].
    cbn [GoStrings.Index GoStrings.HasPrefix].
    destruct (Ascii.eqb_spec sep c) as [->|Hne]; [congruence|].
    rewrite (IH A).
    destruct (Z.eqb_spec (Z.of_nat (String.length s)) (-1)); [lia|].
    simpl String.length. lia.
Qed.

Lemma generateRandomPassword_facts (r : RandSource) (length : nat) :
  match generateRandomPassword r length with
  | inr err => rs_err r = Some err
  | inl password => String.length password = length /\ all_chars url_safe password = true
  end.
Proof.
  unfold generateRandomPassword, rand_Read. destruct (rs_err r) as [err|]; [reflexivity|].
  destruct (EncodeToString_digits encodeURL url_safe digit_url_safe
              (map (rs_byte r) (seq 0 length)))
    as (body & pad & E & A & L & _ & _).
  rewrite List.length_map, List.length_seq in L.
  rewrite E, take_prefix by exact L. split; [now apply take_length|].
  now apply all_chars_take.
Qed.

(** [generateRandomPassword] returns the error of the random source, or
    a password of exactly the length asked for, made of letters, digits,
    '-' and '_' only: the slice stays within the encoded text, which is
    at least as long as the buffer, and ends before its padding. *)
Theorem generateRandomPassword_spec (r : RandSource) (length : nat) :
  match generateRandomPassword r length with
  | inr err => rs_err r = Some err
  | inl password =>
      rs_err r = None /\
      String.length password = length /\
      all_chars url_safe password = true /\
      exists rest,
        EncodeToString encodeURL (map (rs_byte r) (seq 0 length)) = password ++ rest
  end.
Proof.
  unfold generateRandomPassword, rand_Read. destruct (rs_err r) as [err|]; [reflexivity|].
  split; [reflexivity|].
  destruct (EncodeToString_digits encodeURL url_safe digit_url_safe
              (map (rs_byte r) (seq 0 length)))
    as (body & pad & E & A & L & _ & _).
  rewrite List.length_map, List.length_seq in L.
  rewrite E, take_prefix by exact L. split; [now apply take_length|].
  split; [now apply all_chars_take|].
  destruct (take_is_prefix length body) as [rest R].
  exists (rest ++ pad). rewrite <- append_assoc, <- R. reflexivity.
Qed.

(** The text [HashPassword] returns, read back: it is "@ByteArray("
    followed by the encoded salt, ':', the encoded key and ")"; the
    encoded salt has twenty-four characters; neither encoding holds a ':',
    so the first ':' of what follows "@ByteArray(" is the separator. An
    error is the wrapped error of the random source or of the key
    derivation. *)
Theorem HashPassword_format (r : RandSource) (pbkdf2_Key : KeyDerivation)
    (password : string) :
  match HashPassword r pbkdf2_Key password with
  | inl hashed =>
      exists salt key,
        rand_Read r pbkdf2SaltLength = inl salt /\
        pbkdf2_Key password salt pbkdf2Iterations pbkdf2KeyLength = inl key /\
        let salt64 := EncodeToString encodeStd salt in
        let key64 := EncodeToString encodeStd key in
        hashed = "@ByteArray(" ++ salt64 ++ ":" ++ key64 ++ ")" /\
        String.length salt64 = 24%nat /\
        String.length key64 = (4 * ((List.length key + 2) / 3))%nat /\
        GoStrings.Index (salt64 ++ ":" ++ key64 ++ ")") ":" = 24
  | inr err =>
      (exists cause, rs_err r = Some cause /\
                     err = errWrap ("failed to generate salt: " ++ Error cause) cause) \/
      (exists salt cause,
          rand_Read r pbkdf2SaltLength = inl salt /\
          pbkdf2_Key password salt pbkdf2Iterations pbkdf2KeyLength = inr cause /\
          err = errWrap ("failed to derive key: " ++ Error cause) cause)
  end.
Proof.
  unfold HashPassword.
  destruct (rand_Read r pbkdf2SaltLength) as [salt|cause] eqn:R.
  - destruct (pbkdf2_Key password salt pbkdf2Iterations pbkdf2KeyLength) as [key|cause]
      eqn:K.
    + exists salt, key. split; [reflexivity|]. split; [exact K|]. cbv zeta.
      assert (L : String.length (EncodeToString encodeStd salt) = 24%nat).
      { rewrite EncodeToString_length, (rand_Read_length r _ _ R). reflexivity. }
      split; [reflexivity|]. split; [exact L|]. split; [apply EncodeToString_length|].
      change (":" ++ ?x) with (String ":"%char x).
      rewrite (Index_after std_char ":"%char), L;
        [reflexivity | reflexivity | apply EncodeToString_std].
    + right. exists salt, cause. auto.
  - left. exists cause. unfold rand_Read in R. destruct (rs_err r); [|discriminate].
    injection R as ->. auto.
Qed.

(** Two calls of [HashPassword] that return the same text drew the same
    salt, and derived the same key if their keys have one length. So two
    calls that draw different salts return different texts, whatever the
    passwords. *)
Theorem HashPassword_same_text (r1 r2 : RandSource) (kdf1 kdf2 : KeyDerivation)
    (password1 password2 hashed : string) :
  HashPassword r1 kdf1 password1 = inl hashed ->
  HashPassword r2 kdf2 password2 = inl hashed ->
  exists salt key1 key2,
    rand_Read r1 pbkdf2SaltLength = inl salt /\
    rand_Read r2 pbkdf2SaltLength = inl salt /\
    kdf1 password1 salt pbkdf2Iterations pbkdf2KeyLength = inl key1 /\
    kdf2 password2 salt pbkdf2Iterations pbkdf2KeyLength = inl key2 /\
    (List.length key1 = List.length key2 -> key1 = key2).
Proof.
  unfold HashPassword.
  destruct (rand_Read r1 pbkdf2SaltLength) as [salt1|] eqn:R1; [|discriminate].
  destruct (kdf1 password1 salt1 _ _) as [key1|] eqn:K1; [|discriminate].
  destruct (rand_Read r2 pbkdf2SaltLength) as [salt2|] eqn:R2; [|discriminate].
  destruct (kdf2 password2 salt2 _ _) as [key2|] eqn:K2; [|discriminate].
  intros [= <-] [= E]. str_simpl.
  pose proof (rand_Read_length _ _ _ R1) as L1.
  pose proof (rand_Read_length _ _ _ R2) as L2.
  apply append_inj_length in E as [Es Ek];
    [|rewrite !EncodeToString_length, L1, L2; reflexivity].
  apply EncodeToString_inj in Es; [|congruence]. subst salt2.
  exists salt1, key1, key2. repeat split; auto.
  intros Lk. str_simpl. injection Ek as Ek.
  apply append_inj_length in Ek as [Ek _];
    [|rewrite !EncodeToString_length, Lk; reflexivity].
  symmetry. apply EncodeToString_inj; [now symmetry | exact Ek].
Qed.

End PasswordFacts.

Lemma generateRandomPassword_spec_witness :
  generateRandomPassword Demo2.counting_source 16 = inl "AAECAwQFBgcICQoL" /\
  generateRandomPassword Demo2.broken_source 16 = inr (errString "entropy unavailable").
Proof.
  pose proof (generateRandomPassword_spec Demo2.counting_source 16) as H.
  pose proof (generateRandomPassword_spec Demo2.broken_source 16) as B.
  split.
  - destruct (generateRandomPassword Demo2.counting_source 16) as [p|err] eqn:E;
      [|discriminate].
    rewrite <- E. vm_compute. reflexivity.
  - destruct (generateRandomPassword Demo2.broken_source 16) as [p|err];
      [destruct B; discriminate|]. injection B as <-. reflexivity.
Defined.

Lemma HashPassword_same_text_witness :
  exists salt,
    rand_Read Demo2.counting_source pbkdf2SaltLength = inl salt /\
    List.length salt = 16%nat.
Proof.
  destruct (HashPassword_same_text Demo2.counting_source Demo2.counting_source
              Demo2.toy_kdf Demo2.toy_kdf "secretpass" "secretpass"
              (match HashPassword Demo2.counting_source Demo2.toy_kdf "secretpass" with
               | inl t => t
               | inr _ => ""
               end))
    as (salt & key1 & key2 & R & _).
  - vm_compute. reflexivity.
  - vm_compute. reflexivity.
  - exists salt. split; [exact R|]. injection R as <-. reflexivity.
Defined.

(** ** The init step of a managed server *)

Section InitFacts.

Import configinit.

(** A configuration file that is found ends the run at once. *)
Lemma Run_skip (os : Os) (h : list FsEvent) :
  os_Stat os h (config_file os) = None ->
  Run os h = (None, h ++ [FsStat (config_file os)])%list.
Proof. unfold Run, config_file. intros ->. reflexivity. Qed.


(** A second run changes nothing. On a file system where a file that
    was written or found is found afterwards, a run that follows a
    successful run looks for the configuration file and stops: it reads no
    credentials and writes nothing. *)
Theorem Run_idempotent (os : Os) (h : list FsEvent) :
  files_persist os ->
  fst (Run os h) = None ->
  Run os (snd (Run os h)) = (None, snd (Run os h) ++ [FsStat (config_file os)])%list.
Proof.
  intros [W S] N. apply Run_skip. revert N.
  unfold Run, config_file. cbv zeta.
  destruct (os_Stat os h _) as [serr|] eqn:St; [|intros _; now apply S].
  destruct (os_ReadFile os _ (Join os [defaultCredentialsPath; "username"]));
    [|discriminate].
  destruct (os_ReadFile os _ (Join os [defaultCredentialsPath; "password"]));
    [|discriminate].
  destruct (HashPassword _ _ _); [|discriminate].
  destruct (os_MkdirAll os _ _ _); [discriminate|].
  destruct (os_WriteFile os _ _ _ _) eqn:Wr; [discriminate|].
  intros _. cbn [snd]. now apply W.
Qed.

End InitFacts.


Lemma Run_idempotent_witness :
  configinit.Run Demo2.first_boot (snd (configinit.Run Demo2.first_boot [])) =
    (None,
     snd (configinit.Run Demo2.first_boot [])
       ++ [configinit.FsStat "/config/qBittorrent/qBittorrent.conf"])%list.
Proof.
  apply (Run_idempotent Demo2.first_boot []).
  - split.
    + intros h name data perm _. cbn. unfold Demo2.written.
      rewrite existsb_app. cbn. now rewrite String.eqb_refl, orb_true_r.
    + intros h name. cbn. unfold Demo2.written. rewrite existsb_app. cbn.
      rewrite orb_false_r. auto.
  - vm_compute. reflexivity.
Defined.

(** ** A secret without its keys *)

Section UnvalidatedSecret.

Context (env : Env).

(** Resolution for a work item does not check the keys of the secret.
    When the secret of the selected configuration holds neither key, both
    values read as the empty string, and on a key miss the remote engine
    is asked to log in with an empty username and an empty password. (The
    configuration reconciler, given the same secret, contacts nobody.) *)
Theorem getQBTClient_unvalidated_secret (torrent : Torrent) (w : World)
    (tcc : TorrentClientConfiguration) (secret : Secret) :
  selected env torrent w tcc -> available tcc ->
  k_GetSecret env (w_trace (before_secret torrent w)) (secret_key tcc) = inl secret ->
  s_Data secret !! "username" = None -> s_Data secret !! "password" = None ->
  misses (qbittorrent.hashCredentials env (URL (tcc_Spec tcc)) "" "") w ->
  In (EvLogin (mkClient (w_next w) (URL (tcc_Spec tcc))) "" "")
    (w_trace (snd (TorrentReconciler.getQBTClient env torrent w))).
Proof.
  unfold selected, available, before_secret, secret_key.
  intros S (a & F & T) K U P Hm.
  unfold TorrentReconciler.getQBTClient, bind, ret, r_Get_TCC, r_List_TCC, r_Get_Secret,
    call, secret_string.
  destruct (ClientConfigRef (t_Spec torrent)) as [ref|]; unfold add_event in *; wsimpl.
  - destruct S as [G Ls]. rewrite G. wsimpl. rewrite Ls, F, T.
    rewrite String.eqb_refl. cbn [negb]. wsimpl. rewrite K, U, P.
    match goal with
    | |- context [qbittorrent.GetOrCreate env ?u ?n ?p ?w0] =>
        rewrite (GetOrCreate_miss env u n p w0 Hm)
    end.
    cbv zeta. wsimpl.
    destruct (q_Login env _ _ "" ""); wsimpl; apply in_or_app; right; left; reflexivity.
  - rewrite S, F, T. rewrite String.eqb_refl. cbn [negb]. wsimpl. rewrite K, U, P.
    match goal with
    | |- context [qbittorrent.GetOrCreate env ?u ?n ?p ?w0] =>
        rewrite (GetOrCreate_miss env u n p w0 Hm)
    end.
    cbv zeta. wsimpl.
    destruct (q_Login env _ _ "" ""); wsimpl; apply in_or_app; right; left; reflexivity.
Qed.

End UnvalidatedSecret.

Lemma getQBTClient_unvalidated_secret_witness :
  In (EvLogin (mkClient 0 Demo.url) "" "")
    (w_trace (snd (TorrentReconciler.getQBTClient Demo2.keyless (Demo.item None "" None)
                     Demo.loaded))).
Proof.
  apply (getQBTClient_unvalidated_secret Demo2.keyless (Demo.item None "" None)
           Demo.loaded (Demo.config "tcc-a") Demo2.empty_secret).
  - reflexivity.
  - exists Demo.availableNow. split; reflexivity.
  - reflexivity.
  - reflexivity.
  - reflexivity.
  - vm_compute. exact I.
Defined.


(** ** The credentials of a managed server *)

Section EnsureFacts.

Context (env : Env) (sw : SecretWriter).

(** With a secret reference in the spec, [ensureCredentialsSecret] only
    reads: its one call fetches the referenced secret and nothing is
    written or generated. It returns the referenced name exactly when the
    secret is fetched and holds both keys. *)
Theorem ensureCredentialsSecret_explicit (ts : TorrentServer) (spec : TorrentServerSpec)
    (ref : SecretReference) (w : World) :
  ts_CredentialsSecret spec = Some ref ->
  let key := mkNamespacedName (om_Namespace (ts_Meta ts)) (sr_Name ref) in
  let out := ensureCredentialsSecret env sw ts spec w in
  snd out = add_event w (EvGetSecret key) /\
  snd (fst out) = None /\
  (forall name, fst (fst out) = inl name -> name = sr_Name ref) /\
  ((exists name, fst (fst out) = inl name) <->
   exists secret, k_GetSecret env (w_trace w) key = inl secret /\
                  s_Data secret !! "username" <> None /\
                  s_Data secret !! "password" <> None).
Proof.
  intros R. cbv zeta. unfold ensureCredentialsSecret, bind, r_Get_Secret, call, ret.
  rewrite R. cbv beta. unfold add_event.
  destruct (k_GetSecret env (w_trace w) _) as [secret|err].
  - destruct (s_Data secret !! "username") as [u|] eqn:U;
      [destruct (s_Data secret !! "password") as [p|] eqn:P|]; cbn [fst snd];
      (split; [reflexivity|]); (split; [reflexivity|]);
      (split; [intros name [= <-]; reflexivity || intros name [=]|]).
    + split; [intros _; exists secret; rewrite U, P | eauto].
      split; [reflexivity|]. split; discriminate.
    + split; [intros [? [=]] | intros (s0 & [= <-] & _ & Pn)].
      rewrite P in Pn. now destruct Pn.
    + split; [intros [? [=]] | intros (s0 & [= <-] & Un & _)].
      rewrite U in Un. now destruct Un.
  - cbn [fst snd]. split; [reflexivity|]. split; [reflexivity|].
    split; [intros name [=]|]. split; [intros [? [=]] | intros (s0 & [=] & _)].
Qed.

(** The mutation [ensureCredentialsSecret] hands to [CreateOrUpdate],
    followed by the check of the key. *)
Lemma CreateOrUpdate_sent (obj : Secret) (f : Secret -> Secret + error) (w : World)
    (sent : SecretWrite) :
  snd (fst (CreateOrUpdate env sw obj f w)) = Some sent ->
  exists before,
    f before = inl (sent_secret sent) /\
    ObjectKeyFromObject (sent_secret sent) = ObjectKeyFromObject obj.
Proof.
  unfold CreateOrUpdate, bind, r_Get_Secret, call, ret. cbv beta.
  destruct (k_GetSecret env (w_trace w) _) as [existing|err].
  - destruct (f existing) as [o|e] eqn:F; [|discriminate].
    destruct (decide (ObjectKeyFromObject obj = ObjectKeyFromObject o)) as [K|K];
      [|discriminate].
    destruct (decide (existing = o)); [discriminate|].
    destruct (k_UpdateSecret sw _ o); intros [= <-]; eauto.
  - destruct (negb (IsNotFound err)); [discriminate|].
    destruct (f obj) as [o|e] eqn:F; [|discriminate].
    destruct (decide (ObjectKeyFromObject obj = ObjectKeyFromObject o)) as [K|K];
      [|discriminate].
    destruct (k_CreateSecret sw _ o); intros [= <-]; eauto.
Qed.

(** Without a secret reference: a default secret that is found is
    accepted as it is, whatever its keys, and nothing is written. When a
    secret is written, created or updated, it is the default secret of
    the managed server, and its data are the username admin and a freshly
    generated password of sixteen letters, digits, '-' and '_'. *)
Theorem ensureCredentialsSecret_default (ts : TorrentServer) (spec : TorrentServerSpec)
    (w : World) :
  ts_CredentialsSecret spec = None ->
  let out := ensureCredentialsSecret env sw ts spec w in
  (forall existing,
      k_GetSecret env (w_trace w) (default_secret_key ts) = inl existing ->
      out = ((inl (nn_Name (default_secret_key ts)), None),
             add_event w (EvGetSecret (default_secret_key ts)))) /\
  (forall sent,
      snd (fst out) = Some sent ->
      ObjectKeyFromObject (sent_secret sent) = default_secret_key ts /\
      exists password,
        generateRandomPassword (sw_rand sw) 16 = inl password /\
        s_Data (sent_secret sent) = generated_data password /\
        String.length password = 16%nat /\
        all_chars url_safe password = true).
Proof.
  intros R. cbv zeta. unfold ensureCredentialsSecret, default_secret_key.
  rewrite R. unfold bind, r_Get_Secret, call, ret. cbv beta. cbn [nn_Name].
  destruct (k_GetSecret env (w_trace w) _) as [existing|err].
  - split; [intros ? _; reflexivity | intros sent H; discriminate H].
  - split; [intros ? [=]|]. intros sent.
    match goal with
    | |- context [CreateOrUpdate env sw ?obj ?f ?w0] =>
        pose proof (CreateOrUpdate_sent obj f w0) as S;
        destruct (CreateOrUpdate env sw obj f w0) as [[[op [e|]] wr] w1]
    end; cbn [fst snd] in *; intros ->;
      destruct (S sent eq_refl) as (before & F & K); (split; [exact K|]);
      destruct (SetControllerReference sw ts before) as [owned|?]; try discriminate;
      pose proof (generateRandomPassword_facts (sw_rand sw) 16) as G;
      destruct (generateRandomPassword (sw_rand sw) 16) as [password|?];
      try discriminate; injection F as <-;
      exists password; destruct G as (L & A); auto.
Qed.

(** A fetch that fails for another reason than absence replaces the
    password. Without a secret reference, let the first fetch of the
    default secret fail, and let [CreateOrUpdate] then find the secret.
    When the owner reference is granted and the password generated, the
    secret is sent back with the new password in place of the stored one,
    unless nothing at all changed; the result is the name of the secret
    when that update succeeds and its wrapped error otherwise. *)
Theorem ensureCredentialsSecret_rotates (ts : TorrentServer) (spec : TorrentServerSpec)
    (w : World) (err : error) (existing owned : Secret) (password : string) :
  ts_CredentialsSecret spec = None ->
  let key := default_secret_key ts in
  let w1 := add_event w (EvGetSecret key) in
  k_GetSecret env (w_trace w) key = inr err ->
  k_GetSecret env (w_trace w1) key = inl existing ->
  SetControllerReference sw ts existing = inl owned ->
  ObjectKeyFromObject owned = key ->
  generateRandomPassword (sw_rand sw) 16 = inl password ->
  let renewed := mkSecret (s_Meta owned) (generated_data password) in
  renewed <> existing ->
  ensureCredentialsSecret env sw ts spec w =
    ((match k_UpdateSecret sw (w_trace (add_event w1 (EvGetSecret key))) renewed with
      | Some uerr => inr (Errorf_w "failed to create credentials secret" uerr)
      | None => inl (nn_Name key)
      end,
      Some (SecretUpdate renewed)),
     add_event w1 (EvGetSecret key)).
Proof.
  intros R. cbv zeta. intros G1 G2 O K P N.
  unfold ensureCredentialsSecret, default_secret_key in *. rewrite R.
  unfold bind at 1, r_Get_Secret at 1, call at 1. cbv beta. rewrite G1.
  unfold bind at 1, CreateOrUpdate, bind, r_Get_Secret, call, ret. cbv beta.
  unfold add_event in *. wsimpl. cbn [ObjectKeyFromObject s_Meta om_Namespace om_Name].
  unfold ObjectKeyFromObject in K |- *. cbn [s_Meta om_Namespace om_Name] in *.
  rewrite G2, O, P.
  destruct (decide _) as [_|D]; [|now destruct D].
  destruct (decide _) as [E|_]; [now destruct N|].
  cbn [nn_Name]. destruct (k_UpdateSecret sw _ _); reflexivity.
Qed.

End EnsureFacts.

Lemma ensureCredentialsSecret_explicit_witness :
  exists name,
    fst (fst (ensureCredentialsSecret Demo.one_config Demo2.writer Demo.new_server
                (mkTSSpec (Some (mkSecretReference "qbt-creds"))) Demo.start)) = inl name /\
    name = "qbt-creds".
Proof.
  destruct (ensureCredentialsSecret_explicit Demo.one_config Demo2.writer Demo.new_server
              (mkTSSpec (Some (mkSecretReference "qbt-creds")))
              (mkSecretReference "qbt-creds") Demo.start eq_refl) as (_ & _ & N & I).
  destruct I as [_ I]. destruct I as [name E].
  - exists Demo.creds. split; [reflexivity|]. split; vm_compute; discriminate.
  - exists name. split; [exact E | exact (N name E)].
Defined.

Lemma ensureCredentialsSecret_default_witness :
  exists password,
    s_Data (mkSecret (s_Meta Demo2.old_secret) (generated_data "AAECAwQFBgcICQoL"))
      = generated_data password /\
    String.length password = 16%nat /\ all_chars url_safe password = true.
Proof.
  destruct (ensureCredentialsSecret_default Demo2.flaky Demo2.writer Demo.new_server
              Demo2.server_spec Demo.start eq_refl) as [_ S].
  destruct (S (SecretUpdate (mkSecret (s_Meta Demo2.old_secret)
                               (generated_data "AAECAwQFBgcICQoL"))))
    as (_ & password & _ & D & L & A).
  - vm_compute. reflexivity.
  - exists password. split; [exact D|]. split; [exact L | exact A].
Defined.

Lemma ensureCredentialsSecret_rotates_witness :
  snd (fst (ensureCredentialsSecret Demo2.flaky Demo2.writer Demo.new_server
              Demo2.server_spec Demo.start))
  = Some (SecretUpdate (mkSecret (s_Meta Demo2.old_secret)
                          (generated_data "AAECAwQFBgcICQoL"))).
Proof.
  rewrite (ensureCredentialsSecret_rotates Demo2.flaky Demo2.writer Demo.new_server
             Demo2.server_spec Demo.start (errString "context deadline exceeded")
             Demo2.old_secret Demo2.old_secret "AAECAwQFBgcICQoL"
             eq_refl eq_refl eq_refl eq_refl eq_refl).
  - reflexivity.
  - vm_compute. reflexivity.
  - intros E. apply (f_equal (fun s => s_Data s !! "password")) in E.
    vm_compute in E. discriminate E.
Defined.

